(** * gosl/gm: the spatial binning index [Bins]

    A shallow embedding of gm/bins.go: the grid of bins over a 2-D or 3-D
    box, insertion ([Append]), [Clear], the nearest-entry search ([Find])
    and the segment search ([FindAlongSegment]), followed by the properties
    the specification states about them.

    Conventions of the embedding.
    - [float64] is IEEE-754 binary64: Rocq's primitive [float], with the
      operations of [PrimFloat] (round to nearest even, no fused
      multiply-add).
    - [int] is the 64-bit two's complement integer of the 64-bit Go
      targets: a [Z] with the wrap-around written out ([wrap]).
    - a slice is a list; [s[k]] out of range panics, so every program that
      indexes returns a [result].
    - methods with receiver [o Bins] or [o *Bins] take the structure and
      return it: a value receiver copies the slice headers only, so writes
      to the elements of [o.All] and [o.tmp] reach the caller's structure.
    - a [*Bin] is always the pointer held in one slot of [o.All]; it is
      represented by the number of that slot. *)

From Stdlib Require Import ZArith Floats Lia Bool.
From stdpp Require Import base option list strings pretty.

Open Scope Z_scope.

(** ** Results of programs that may panic *)

Inductive result (A : Type) : Type :=
| Ok (a : A)
| Panic.
Arguments Ok {A} a.
Arguments Panic {A}.

#[global] Instance result_ret : MRet result := fun A a => Ok a.
#[global] Instance result_bind : MBind result := fun A B f r =>
  match r with
  | Ok a => f a
  | Panic => Panic
  end.

(** [s[k]] and [s[k] = v] for a loop counter [k] (never negative). *)
Definition index {A} (s : list A) (k : nat) : result A :=
  match s !! k with
  | Some a => Ok a
  | None => Panic
  end.

Definition store {A} (s : list A) (k : nat) (v : A) : result (list A) :=
  if decide (k < length s)%nat then Ok (<[k := v]> s) else Panic.

(** ** The machine integer [int] *)

Definition int_min : Z := - 2 ^ 63.
Definition int_max : Z := 2 ^ 63 - 1.

Definition wrap (z : Z) : Z := (z + 2 ^ 63) mod 2 ^ 64 - 2 ^ 63.

Definition is_int (z : Z) : Prop := int_min <= z <= int_max.

Definition int_add (a b : Z) : Z := wrap (a + b).
Definition int_mul (a b : Z) : Z := wrap (a * b).

(** [a % b] and [a / b] truncate toward zero and panic on a zero divisor. *)
Definition int_rem (a b : Z) : result Z :=
  if decide (b = 0) then Panic else Ok (wrap (Z.rem a b)).
Definition int_quo (a b : Z) : result Z :=
  if decide (b = 0) then Panic else Ok (wrap (Z.quot a b)).

(** ** Conversions between [int] and [float64] *)

(** [float64(n)]: the nearest binary64 value. *)
Definition float64_of_int (n : Z) : float :=
  SF2Prim (binary_normalize prec emax n 0 false).

(** [int(f)]: the fraction is discarded (truncation toward zero).  For a
    value [int] cannot hold (NaN, the infinities, magnitudes of 2^63 and
    more) Go leaves the result to the implementation; this is the result on
    amd64, where the conversion instruction yields the most negative
    integer. *)
Definition int_of_float64 (f : float) : Z :=
  match Prim2SF f with
  | S754_zero _ => 0
  | S754_finite s m e =>
      let v := match e with
               | Z0 => Zpos m
               | Zpos _ => Z.shiftl (Zpos m) e
               | Zneg p => Z.shiftr (Zpos m) (Zpos p)
               end in
      let r := if s then - v else v in
      if decide (int_min <= r <= int_max) then r else int_min
  | S754_infinity _ | S754_nan => int_min
  end.

(** [math.MaxFloat64] *)
Definition MaxFloat64 : float := 0x1.fffffffffffffp+1023%float.

(** Classification of a binary64 value, read off its decoded form. *)
Definition is_NaN (x : float) : bool :=
  match Prim2SF x with
  | S754_nan => true
  | _ => false
  end.

Definition finite64 (x : float) : bool :=
  match Prim2SF x with
  | S754_zero _ | S754_finite _ _ _ => true
  | _ => false
  end.

Definition IsInf (x : float) : bool :=
  match Prim2SF x with
  | S754_infinity _ => true
  | _ => false
  end.

(** ** [math.Pow(x, 2)]

    The only use of [math.Pow] in this file has the constant exponent 2.
    The library does not multiply [x] by itself: it splits [x] into a
    fraction and an exponent ([math.Frexp]), squares the fraction, and
    scales the result back ([math.Ldexp]).  Where the square is normal or
    overflows this is the rounded product [x * x]; a subnormal square is
    rounded a second time by [math.Ldexp]. *)

(** [math.Frexp(f)]: [f = frac × 2^exp] with the magnitude of [frac] in
    [½, 1); a zero, an infinity or a NaN comes back as it is, with
    exponent 0. *)
Definition Frexp (f : float) : float * Z :=
  match Prim2SF f with
  | S754_finite _ _ _ => Z.frexp f
  | _ => (f, 0)
  end.

(** [math.Ldexp(frac, exp)]: [frac × 2^exp], rounded to nearest even when
    it is subnormal and an infinity when it overflows; a zero, an infinity
    or a NaN comes back as it is. *)
Definition Ldexp (frac : float) (exp : Z) : float := Z.ldexp frac exp.

(** The loop of [math.Pow] over the bits of the integer part of the
    exponent, [for i := int64(yi); i != 0; i >>= 1]: the answer is
    [a1 × 2^ae], and [x1 × 2^xe] runs through the powers x, x^2, x^4, ...
    with [x1] kept in [½, 1).  [n] bounds the number of turns; the
    exponents stay far from the ends of [int] (the loop is left when [xe]
    leaves [-4096, 4096]). *)
Fixpoint Pow_loop (n : nat) (i : Z) (a1 : float) (ae : Z) (x1 : float) (xe : Z)
  : float * Z :=
  match n with
  | O => (a1, ae)
  | Datatypes.S n' =>
      if decide (i = 0) then (a1, ae) else
      if decide (xe < - 4096 \/ 4096 < xe) then (a1, ae + xe) else
      let '(a1, ae) :=
        if Z.odd i then ((a1 * x1)%float, ae + xe) else (a1, ae) in
      let x1 := (x1 * x1)%float in
      let xe := 2 * xe in
      let '(x1, xe) :=
        if (x1 <? 0.5)%float then ((x1 + x1)%float, xe - 1) else (x1, xe) in
      Pow_loop n' (Z.shiftr i 1) a1 ae x1 xe
  end.

(** [math.Pow(x, 2)]: the special cases of [math.Pow] that can arise with
    the exponent 2 (x = 1, NaN, a zero, an infinity), then the loop with
    [yi = 2] and no fractional part, then [math.Ldexp]. *)
Definition Pow_2 (x : float) : float :=
  if (x =? 1)%float then 1%float
  else if is_NaN x then nan
  else if (x =? 0)%float then 0%float
  else if IsInf x then infinity
  else
    let '(x1, xe) := Frexp x in
    let '(a1, ae) := Pow_loop 63 2 1%float 0 x1 xe in
    Ldexp a1 ae.

(** ** Helpers of the packages utl and gm that live in other files *)

(** Modelled from the spec: utl.DblCopy is not among the sources.  It
    returns a fresh slice holding the elements of its argument ("copies the
    coordinate", "a private copy"); with slices as values this is the same
    list. *)
Definition DblCopy (x : list float) : list float := x.

(** Modelled from the spec: utl.Max is not among the sources.  It is the
    maximum of two numbers ([max(S[0..dim-1])] is folded with it). *)
Definition Max (a b : float) : float := if (b <? a)%float then a else b.

(** ** Data: entries, bins and the grid *)

Record BinEntry : Type := mkBinEntry {
  Id : Z;           (* object Id *)
  X : list float    (* entry coordinate *)
}.

Record Bin : Type := mkBin {
  Idx : Z;                  (* index of bin *)
  Entries : list BinEntry   (* entries *)
}.

Record Bins : Type := mkBins {
  Ndim : Z;                (* space dimension *)
  Xi : list float;         (* [ndim] left/lower-most point *)
  Xf : list float;         (* [ndim] right/upper-most point *)
  L : list float;          (* [ndim] whole box lengths *)
  S : list float;          (* size of bins *)
  N : list Z;              (* [ndim] number of divisions *)
  All : list (option Bin); (* [nbins] all bins; [None] is a nil pointer *)
  tmp : list Z             (* [ndim] temporary (auxiliary) slice *)
}.

(** The zero value of the structure, on which [Init] is called. *)
Definition new_Bins : Bins := mkBins 0 [] [] [] [] [] [] [].

Definition set_L (o : Bins) (l : list float) : Bins :=
  mkBins (Ndim o) (Xi o) (Xf o) l (S o) (N o) (All o) (tmp o).
Definition set_S (o : Bins) (s : list float) : Bins :=
  mkBins (Ndim o) (Xi o) (Xf o) (L o) s (N o) (All o) (tmp o).
Definition set_N (o : Bins) (n : list Z) : Bins :=
  mkBins (Ndim o) (Xi o) (Xf o) (L o) (S o) n (All o) (tmp o).
Definition set_All (o : Bins) (a : list (option Bin)) : Bins :=
  mkBins (Ndim o) (Xi o) (Xf o) (L o) (S o) (N o) a (tmp o).
Definition set_tmp (o : Bins) (t : list Z) : Bins :=
  mkBins (Ndim o) (Xi o) (Xf o) (L o) (S o) (N o) (All o) t.

(** The errors the package reports through [chk.Err], one per call site. *)
Inductive error : Type :=
| ErrSizes                            (* sizes of xi and l must be the same and equal to either 2 or 3 *)
| ErrPointOutOfRange (x : list float) (* point %v is out of range *)
| ErrBinIndex (idx : Z).              (* bin index %v is out of range *)

(** The counters of the loops [for k := 0; k < o.Ndim; k++]. *)
Definition dims (o : Bins) : list nat := seq 0 (Z.to_nat (Ndim o)).

(** ** Init *)

(** First loop of [Init]: box lengths and bin sizes. *)
Fixpoint Init_sizes (o : Bins) (ndiv : Z) (ks : list nat) : result Bins :=
  match ks with
  | [] => Ok o
  | k :: ks' =>
      xfk ← index (Xf o) k;
      xik ← index (Xi o) k;
      l ← store (L o) k (xfk - xik)%float;
      let o := set_L o l in
      lk ← index (L o) k;
      s ← store (S o) k (lk / float64_of_int ndiv)%float;
      Init_sizes (set_S o s) ndiv ks'
  end.

(** Second loop of [Init]: number of divisions and number of bins. *)
Fixpoint Init_counts (o : Bins) (nbins : Z) (ks : list nat) : result (Bins * Z) :=
  match ks with
  | [] => Ok (o, nbins)
  | k :: ks' =>
      lk ← index (L o) k;
      sk ← index (S o) k;
      n ← store (N o) k (int_add (int_of_float64 (lk / sk)%float) 1);
      let o := set_N o n in
      nk ← index (N o) k;
      Init_counts o (int_mul nbins nk) ks'
  end.

(** [make([]T, n)] for the element types of this file ([float64], [int]
    and [*Bin], of 8 bytes each): the run-time panics on a negative length
    and on a request of more than [maxAlloc] bytes, the size of the address
    space of the heap (2^48 bytes on amd64).  A request within the limit
    is taken to be served: where the machine has no such memory the
    program ends with a fatal error, which is neither a panic nor a
    result. *)
Definition maxAlloc : Z := 2 ^ 48.

Definition make {A} (zero : A) (n : Z) : result (list A) :=
  if decide (n < 0 \/ maxAlloc < 8 * n) then Panic
  else Ok (replicate (Z.to_nat n) zero).

Definition Init (o : Bins) (xi xf : list float) (ndiv : Z)
  : result (Bins * option error) :=
  let n := Z.of_nat (length xi) in
  let o := mkBins n xi xf (L o) (S o) (N o) (All o) (tmp o) in
  if decide (length xi ≠ length xf ∨ n < 2 ∨ n > 3) then
    Ok (o, Some ErrSizes)
  else
    l ← make 0%float (Ndim o);
    s ← make 0%float (Ndim o);
    o ← Init_sizes (set_S (set_L o l) s) ndiv (dims o);
    n ← make 0 (Ndim o);
    '(o, nbins) ← Init_counts (set_N o n) 1 (dims o);
    a ← make None nbins;
    t ← make 0 (Ndim o);
    Ok (set_tmp (set_All o a) t, None).

(** ** CalcIdx *)

(** The loop of [CalcIdx]: [false] when the loop returned -1 (the point is
    out of range), [true] when it ran to its end. *)
Fixpoint CalcIdx_cells (o : Bins) (x : list float) (ks : list nat)
  : result (Bins * bool) :=
  match ks with
  | [] => Ok (o, true)
  | k :: ks' =>
      xk ← index x k;
      xik ← index (Xi o) k;
      if (xk <? xik)%float then Ok (o, false) else
      xfk ← index (Xf o) k;
      if (xfk <? xk)%float then Ok (o, false) else
      sk ← index (S o) k;
      t ← store (tmp o) k (int_of_float64 ((xk - xik) / sk)%float);
      CalcIdx_cells (set_tmp o t) x ks'
  end.

Definition CalcIdx (o : Bins) (x : list float) : result (Bins * Z) :=
  '(o, inside) ← CalcIdx_cells o x (dims o);
  if inside : bool then
    t0 ← index (tmp o) 0;
    t1 ← index (tmp o) 1;
    n0 ← index (N o) 0;
    let idx := int_add t0 (int_mul t1 n0) in
    if decide (Ndim o > 2) then
      t2 ← index (tmp o) 2;
      n0 ← index (N o) 0;
      n1 ← index (N o) 1;
      Ok (o, int_add idx (int_mul (int_mul t2 n0) n1))
    else Ok (o, idx)
  else Ok (o, -1).

(** ** FindBinByIndex *)

(** The pointer returned is the slot of [o.All] ([None] for nil); a bin is
    allocated in the shared table when the slot is empty. *)
Definition FindBinByIndex (o : Bins) (idx : Z) : Bins * option nat :=
  if decide (idx < 0 ∨ idx >= Z.of_nat (length (All o))) then (o, None)
  else
    let slot := Z.to_nat idx in
    match All o !! slot with
    | Some None => (set_All o (<[slot := Some (mkBin idx [])]> (All o)), Some slot)
    | _ => (o, Some slot)
    end.

(** The bin a pointer refers to. *)
Definition deref (o : Bins) (p : nat) : option Bin := mjoin (All o !! p).

(** ** Append and Clear *)

Definition Append (o : Bins) (x : list float) (id : Z)
  : result (Bins * option error) :=
  '(o, idx) ← CalcIdx o x;
  if decide (idx < 0) then Ok (o, Some (ErrPointOutOfRange x)) else
  let '(o, bin) := FindBinByIndex o idx in
  match bin with
  | None => Ok (o, Some (ErrBinIndex idx))
  | Some p =>
      let xcopy := DblCopy x in
      let entry := mkBinEntry id xcopy in
      match deref o p with
      | Some b =>
          Ok (set_All o (<[p := Some (mkBin (Idx b) (Entries b ++ [entry]))]> (All o)), None)
      | None => Panic
      end
  end.

Definition Clear (o : Bins) : Bins := set_All o [].

(** ** Find *)

(** The inner loop of [Find]: the sum of the squared differences. *)
Fixpoint Find_dist (x ex : list float) (ks : list nat) (d : float) : result float :=
  match ks with
  | [] => Ok d
  | k :: ks' =>
      xk ← index x k;
      ek ← index ex k;
      Find_dist x ex ks' (d + Pow_2 (xk - ek))%float
  end.

(** The outer loop of [Find] over the entries of the bin. *)
Fixpoint Find_scan (o : Bins) (x : list float) (es : list BinEntry)
    (dmin : float) (id_closest : Z) : result Z :=
  match es with
  | [] => Ok id_closest
  | entry :: es' =>
      d ← Find_dist x (X entry) (dims o) 0%float;
      if (d <? dmin)%float then Find_scan o x es' d (Id entry)
      else Find_scan o x es' dmin id_closest
  end.

(** [bin.Entries] with [bin] nil is a nil-pointer dereference. *)
Definition Find (o : Bins) (x : list float) : result (Bins * Z) :=
  '(o, idx) ← CalcIdx o x;
  if decide (idx < 0) then Ok (o, -1) else
  let '(o, bin) := FindBinByIndex o idx in
  match bin ≫= deref o with
  | None => Panic
  | Some b =>
      id ← Find_scan o x (Entries b) MaxFloat64 (-1);
      Ok (o, id)
  end.

(** ** FindAlongSegment *)

(** gm.Point, the struct [{X, Y, Z float64}] declared in another file of the
    package; the projections carry a prefix because [X] is the coordinate
    of an entry and [Z] the type of the integers. *)
Record Point : Type := mkPoint {
  PX : float;
  PY : float;
  PZ : float
}.

Section Segment.

(** gm.DistPointLine and gm.IsPointIn are declared in another file of the
    package, which is not among the sources: the search is embedded over
    any two such functions. *)
Variable DistPointLine : Point -> Point -> Point -> float -> bool -> float.
Variable IsPointIn : Point -> list float -> list float -> float -> bool.

(** The centre of the bin [idx]; [z] is the variable the loop assigns
    only in three dimensions. *)
Definition bin_center (o : Bins) (nxy : Z) (idx : Z) (z : float) : result Point :=
  n0 ← index (N o) 0;
  i ← int_rem idx n0;
  m ← int_rem idx nxy;
  n0 ← index (N o) 0;
  j ← int_quo m n0;
  xi0 ← index (Xi o) 0;
  s0 ← index (S o) 0;
  let x := (xi0 + float64_of_int i * s0)%float in
  xi1 ← index (Xi o) 1;
  s1 ← index (S o) 1;
  let y := (xi1 + float64_of_int j * s1)%float in
  s0 ← index (S o) 0;
  let x := (x + s0 / 2)%float in
  s1 ← index (S o) 1;
  let y := (y + s1 / 2)%float in
  if decide (Ndim o = 3) then
    k ← int_quo idx nxy;
    xi2 ← index (Xi o) 2;
    s2 ← index (S o) 2;
    let z := (xi2 + float64_of_int k * s2)%float in
    s2 ← index (S o) 2;
    let z := (z + s2 / 2)%float in
    Ok (mkPoint x y z)
  else Ok (mkPoint x y z).

(** The loop along all bins: [idx] counts the slots already passed, [z]
    and [sbins] are the variables the loop carries. *)
Fixpoint select_bins (o : Bins) (pi pf : Point) (tol btol : float) (nxy : Z)
    (idx : nat) (bins : list (option Bin)) (z : float) (sbins : list Bin)
  : result (list Bin * float) :=
  match bins with
  | [] => Ok (sbins, z)
  | None :: bins' => select_bins o pi pf tol btol nxy (Datatypes.S idx) bins' z sbins
  | Some bin :: bins' =>
      p ← bin_center o nxy (Z.of_nat idx) z;
      let d := DistPointLine p pi pf tol false in
      select_bins o pi pf tol btol nxy (Datatypes.S idx) bins' (PZ p)
        (if (d <=? btol)%float then sbins ++ [bin] else sbins)
  end.

(** The point at which an entry is tested, as the second loop builds it. *)
Definition entry_point (o : Bins) (entry : BinEntry) (z : float) : result Point :=
  x ← index (X entry) 0;
  y ← index (X entry) 1;
  if decide (Ndim o = 3) then
    z ← index (X entry) 0;
    Ok (mkPoint x y z)
  else Ok (mkPoint x y z).

Fixpoint scan_entries (o : Bins) (pi pf : Point) (xi xf : list float) (tol : float)
    (es : list BinEntry) (z : float) (ids : list Z) : result (list Z * float) :=
  match es with
  | [] => Ok (ids, z)
  | entry :: es' =>
      p ← entry_point o entry z;
      let d := DistPointLine p pi pf tol false in
      scan_entries o pi pf xi xf tol es' (PZ p)
        (if (d <=? tol)%float then
           if IsPointIn p xi xf tol then ids ++ [Id entry] else ids
         else ids)
  end.

Fixpoint scan_bins (o : Bins) (pi pf : Point) (xi xf : list float) (tol : float)
    (sbins : list Bin) (z : float) (ids : list Z) : result (list Z) :=
  match sbins with
  | [] => Ok ids
  | bin :: sbins' =>
      '(ids, z) ← scan_entries o pi pf xi xf tol (Entries bin) z ids;
      scan_bins o pi pf xi xf tol sbins' z ids
  end.

(** The tolerance for bins, [0.9 * lmax]. *)
Definition bin_tolerance (o : Bins) : result float :=
  s0 ← index (S o) 0;
  s1 ← index (S o) 1;
  let lmax := Max s0 s1 in
  if decide (Ndim o = 3) then
    s2 ← index (S o) 2;
    Ok (0x1.ccccccccccccdp-1 * Max lmax s2)%float
  else Ok (0x1.ccccccccccccdp-1 * lmax)%float.

(** The end points as [Point]s, and the corners handed to [IsPointIn]: in
    two dimensions the slices are replaced by three-component ones. *)
Definition segment_ends (o : Bins) (xi xf : list float)
  : result (Point * Point * list float * list float) :=
  xi0 ← index xi 0;
  xf0 ← index xf 0;
  xi1 ← index xi 1;
  xf1 ← index xf 1;
  if decide (Ndim o = 3) then
    xi2 ← index xi 2;
    xf2 ← index xf 2;
    Ok (mkPoint xi0 xi1 xi2, mkPoint xf0 xf1 xf2, xi, xf)
  else
    Ok (mkPoint xi0 xi1 0, mkPoint xf0 xf1 0,
        [xi0; xi1; (-1)%float], [xf0; xf1; 1%float]).

Definition FindAlongSegment (o : Bins) (xi xf : list float) (tol : float)
  : result (list Z) :=
  btol ← bin_tolerance o;
  '(pi, pf, xi, xf) ← segment_ends o xi xf;
  n0 ← index (N o) 0;
  n1 ← index (N o) 1;
  let nxy := int_mul n0 n1 in
  '(sbins, z) ← select_bins o pi pf tol btol nxy 0 (All o) 0%float [];
  scan_bins o pi pf xi xf tol sbins z [].

End Segment.

(** Modelled from the spec: gm.DistPointLine is not among the sources.  The
    distance is "measured to the finite segment (not the infinite line)":
    the foot of the perpendicular from [p] is clamped to the segment
    [a]-[b], and the Euclidean distance from [p] to it is returned.  The
    spec gives no part to the last two arguments. *)
Definition DistPointLine (p a b : Point) (tol : float) (verbose : bool) : float :=
  let ux := (PX b - PX a)%float in
  let uy := (PY b - PY a)%float in
  let uz := (PZ b - PZ a)%float in
  let vx := (PX p - PX a)%float in
  let vy := (PY p - PY a)%float in
  let vz := (PZ p - PZ a)%float in
  let uu := (ux * ux + uy * uy + uz * uz)%float in
  let t := if (0 <? uu)%float then ((vx * ux + vy * uy + vz * uz) / uu)%float
           else 0%float in
  let t := if (t <? 0)%float then 0%float
           else if (1 <? t)%float then 1%float else t in
  let dx := (vx - t * ux)%float in
  let dy := (vy - t * uy)%float in
  let dz := (vz - t * uz)%float in
  sqrt (dx * dx + dy * dy + dz * dz)%float.

Definition Min (a b : float) : float := if (a <? b)%float then a else b.

(** Modelled from the spec: gm.IsPointIn is not among the sources.  The
    point "lies within the axis-aligned bounding box spanned by startPoint
    and endPoint (componentwise min/max, inclusive, expanded by
    tolerance)". *)
Definition within (v a b tol : float) : bool :=
  (Min a b - tol <=? v)%float && (v <=? Max a b + tol)%float.

Definition IsPointIn (p : Point) (cMin cMax : list float) (tol : float) : bool :=
  match cMin, cMax with
  | a0 :: a1 :: a2 :: _, b0 :: b1 :: b2 :: _ =>
      within (PX p) a0 b0 tol && within (PY p) a1 b1 tol && within (PZ p) a2 b2 tol
  | _, _ => false
  end.

(** ** Vocabulary of the properties *)

(** The geometry of the grid: every field but the table of bins and the
    scratch slice. *)
Definition geometry (o : Bins) :=
  (Ndim o, Xi o, Xf o, L o, S o, N o).

(** The entries held by the cell [slot]: none when the cell has no bin. *)
Definition entries_at (o : Bins) (slot : nat) : list BinEntry :=
  match deref o slot with
  | Some b => Entries b
  | None => []
  end.

(** The test [CalcIdx] applies to each coordinate. *)
Definition outside (xk xik xfk : float) : bool :=
  (xk <? xik)%float || (xfk <? xk)%float.

(** [x] passes the range test of [CalcIdx] in every dimension. *)
Definition in_box (o : Bins) (x : list float) : bool :=
  forallb (fun k =>
    match x !! k, Xi o !! k, Xf o !! k with
    | Some xk, Some xik, Some xfk => negb (outside xk xik xfk)
    | _, _, _ => false
    end) (dims o).

(** [x] lies in the box: [Xi[k] <= x[k] <= Xf[k]] in every dimension (no
    coordinate is NaN). *)
Definition inside (o : Bins) (x : list float) : bool :=
  forallb (fun k =>
    match x !! k, Xi o !! k, Xf o !! k with
    | Some xk, Some xik, Some xfk =>
        (xik <=? xk)%float && (xk <=? xfk)%float
    | _, _, _ => false
    end) (dims o).

(** What a failed call may still have written: the scratch slice. *)
Definition same_but_tmp (o o' : Bins) : Prop :=
  geometry o' = geometry o /\ All o' = All o /\ length (tmp o') = length (tmp o).

(** The shape [Init] gives the structure. *)
Record wf (o : Bins) : Prop := mk_wf {
  wf_Ndim : Ndim o = 2 \/ Ndim o = 3;
  wf_Xi : Z.of_nat (length (Xi o)) = Ndim o;
  wf_Xf : Z.of_nat (length (Xf o)) = Ndim o;
  wf_L : Z.of_nat (length (L o)) = Ndim o;
  wf_S : Z.of_nat (length (S o)) = Ndim o;
  wf_N : Z.of_nat (length (N o)) = Ndim o;
  wf_tmp : Z.of_nat (length (tmp o)) = Ndim o
}.

(** The states of a grid that was initialized and not cleared since. *)
Inductive initialized : Bins -> Prop :=
| init_Init o0 xi xf ndiv o :
    Init o0 xi xf ndiv = Ok (o, None) -> initialized o
| init_Append o x id o' e :
    initialized o -> Append o x id = Ok (o', e) -> initialized o'
| init_Find o x o' id :
    initialized o -> Find o x = Ok (o', id) -> initialized o'.

(** The states a caller can bring a grid into. *)
Inductive reachable : Bins -> Prop :=
| reach_Init o0 xi xf ndiv o :
    Init o0 xi xf ndiv = Ok (o, None) -> reachable o
| reach_Append o x id o' e :
    reachable o -> Append o x id = Ok (o', e) -> reachable o'
| reach_Find o x o' id :
    reachable o -> Find o x = Ok (o', id) -> reachable o'
| reach_Clear o :
    reachable o -> reachable (Clear o).

(** ** Grids used as examples *)

(** The structure a call left behind. *)
Definition grid_of {A} (r : result (Bins * A)) : Bins :=
  match r with
  | Ok (o, _) => o
  | Panic => new_Bins
  end.

(** The scenario of the specification: the box (0,0)-(10,10) cut in 5,
    then id 1 at (1,1) and id 2 at (9,9). *)
Definition box10 : Bins :=
  grid_of (Init new_Bins [0; 0]%float [10; 10]%float 5).

Definition box10_one : Bins := grid_of (Append box10 [1; 1]%float 1).

Definition box10_two : Bins := grid_of (Append box10_one [9; 9]%float 2).

(** Four entries in the cell of the lower corner: two at the squared
    distance 0.5 from (1,1), then two at 0.0625. *)
Definition box10_four : Bins :=
  grid_of (Append (grid_of (Append (grid_of (Append (grid_of
    (Append box10 [0.5; 0.5]%float 1))
            [1.5; 1.5]%float 2))
            [1; 1.25]%float 3))
            [1.25; 1]%float 4).

(** The same box cut in 4: five bins along each dimension. *)
Definition box10_by4 : Bins :=
  grid_of (Init new_Bins [0; 0]%float [10; 10]%float 4).

(** A box of side 2^32 - 1 cut in 2^32 - 1: 2^32 bins along each
    dimension. *)
Definition wide_box : Bins :=
  grid_of (Init new_Bins [0; 0]%float [4294967295; 4294967295]%float 4294967295).

(** The box (-2^600,-2^600)-(2^600,2^600) cut in 2, with id 1 at the
    origin. *)
Definition far_box : Bins :=
  grid_of (Init new_Bins [-0x1p+600; -0x1p+600]%float [0x1p+600; 0x1p+600]%float 2).

Definition far_box_one : Bins := grid_of (Append far_box [0; 0]%float 1).

(** The cube (0,0,0)-(10,10,10) cut in 5, with id 7 at (1,1,1.75). *)
Definition cube10 : Bins :=
  grid_of (Init new_Bins [0; 0; 0]%float [10; 10; 10]%float 5).

Definition cube10_one : Bins := grid_of (Append cube10 [1; 1; 1.75]%float 7).

(** The unit square in one division, with two entries so close to the
    origin that the squares of their distances are subnormal: about
    1.94 × 2^-537 and 1.73 × 2^-537 along the first axis. *)
Definition unit_box : Bins :=
  grid_of (Init new_Bins [0; 0]%float [1; 1]%float 1).

Definition unit_box_two : Bins :=
  grid_of (Append (grid_of
    (Append unit_box [0x1.deeea11683f49p-537; 0]%float 1))
            [0x1.bb67ae8584caap-537; 0]%float 2).

(** A box of the least positive length along the first axis, cut in 5:
    the bin size underflows to zero. *)
Definition thin_box : Bins :=
  grid_of (Init new_Bins [0; 0]%float [0x1p-1074; 10]%float 5).

(** ** The values [Init] computes *)

(** Box lengths, bin sizes and bin counts, coordinate by coordinate. *)
Definition box_L (xi xf : list float) : list float :=
  zip_with (fun b a => (b - a)%float) xf xi.
Definition box_S (l : list float) (ndiv : Z) : list float :=
  (fun lk => (lk / float64_of_int ndiv)%float) <$> l.
Definition box_N (l s : list float) : list Z :=
  zip_with (fun lk sk => int_add (int_of_float64 (lk / sk)%float) 1) l s.

(** The number of bins, multiplied up as [Init] does. *)
Definition nbins_of (n : list Z) : Z := foldl int_mul 1 n.

(** The cell coordinate [CalcIdx] computes along dimension [k]. *)
Definition cell (o : Bins) (x : list float) (k : nat) : option Z :=
  xk ← x !! k;
  xik ← Xi o !! k;
  sk ← S o !! k;
  Some (int_of_float64 ((xk - xik) / sk)%float).

(** The flat index [CalcIdx] builds from the cell coordinates. *)
Definition flat_index (o : Bins) (x : list float) : option Z :=
  c0 ← cell o x 0;
  c1 ← cell o x 1;
  n0 ← N o !! 0%nat;
  let idx := int_add c0 (int_mul c1 n0) in
  if decide (Ndim o > 2) then
    c2 ← cell o x 2;
    n1 ← N o !! 1%nat;
    Some (int_add idx (int_mul (int_mul c2 n0) n1))
  else Some idx.

(** ** The order of binary64 values *)

(** A key that orders the decoded values other than NaN as [SFcompare]
    does: the infinities at the two ends, the zeros in the middle, finite
    values by exponent and then mantissa, mirrored for negative ones. *)
Definition order_key (x : spec_float) : Z * Z * Z :=
  match x with
  | S754_infinity true => (-2, 0, 0)
  | S754_finite true m e => (-1, - e, - Zpos m)
  | S754_zero _ => (0, 0, 0)
  | S754_nan => (0, 0, 0)
  | S754_finite false m e => (1, e, Zpos m)
  | S754_infinity false => (2, 0, 0)
  end.

Definition key_lt (a b : Z * Z * Z) : Prop :=
  let '(a1, a2, a3) := a in
  let '(b1, b2, b3) := b in
  a1 < b1 \/ a1 = b1 /\ (a2 < b2 \/ a2 = b2 /\ a3 < b3).

Definition SF_is_nan (x : spec_float) : bool :=
  match x with
  | S754_nan => true
  | _ => false
  end.

(** The squared distance [Find] computes between the query point and an
    entry. *)
Definition sqdist (o : Bins) (x : list float) (e : BinEntry) : result float :=
  Find_dist x (X e) (dims o) 0%float.

(** The product of the bin counts, as a mathematical integer. *)
Definition Zprod (n : list Z) : Z := foldr Z.mul 1 n.

(** ** The value of a binary64 number, and rounding *)

(** The vocabulary of the proof that the subtraction and the division of
    [CalcIdx] keep the order of their operands. *)

(** The place of [r] in a step of [den]: at its start, or before, at or
    after its middle. *)
Definition loc_of (r den : Z) : location :=
  if r =? 0 then loc_Exact else loc_Inexact (2 * r ?= den).

(** The quotient [num / den] with its round and sticky bits. *)
Definition rec_of (num den : Z) : shr_record :=
  shr_record_of_loc (num / den) (loc_of (num mod den) den).

(** [num / den] rounded to the nearest integer, ties to the even one. *)
Definition rne (num den : Z) : Z :=
  round_nearest_even (num / den) (loc_of (num mod den) den).

(** [NUM / DEN], a number counted in units of 2^emin, rounded to 53
    significant bits. *)
Definition Rq (NUM DEN : Z) : Z :=
  rne NUM (DEN * 2 ^ Z.max (Zdigits2 (NUM / DEN) - prec) 0)
  * 2 ^ Z.max (Zdigits2 (NUM / DEN) - prec) 0.

(** The magnitude of a decoded value in units of 2^emin; the infinities
    stand above every number. *)
Definition INF : Z := 2 ^ 2098.

Definition Emag (x : spec_float) : Z :=
  match x with
  | S754_zero _ => 0
  | S754_finite _ m e => Zpos m * 2 ^ (e - emin)
  | S754_infinity _ => INF
  | S754_nan => 0
  end.

(** The value of a decoded number in units of 2^emin. *)
Definition IV (x : spec_float) : Z :=
  match x with
  | S754_finite true m e => - (Zpos m * 2 ^ (e - emin))
  | S754_finite false m e => Zpos m * 2 ^ (e - emin)
  | _ => 0
  end.

(** A zero or a finite number. *)
Definition SFfin (x : spec_float) : bool :=
  match x with
  | S754_zero _ | S754_finite _ _ _ => true
  | _ => false
  end.

(** The last step of [binary_round_aux]: the rounded mantissa [m] at the
    exponent [t] is normalized and checked for overflow. *)
Definition fin (s : bool) (m t : Z) : spec_float :=
  let '(mrs, e) := shr_fexp prec emax m t loc_Exact in
  match shr_m mrs with
  | Z0 => S754_zero s
  | Zpos p => if e <=? emax - prec then S754_finite s p e else S754_infinity s
  | Zneg _ => S754_nan
  end.

(** A number or an infinity of sign [s]. *)
Definition signed (s : bool) (x : spec_float) : Prop :=
  match x with
  | S754_zero s' | S754_finite s' _ _ | S754_infinity s' => s' = s
  | S754_nan => False
  end.

(** A zero, or a number or an infinity above zero. *)
Definition not_below_zero (x : spec_float) : Prop :=
  match x with
  | S754_zero _ => True
  | S754_finite s _ _ | S754_infinity s => s = false
  | S754_nan => False
  end.

(** ** The two tests of [FindAlongSegment] *)

(** The coarse test of the bin in [slot]: its centre is within the bin
    tolerance of the segment. *)
Definition near_segment (D : Point -> Point -> Point -> float -> bool -> float)
    (o : Bins) (pi pf : Point) (tol btol : float) (nxy : Z) (slot : nat) : bool :=
  match bin_center o nxy (Z.of_nat slot) 0%float with
  | Ok c => (D c pi pf tol false <=? btol)%float
  | Panic => false
  end.

(** The fine test of an entry: the point built from it is within the
    tolerance of the segment and inside the box of the end points. *)
Definition entry_passes (D : Point -> Point -> Point -> float -> bool -> float)
    (I : Point -> list float -> list float -> float -> bool)
    (o : Bins) (pi pf : Point) (xi xf : list float) (tol : float)
    (e : BinEntry) : bool :=
  match entry_point o e 0%float with
  | Ok p => (D p pi pf tol false <=? tol)%float && I p xi xf tol
  | Panic => false
  end.

(** In two dimensions the variable [z] of [FindAlongSegment] keeps the
    value 0 it starts with; in three it is assigned before each use. *)
Definition z_inv (o : Bins) (z : float) : Prop := Ndim o = 3 \/ z = 0%float.

(** The table of a reachable grid: the [nbins] slots [Init] allocated, or
    none after [Clear]; the bin counts are machine integers. *)
Definition table_ok (o : Bins) : Prop :=
  Forall is_int (N o) /\
  (All o = [] \/ Z.of_nat (length (All o)) = nbins_of (N o)).

(** ** Vocabulary of the further properties *)

(** A value with the sign bit clear, or NaN: what a sum of squares is. *)
Definition sign_clear (x : spec_float) : Prop :=
  match x with
  | S754_zero s | S754_infinity s | S754_finite s _ _ => s = false
  | S754_nan => True
  end.

(** The entries of the table, slot by slot. *)
Definition stored_entries (o : Bins) : list BinEntry :=
  concat ((fun b : option Bin => from_option Entries [] b) <$> All o).

(** The centre of the cell of [x] along dimension [k], computed as
    [FindAlongSegment] computes the centre of a bin. *)
Definition cell_center (o : Bins) (x : list float) (k : nat) : option float :=
  c ← cell o x k;
  xik ← Xi o !! k;
  sk ← S o !! k;
  Some (xik + float64_of_int c * sk + sk / 2)%float.

(** Two structures that hold the same entries in the same cells of the
    same grid: they may differ in the scratch slice, and in the cells that
    hold a bin without entries where the other holds none. *)
Definition same_entries (o o' : Bins) : Prop :=
  geometry o' = geometry o /\
  length (All o') = length (All o) /\
  length (tmp o') = length (tmp o) /\
  forall slot, entries_at o' slot = entries_at o slot.

(** The ids [FindAlongSegment] returns, read off the table from the slot
    [idx] on: in every cell that passes the coarse test [near], the
    entries that pass the fine test [pass]. *)
Fixpoint ids_along (near : nat -> bool) (pass : BinEntry -> bool) (idx : nat)
    (bins : list (option Bin)) : list Z :=
  match bins with
  | [] => []
  | b :: bins' =>
      (if near idx
       then Id <$> List.filter pass (from_option Entries [] b)
       else []) ++ ids_along near pass (Datatypes.S idx) bins'
  end.

(** ** String *)

(** io.Sf is declared in the package io, which is not among the sources:
    the functions that format text are embedded over any such function,
    called with the format and the values to print. *)
Inductive arg : Type :=
| AInt (n : Z)
| AFloat (f : float).

(** The double quote, which the formats of [Bin.String] hold. *)
Definition dquote : string := String (Ascii.ascii_of_nat 34) EmptyString.

Section Strings.

Variable Sf : string -> list arg -> string.

(** [for i, entry := range o.Entries]: [l] is the text built so far. *)
Fixpoint Bin_String_entries (es : list BinEntry) (i : nat) (l : string)
  : result string :=
  match es with
  | [] => Ok l
  | entry :: es' =>
      let l := if decide (0 < i)%nat then l +:+ ", " else l in
      x0 ← index (X entry) 0;
      x1 ← index (X entry) 1;
      let l := l +:+ Sf ("{" +:+ dquote +:+ "id" +:+ dquote +:+ ":%d, "
                         +:+ dquote +:+ "x" +:+ dquote +:+ ":[%g,%g")
                        [AInt (Id entry); AFloat x0; AFloat x1] in
      l ← (if decide (2 < length (X entry))%nat then
             x2 ← index (X entry) 2;
             Ok (l +:+ Sf ",%g" [AFloat x2])
           else Ok l);
      Bin_String_entries es' (Datatypes.S i) (l +:+ "]}")
  end.

Definition Bin_String (o : Bin) : result string :=
  let l := Sf ("{" +:+ dquote +:+ "idx" +:+ dquote +:+ ":%d, "
               +:+ dquote +:+ "entries" +:+ dquote +:+ ":[") [AInt (Idx o)] in
  l ← Bin_String_entries (Entries o) 0 l;
  Ok (l +:+ "]}").

End Strings.

(** A stand-in for io.Sf on the examples: a call with one integer gives
    its decimal digits. *)
Definition Sf_decimal (fmt : string) (args : list arg) : string :=
  match args with
  | [AInt n] => pretty n
  | _ => fmt
  end.

(** ** Draw2d *)

(** The package plt is seen through the calls it receives: a call is
    recorded with the values of its arguments when it is made (plt.Plot
    writes the numbers of its slices out before it returns).  [A] is the
    struct of optional arguments, declared in a file of plt that is not
    among the sources: the record keeps the fields gm/bins.go sets, the
    others are left at their zero value in every call. *)
Module plt.

Record A : Type := mkA {
  C : string;
  M : string;
  Fc : string;
  Ec : string;
  Lw : float;
  Closed : bool
}.

Inductive call : Type :=
| Plot (x y : list float) (args : option A)
| Polyline (P : list (list float)) (args : option A)
| PlotOne (x y : float) (args : option A)
| Text (x y : float) (txt : string) (args : option A)
| Equal
| AxisRange (xmin xmax ymin ymax : float).

End plt.

(** [&plt.A{C: "#4f3677"}] *)
Definition grid_args : plt.A :=
  plt.mkA "#4f3677" EmptyString EmptyString EmptyString 0 false.

(** [&plt.A{Fc: "#fbefdc", Ec: "#8e8371", Lw: 0.5, Closed: true}] *)
Definition selected_args : plt.A :=
  plt.mkA EmptyString EmptyString "#fbefdc" "#8e8371" 0.5 true.

(** [&plt.A{C: "r", M: "."}] *)
Definition entry_args : plt.A :=
  plt.mkA "r" "." EmptyString EmptyString 0 false.

Section Drawing.

Variable Sf : string -> list arg -> string.

(** [for j := 0; j < o.N[1]+1; j++]: the horizontal lines.  The counters
    are the values below the bound, which the loop does not change; [y] is
    the slice the loop writes before each call. *)
Fixpoint Draw2d_hlines (o : Bins) (x y : list float) (js : list nat)
    (calls : list plt.call) : result (list float * list plt.call) :=
  match js with
  | [] => Ok (y, calls)
  | j :: js' =>
      xi1 ← index (Xi o) 1;
      s1 ← index (S o) 1;
      y ← store y 0 (xi1 + float64_of_int (Z.of_nat j) * s1)%float;
      y0 ← index y 0;
      y ← store y 1 y0;
      Draw2d_hlines o x y js' (calls ++ [plt.Plot x y (Some grid_args)])
  end.

(** [for i := 0; i < o.N[0]+1; i++]: the vertical lines. *)
Fixpoint Draw2d_vlines (o : Bins) (x y : list float) (ks : list nat)
    (calls : list plt.call) : result (list float * list plt.call) :=
  match ks with
  | [] => Ok (x, calls)
  | i :: ks' =>
      xi0 ← index (Xi o) 0;
      s0 ← index (S o) 0;
      x ← store x 0 (xi0 + float64_of_int (Z.of_nat i) * s0)%float;
      x0 ← index x 0;
      x ← store x 1 x0;
      Draw2d_vlines o x y ks' (calls ++ [plt.Plot x y (Some grid_args)])
  end.

(** [for idx, _ := range selBins]: the selected bins, [sel] being the keys
    of the map in the order the iteration yields them. *)
Fixpoint Draw2d_selected (o : Bins) (nxy : Z) (sel : list Z)
    (calls : list plt.call) : result (list plt.call) :=
  match sel with
  | [] => Ok calls
  | idx :: sel' =>
      n0 ← index (N o) 0;
      i ← int_rem idx n0;
      m ← int_rem idx nxy;
      n0 ← index (N o) 0;
      j ← int_quo m n0;
      xi0 ← index (Xi o) 0;
      s0 ← index (S o) 0;
      let x := (xi0 + float64_of_int i * s0)%float in
      xi1 ← index (Xi o) 1;
      s1 ← index (S o) 1;
      let y := (xi1 + float64_of_int j * s1)%float in
      s0a ← index (S o) 0;
      s0b ← index (S o) 0;
      s1b ← index (S o) 1;
      s1c ← index (S o) 1;
      Draw2d_selected o nxy sel'
        (calls ++ [plt.Polyline
                     [[x; y]; [x + s0a; y]; [x + s0b; y + s1b]; [x; y + s1c]]%float
                     (Some selected_args)])
  end.

(** [for _, entry := range bin.Entries] *)
Fixpoint Draw2d_entries (es : list BinEntry) (calls : list plt.call)
  : result (list plt.call) :=
  match es with
  | [] => Ok calls
  | entry :: es' =>
      x0 ← index (X entry) 0;
      x1 ← index (X entry) 1;
      Draw2d_entries es' (calls ++ [plt.PlotOne x0 x1 (Some entry_args)])
  end.

(** [for _, bin := range o.All] *)
Fixpoint Draw2d_bins (bins : list (option Bin)) (calls : list plt.call)
  : result (list plt.call) :=
  match bins with
  | [] => Ok calls
  | None :: bins' => Draw2d_bins bins' calls
  | Some bin :: bins' =>
      calls ← Draw2d_entries (Entries bin) calls;
      Draw2d_bins bins' calls
  end.

(** [for i := 0; i < o.N[0]; i++]: the labels of the row [j]; the factor
    is the [float64] nearest to 0.02. *)
Fixpoint Draw2d_labels_row (o : Bins) (j : nat) (ks : list nat)
    (calls : list plt.call) : result (list plt.call) :=
  match ks with
  | [] => Ok calls
  | i :: ks' =>
      n0 ← index (N o) 0;
      let idx := int_add (Z.of_nat i) (int_mul (Z.of_nat j) n0) in
      xi0 ← index (Xi o) 0;
      s0 ← index (S o) 0;
      s0' ← index (S o) 0;
      let x := (xi0 + float64_of_int (Z.of_nat i) * s0
                + 0x1.47ae147ae147bp-6 * s0')%float in
      xi1 ← index (Xi o) 1;
      s1 ← index (S o) 1;
      s1' ← index (S o) 1;
      let y := (xi1 + float64_of_int (Z.of_nat j) * s1
                + 0x1.47ae147ae147bp-6 * s1')%float in
      Draw2d_labels_row o j ks' (calls ++ [plt.Text x y (Sf "%d" [AInt idx]) None])
  end.

(** [for j := 0; j < o.N[1]; j++] *)
Fixpoint Draw2d_labels (o : Bins) (js : list nat) (calls : list plt.call)
  : result (list plt.call) :=
  match js with
  | [] => Ok calls
  | j :: js' =>
      n0 ← index (N o) 0;
      calls ← Draw2d_labels_row o j (seq 0 (Z.to_nat n0)) calls;
      Draw2d_labels o js' calls
  end.

(** The block [if withgrid { ... }]: the slices [x] and [y] are written
    in place by the two loops. *)
Definition Draw2d_grid (o : Bins) : result (list plt.call) :=
  xi0 ← index (Xi o) 0;
  xi0' ← index (Xi o) 0;
  l0 ← index (L o) 0;
  s0 ← index (S o) 0;
  let x := [xi0; (xi0' + l0 + s0)%float] in
  y ← make 0%float 2;
  n1 ← index (N o) 1;
  '(y, calls) ← Draw2d_hlines o x y (seq 0 (Z.to_nat (int_add n1 1))) [];
  xi1 ← index (Xi o) 1;
  y ← store y 0 xi1;
  xi1 ← index (Xi o) 1;
  l1 ← index (L o) 1;
  s1 ← index (S o) 1;
  y ← store y 1 (xi1 + l1 + s1)%float;
  n0 ← index (N o) 0;
  '(_, calls) ← Draw2d_vlines o x y (seq 0 (Z.to_nat (int_add n0 1))) calls;
  Ok calls.

(** The calls [Draw2d] makes, in order; [selBins] lists the keys of the
    map.  The constant of the axis range is the [float64] nearest to
    0.1. *)
Definition Draw2d (o : Bins) (withtxt withgrid withentries setup : bool)
    (selBins : list Z) : result (list plt.call) :=
  calls ← (if withgrid then Draw2d_grid o else Ok []);
  n0 ← index (N o) 0;
  n1 ← index (N o) 1;
  let nxy := int_mul n0 n1 in
  calls ← Draw2d_selected o nxy selBins calls;
  calls ← (if withentries then Draw2d_bins (All o) calls else Ok calls);
  calls ←
    (if withtxt then
       n1 ← index (N o) 1;
       Draw2d_labels o (seq 0 (Z.to_nat n1)) calls
     else Ok calls);
  if setup then
    xi0 ← index (Xi o) 0;
    xf0 ← index (Xf o) 0;
    s0 ← index (S o) 0;
    xi1 ← index (Xi o) 1;
    xf1 ← index (Xf o) 1;
    s1 ← index (S o) 1;
    Ok (calls ++ [plt.Equal;
                  plt.AxisRange (xi0 - 0x1.999999999999ap-4)
                    (xf0 + s0 + 0x1.999999999999ap-4)
                    (xi1 - 0x1.999999999999ap-4)
                    (xf1 + s1 + 0x1.999999999999ap-4)])%float
  else Ok calls.

End Drawing.

(** The call that plots an entry. *)
Definition entry_call (e : BinEntry) : option plt.call :=
  x0 ← X e !! 0%nat;
  x1 ← X e !! 1%nat;
  Some (plt.PlotOne x0 x1 (Some entry_args)).

(** * Properties *)

(** ** Reasoning about programs that may panic *)

Arguments float64_of_int : simpl never.
Arguments int_of_float64 : simpl never.
Arguments int_add : simpl never.
Arguments int_mul : simpl never.
Arguments wrap : simpl never.

Lemma bind_Ok {A B} (r : result A) (f : A -> result B) (b : B) :
  r ≫= f = Ok b -> exists a, r = Ok a /\ f a = Ok b.
Proof. destruct r as [a|]; simpl; [eauto | discriminate]. Qed.

Ltac inv_bind H :=
  let a := fresh "v" in
  let E := fresh "E" in
  apply bind_Ok in H; destruct H as (a & E & H).

Lemma store_Ok {A} (s : list A) k v s' :
  store s k v = Ok s' -> s' = <[k := v]> s /\ (k < length s)%nat.
Proof. unfold store. case_decide; intros [= <-]; auto. Qed.

Lemma index_Ok {A} (s : list A) k a : index s k = Ok a -> s !! k = Some a.
Proof. unfold index. destruct (s !! k); intros [= <-]; auto. Qed.

Lemma index_lookup {A} (s : list A) k a : s !! k = Some a -> index s k = Ok a.
Proof. unfold index. by intros ->. Qed.

(** ** What [Init] builds *)

Lemma Init_sizes_spec ndiv n : forall i o o',
  Init_sizes o ndiv (seq i n) = Ok o' ->
  o' = set_S (set_L o (L o')) (S o') /\
  length (L o') = length (L o) /\ length (S o') = length (S o) /\
  (forall k, (i <= k < i + n)%nat ->
     exists a b, Xi o !! k = Some a /\ Xf o !! k = Some b /\
       L o' !! k = Some (b - a)%float /\
       S o' !! k = Some ((b - a) / float64_of_int ndiv)%float) /\
  (forall k, (k < i)%nat -> L o' !! k = L o !! k /\ S o' !! k = S o !! k).
Proof.
  induction n as [|n IH]; intros i o o' H; simpl in H.
  - injection H as <-. repeat split; try done; [by destruct o | lia].
  - inv_bind H. inv_bind H. inv_bind H. inv_bind H. inv_bind H.
    apply index_Ok in E, E0. apply store_Ok in E1 as [-> Hl].
    simpl in E2. apply index_Ok in E2. rewrite list_lookup_insert_eq in E2 by done.
    injection E2 as <-. apply store_Ok in E3 as [-> Hs]. simpl in Hs.
    apply IH in H as (Ho & HL & HS & Hin & Hlt). simpl in *.
    rewrite length_insert in HL, HS.
    split; [rewrite Ho at 1; done|]. split; [done|]. split; [done|].
    split.
    + intros k Hk. destruct (decide (k = i)) as [->|Hne].
      * exists v0, v. destruct (Hlt i) as [-> ->]; [lia|].
        rewrite !list_lookup_insert_eq by done. done.
      * apply Hin. lia.
    + intros k Hk. destruct (Hlt k) as [-> ->]; [lia|].
      rewrite !list_lookup_insert_ne by lia. done.
Qed.

Lemma Init_counts_spec n : forall i o nbins o' nbins',
  Init_counts o nbins (seq i n) = Ok (o', nbins') ->
  o' = set_N o (N o') /\
  length (N o') = length (N o) /\
  (forall k, (i <= k < i + n)%nat ->
     exists lk sk, L o !! k = Some lk /\ S o !! k = Some sk /\
       N o' !! k = Some (int_add (int_of_float64 (lk / sk)%float) 1)) /\
  (forall k, (k < i)%nat -> N o' !! k = N o !! k) /\
  nbins' = foldl int_mul nbins (take n (drop i (N o'))).
Proof.
  induction n as [|n IH]; intros i o nbins o' nbins' H; simpl in H.
  - injection H as <- <-. repeat split; try done; [by destruct o | lia].
  - inv_bind H. inv_bind H. inv_bind H. inv_bind H.
    apply index_Ok in E, E0. apply store_Ok in E1 as [-> Hl].
    simpl in E2. apply index_Ok in E2. rewrite list_lookup_insert_eq in E2 by done.
    injection E2 as <-.
    apply IH in H as (Ho & HN & Hin & Hlt & Hnb). simpl in *.
    rewrite length_insert in HN.
    split; [rewrite Ho at 1; done|]. split; [done|].
    assert (Hi : N o' !! i = Some (int_add (int_of_float64 (v / v0)) 1)).
    { rewrite Hlt by lia. by rewrite list_lookup_insert_eq. }
    split; [|split].
    + intros k Hk. destruct (decide (k = i)) as [->|Hne].
      * exists v, v0. done.
      * apply Hin. lia.
    + intros k Hk. rewrite Hlt by lia.
      rewrite !list_lookup_insert_ne by lia. done.
    + rewrite Hnb. rewrite (drop_S _ _ _ Hi). simpl. done.
Qed.

Lemma make_Ok_inv {A} (z : A) n l :
  make z n = Ok l -> 0 <= n /\ l = replicate (Z.to_nat n) z.
Proof. unfold make. case_decide; [done|]. intros [= <-]. split; [lia|done]. Qed.

Lemma make_Ok_limit {A} (z : A) n l : make z n = Ok l -> 8 * n <= maxAlloc.
Proof. unfold make. case_decide; [done|]. intros _. lia. Qed.

Lemma Init_Ok_inv o0 xi xf ndiv o :
  Init o0 xi xf ndiv = Ok (o, None) ->
  wf o /\ Xi o = xi /\ Xf o = xf /\
  L o = box_L xi xf /\ S o = box_S (L o) ndiv /\ N o = box_N (L o) (S o) /\
  0 <= nbins_of (N o) /\
  All o = replicate (Z.to_nat (nbins_of (N o))) None /\
  tmp o = replicate (length xi) 0.
Proof.
  unfold Init. case_decide as Hlen; [discriminate|].
  assert (Hxf : length xf = length xi)
    by (destruct (decide (length xi = length xf)); [done|tauto]).
  assert (Hxi : length xi = 2%nat \/ length xi = 3%nat) by lia.
  clear Hlen. intros H. unfold dims in H. simpl in H.
  inv_bind H. apply make_Ok_inv in E as [_ ->].
  inv_bind H. apply make_Ok_inv in E as [_ ->].
  inv_bind H. rename v into o1.
  apply Init_sizes_spec in E as (Ho1 & HL & HS & Hin1 & _).
  simpl in HL, HS, Hin1. rewrite Nat2Z.id, length_replicate in HL, HS.
  rewrite Nat2Z.id in Hin1.
  assert (G1 : Ndim o1 = Z.of_nat (length xi) /\ Xi o1 = xi /\ Xf o1 = xf)
    by (rewrite Ho1; done).
  destruct G1 as (G1a & G1b & G1c).
  unfold dims in H. rewrite G1a, Nat2Z.id in H.
  inv_bind H. apply make_Ok_inv in E as [_ ->].
  inv_bind H. destruct v as [o2 nbins].
  apply Init_counts_spec in E as (Ho2 & HN & Hin2 & _ & Hnb).
  simpl in HN, Hin2. rewrite Nat2Z.id, length_replicate in HN.
  assert (G2 : Ndim o2 = Z.of_nat (length xi) /\ Xi o2 = xi /\ Xf o2 = xf /\
               L o2 = L o1 /\ S o2 = S o1)
    by (rewrite Ho2; done).
  destruct G2 as (G2a & G2b & G2c & G2d & G2e).
  inv_bind H. apply make_Ok_inv in E as [Hpos ->].
  inv_bind H. apply make_Ok_inv in E as [_ ->]. injection H as <-.
  simpl in Hin2.
  assert (EL : L o1 = box_L xi xf).
  { apply list_eq. intros k. unfold box_L. rewrite lookup_zip_with.
    destruct (decide (k < length xi)%nat) as [Hk|Hk].
    - destruct (Hin1 k) as (a & b & -> & -> & -> & _); [lia|]. done.
    - rewrite (lookup_ge_None_2 (L o1)) by lia.
      rewrite (lookup_ge_None_2 xf) by lia. done. }
  assert (ES : S o1 = box_S (L o1) ndiv).
  { apply list_eq. intros k. unfold box_S. rewrite list_lookup_fmap.
    destruct (decide (k < length xi)%nat) as [Hk|Hk].
    - destruct (Hin1 k) as (a & b & _ & _ & -> & ->); [lia|]. done.
    - rewrite (lookup_ge_None_2 (L o1)) by lia.
      rewrite (lookup_ge_None_2 (S o1)) by lia. done. }
  assert (EN : N o2 = box_N (L o1) (S o1)).
  { apply list_eq. intros k. unfold box_N. rewrite lookup_zip_with.
    destruct (decide (k < length xi)%nat) as [Hk|Hk].
    - destruct (Hin2 k) as (a & b & -> & -> & ->); [lia|]. done.
    - rewrite (lookup_ge_None_2 (N o2)) by lia.
      rewrite (lookup_ge_None_2 (L o1)) by lia. done. }
  assert (Enb : nbins = nbins_of (N o2)).
  { rewrite Hnb. unfold nbins_of. rewrite drop_0. rewrite take_ge; [done|]. lia. }
  clear Hnb. subst nbins.
  split; [constructor; simpl; rewrite ?G2a, ?G2b, ?G2c, ?G2d, ?G2e, ?length_replicate; lia|].
  simpl. rewrite ?G2a, ?G2b, ?G2c, ?G2d, ?G2e, ?Nat2Z.id. repeat split; done.
Qed.

(** ** What each operation leaves alone *)

Lemma CalcIdx_cells_frame o x ks o' b :
  CalcIdx_cells o x ks = Ok (o', b) ->
  o' = set_tmp o (tmp o') /\ length (tmp o') = length (tmp o).
Proof.
  revert o. induction ks as [|k ks IH]; intros o H; simpl in H.
  - injection H as <- <-. by destruct o.
  - inv_bind H. inv_bind H.
    destruct (v <? v0)%float. { injection H as <- <-. by destruct o. }
    inv_bind H.
    destruct (v1 <? v)%float. { injection H as <- <-. by destruct o. }
    inv_bind H. inv_bind H.
    apply store_Ok in E3 as [-> Hk].
    apply IH in H as [H1 H2]. simpl in *.
    rewrite H2, length_insert. split; [|done].
    rewrite H1 at 1. done.
Qed.

Lemma CalcIdx_frame o x o' idx :
  CalcIdx o x = Ok (o', idx) ->
  o' = set_tmp o (tmp o') /\ length (tmp o') = length (tmp o).
Proof.
  unfold CalcIdx. intros H. inv_bind H. destruct v as [o1 inside].
  apply CalcIdx_cells_frame in E.
  assert (o' = o1) as ->; [|done].
  destruct inside; [|by injection H].
  repeat inv_bind H. case_decide; repeat inv_bind H; by injection H.
Qed.

Lemma CalcIdx_same_but_tmp o x o' idx :
  CalcIdx o x = Ok (o', idx) -> same_but_tmp o o'.
Proof.
  intros H. apply CalcIdx_frame in H as [-> H]. by repeat split.
Qed.

Lemma FindBinByIndex_nil o idx :
  All o = [] -> FindBinByIndex o idx = (o, None).
Proof.
  intros E. unfold FindBinByIndex. rewrite E. simpl.
  case_decide; [done | lia].
Qed.

(** The three outcomes of [FindBinByIndex]: nil, the bin already in the
    slot, or a bin allocated there. *)
Lemma FindBinByIndex_cases o idx o' bin :
  FindBinByIndex o idx = (o', bin) ->
  (bin = None /\ o' = o /\ (idx < 0 \/ idx >= Z.of_nat (length (All o)))) \/
  (exists b, bin = Some (Z.to_nat idx) /\ o' = o /\ 0 <= idx /\
             All o !! Z.to_nat idx = Some (Some b)) \/
  (bin = Some (Z.to_nat idx) /\ 0 <= idx /\
   All o !! Z.to_nat idx = Some None /\
   o' = set_All o (<[Z.to_nat idx := Some (mkBin idx [])]> (All o))).
Proof.
  unfold FindBinByIndex. case_decide as Hr.
  - intros [= <- <-]. left. done.
  - intros H. right.
    destruct (All o !! Z.to_nat idx) as [[b|]|] eqn:E.
    + injection H as <- <-. left. exists b. repeat split; auto; lia.
    + injection H as <- <-. right. repeat split; auto; lia.
    + apply lookup_ge_None in E. lia.
Qed.

Lemma deref_insert o slot b :
  (slot < length (All o))%nat ->
  deref (set_All o (<[slot := Some b]> (All o))) slot = Some b.
Proof.
  intros H. unfold deref. simpl. by rewrite list_lookup_insert_eq.
Qed.

Lemma entries_at_insert o slot b :
  (slot < length (All o))%nat ->
  entries_at (set_All o (<[slot := Some b]> (All o))) slot = Entries b.
Proof. intros H. unfold entries_at. by rewrite deref_insert. Qed.

Lemma entries_at_insert_ne o slot j b :
  j ≠ slot ->
  entries_at (set_All o (<[slot := b]> (All o))) j = entries_at o j.
Proof.
  intros H. unfold entries_at, deref. simpl.
  by rewrite list_lookup_insert_ne.
Qed.

(** What a successful [Append] did, step by step. *)
Lemma Append_Ok_inv o x id o' :
  Append o x id = Ok (o', None) ->
  exists o1 idx b,
    CalcIdx o x = Ok (o1, idx) /\
    0 <= idx < Z.of_nat (length (All o)) /\
    (All o !! Z.to_nat idx = Some (Some b) \/
     All o !! Z.to_nat idx = Some None /\ b = mkBin idx []) /\
    o' = set_All o1 (<[Z.to_nat idx :=
           Some (mkBin (Idx b) (Entries b ++ [mkBinEntry id x]))]> (All o)).
Proof.
  unfold Append. intros H. inv_bind H. destruct v as [o1 idx].
  pose proof (CalcIdx_frame _ _ _ _ E) as [E1 E2].
  assert (EA : All o1 = All o) by (rewrite E1; done).
  case_decide as Hneg; [discriminate|].
  destruct (FindBinByIndex o1 idx) as [o2 bin] eqn:EF.
  apply FindBinByIndex_cases in EF as
    [(-> & -> & Hr) | [(b & -> & -> & H0 & Hb) | (-> & H0 & Hb & ->)]].
  - discriminate.
  - unfold deref in H. rewrite Hb in H. simpl in H. injection H as <-.
    exists o1, idx, b. rewrite EA in *. split; [done|].
    apply lookup_lt_Some in Hb as Hlt. split; [lia|]. split; [by left|]. done.
  - apply lookup_lt_Some in Hb as Hlt.
    rewrite deref_insert in H by done. simpl in H. injection H as <-.
    exists o1, idx, (mkBin idx []). rewrite EA in *. split; [done|].
    split; [lia|]. split; [by right|].
    unfold set_All. simpl. by rewrite list_insert_insert_eq.
Qed.

(** C10.  Frame property of insertion: a successful [Append] of the point
    [x] under [id] adds exactly one entry, [(id, x)], at the end of the
    entry sequence of the bin [CalcIdx] designates; the geometry ([Ndim],
    [Xi], [Xf], [L], [S], [N]), the size of the table and every other slot
    of the table are unchanged. *)
Theorem Append_frame o x id o' :
  Append o x id = Ok (o', None) ->
  exists o1 idx,
    CalcIdx o x = Ok (o1, idx) /\
    0 <= idx < Z.of_nat (length (All o)) /\
    geometry o' = geometry o /\
    length (All o') = length (All o) /\
    entries_at o' (Z.to_nat idx) =
      entries_at o (Z.to_nat idx) ++ [mkBinEntry id x] /\
    (forall j, j ≠ Z.to_nat idx -> All o' !! j = All o !! j).
Proof.
  intros H. apply Append_Ok_inv in H as (o1 & idx & b & HC & Hr & Hb & ->).
  pose proof (CalcIdx_frame _ _ _ _ HC) as [E1 E2].
  exists o1, idx. split; [done|]. split; [done|].
  assert (Hlt : (Z.to_nat idx < length (All o))%nat) by lia.
  split; [by rewrite E1|]. split; [simpl; by rewrite length_insert|].
  split.
  - unfold entries_at at 1, deref. simpl.
    rewrite list_lookup_insert_eq by done. simpl.
    unfold entries_at, deref.
    destruct Hb as [-> | [-> ->]]; done.
  - intros j Hj. simpl. by rewrite list_lookup_insert_ne.
Qed.

(** [Clear] touches the table only. *)
Lemma Clear_geometry o : geometry (Clear o) = geometry o.
Proof. done. Qed.

(** C1.  [Clear] keeps the geometry, but it replaces the table by one of
    length zero: whatever the grid, the point and the id, an [Append] that
    follows does not succeed (it reports an error, or panics when the point
    has too few coordinates). *)
Theorem Clear_then_Append_fails o x id :
  geometry (Clear o) = geometry o /\
  All (Clear o) = [] /\
  forall o', Append (Clear o) x id ≠ Ok (o', None).
Proof.
  split; [done|]. split; [done|].
  intros o' H. apply Append_Ok_inv in H as (o1 & idx & b & _ & Hr & _).
  simpl in Hr. lia.
Qed.

(** C2.  After [Clear], [Find] at a point whose index is not negative does
    not return: no slot is left in the table, the bin pointer is nil and
    reading its entries panics. *)
Theorem Clear_then_Find_panics o x o1 idx :
  CalcIdx (Clear o) x = Ok (o1, idx) ->
  0 <= idx ->
  Find (Clear o) x = Panic.
Proof.
  intros HC Hidx. unfold Find. rewrite HC. simpl.
  case_decide; [lia|].
  apply CalcIdx_frame in HC as [E1 _].
  rewrite FindBinByIndex_nil; [done|]. rewrite E1. done.
Qed.

(** What a [Find] that returned did to the structure: [CalcIdx] wrote the
    scratch slice and, when the index is not negative, [FindBinByIndex]
    made sure the slot holds a bin. *)
Lemma Find_Ok_inv o x o' id :
  Find o x = Ok (o', id) ->
  exists o1 idx,
    CalcIdx o x = Ok (o1, idx) /\
    (idx < 0 /\ o' = o1 /\ id = -1 \/
     0 <= idx < Z.of_nat (length (All o)) /\
     exists b,
       (All o !! Z.to_nat idx = Some (Some b) /\ o' = o1 \/
        All o !! Z.to_nat idx = Some None /\ b = mkBin idx [] /\
        o' = set_All o1 (<[Z.to_nat idx := Some b]> (All o))) /\
       Find_scan o' x (Entries b) MaxFloat64 (-1) = Ok id).
Proof.
  unfold Find. intros H. inv_bind H. destruct v as [o1 idx].
  pose proof (CalcIdx_frame _ _ _ _ E) as [E1 E2].
  assert (EA : All o1 = All o) by (rewrite E1; done).
  exists o1, idx. split; [done|].
  case_decide as Hneg. { injection H as <- <-. by left. }
  right.
  destruct (FindBinByIndex o1 idx) as [o2 bin] eqn:EF.
  apply FindBinByIndex_cases in EF as
    [(-> & -> & Hr) | [(b & -> & -> & H0 & Hb) | (-> & H0 & Hb & ->)]].
  - discriminate.
  - simpl in H. unfold deref in H. rewrite Hb in H. simpl in H.
    inv_bind H. injection H as <- <-.
    rewrite EA in *. apply lookup_lt_Some in Hb as Hlt.
    split; [lia|]. exists b. split; [by left|done].
  - apply lookup_lt_Some in Hb as Hlt. simpl in H.
    rewrite deref_insert in H by done. simpl in H.
    injection H as <- <-.
    rewrite EA in *. split; [lia|]. exists (mkBin idx []).
    split; [by right|done].
Qed.

(** C6.  What [Find] does to the table of bins: it allocates an empty bin
    in the slot of the query point when that slot is within the table and
    holds none, and nothing else.  The geometry, the size of the table and
    the entries of every cell are the same after the call; a cell holds a
    bin afterwards exactly when it held one before or it is the cell of the
    query point. *)
Theorem Find_bins o x o' id :
  Find o x = Ok (o', id) ->
  exists o1 idx,
    CalcIdx o x = Ok (o1, idx) /\
    geometry o' = geometry o /\
    length (All o') = length (All o) /\
    (forall slot, entries_at o' slot = entries_at o slot) /\
    (forall slot, is_Some (deref o' slot) <->
       is_Some (deref o slot) \/
       0 <= idx < Z.of_nat (length (All o)) /\ slot = Z.to_nat idx).
Proof.
  intros H. apply Find_Ok_inv in H as (o1 & idx & HC & H).
  pose proof (CalcIdx_frame _ _ _ _ HC) as [E1 E2].
  assert (EG : geometry o1 = geometry o) by (by rewrite E1).
  assert (EA : All o1 = All o) by (by rewrite E1).
  assert (ED : forall s, deref o1 s = deref o s)
    by (intros s; unfold deref; by rewrite EA).
  exists o1, idx. split; [done|].
  destruct H as [(Hneg & -> & ->) | (Hr & b & [[Hb ->] | (Hb & -> & ->)] & _)].
  - split; [done|]. split; [by rewrite EA|].
    split; [intros s; unfold entries_at; by rewrite ED|].
    intros s. rewrite ED. split; [by left | intros [?|[? _]]; [done | lia]].
  - split; [done|]. split; [by rewrite EA|].
    split; [intros s; unfold entries_at; by rewrite ED|].
    intros s. rewrite ED. split; [by left|].
    intros [?|[_ ->]]; [done|]. unfold deref. rewrite Hb. by eexists.
  - assert (Hlt : (Z.to_nat idx < length (All o))%nat) by lia.
    split; [done|]. split; [simpl; by rewrite length_insert|].
    split.
    + intros s. unfold entries_at, deref. simpl.
      destruct (decide (s = Z.to_nat idx)) as [->|Hs].
      * rewrite list_lookup_insert_eq by done. by rewrite Hb.
      * by rewrite list_lookup_insert_ne.
    + intros s. unfold deref. simpl.
      destruct (decide (s = Z.to_nat idx)) as [->|Hs].
      * rewrite list_lookup_insert_eq by done. simpl.
        split; [intros _; by right | intros _; by eexists].
      * rewrite list_lookup_insert_ne by done.
        split; [by left | intros [?|[_ ?]]; done].
Qed.

(** ** What [CalcIdx] computes *)

Lemma wf_set_tmp o t : wf o -> length t = length (tmp o) -> wf (set_tmp o t).
Proof. intros [] Ht. constructor; simpl; auto. by rewrite Ht. Qed.

Lemma wf_set_All o a : wf o -> wf (set_All o a).
Proof. intros []. constructor; simpl; auto. Qed.

(** The loop ran to its end: every coordinate passed the range test and
    its cell coordinate is in the scratch slice. *)
Lemma CalcIdx_cells_true x n : forall i o o',
  CalcIdx_cells o x (seq i n) = Ok (o', true) ->
  (forall k, (i <= k < i + n)%nat ->
     exists xk xik xfk c,
       x !! k = Some xk /\ Xi o !! k = Some xik /\ Xf o !! k = Some xfk /\
       outside xk xik xfk = false /\
       cell o x k = Some c /\ tmp o' !! k = Some c) /\
  (forall k, (k < i)%nat -> tmp o' !! k = tmp o !! k).
Proof.
  induction n as [|n IH]; intros i o o' H; simpl in H.
  - injection H as <-. split; [lia|done].
  - inv_bind H. inv_bind H.
    destruct (v <? v0)%float eqn:C1; [discriminate|].
    inv_bind H.
    destruct (v1 <? v)%float eqn:C2; [discriminate|].
    inv_bind H. inv_bind H.
    apply index_Ok in E, E0, E1, E2. apply store_Ok in E3 as [-> Hk].
    apply IH in H as [Hin Hlt]. simpl in *. split.
    + intros k Hk'. destruct (decide (k = i)) as [->|Hne].
      * exists v, v0, v1, (int_of_float64 ((v - v0) / v2)).
        unfold outside, cell. rewrite E, E0, E1, E2, C1, C2. simpl.
        rewrite Hlt by lia. rewrite list_lookup_insert_eq by done. done.
      * destruct (Hin k) as (xk & xik & xfk & c & ?); [lia|].
        exists xk, xik, xfk, c. done.
    + intros k Hk'. rewrite Hlt by lia. by rewrite list_lookup_insert_ne by lia.
Qed.

(** The loop returned -1: some coordinate failed the range test. *)
Lemma CalcIdx_cells_false x n : forall i o o',
  CalcIdx_cells o x (seq i n) = Ok (o', false) ->
  exists k xk xik,
    (i <= k < i + n)%nat /\ x !! k = Some xk /\ Xi o !! k = Some xik /\
    ((xk <? xik)%float = true \/
     exists xfk, Xf o !! k = Some xfk /\ (xfk <? xk)%float = true).
Proof.
  induction n as [|n IH]; intros i o o' H; simpl in H; [discriminate|].
  inv_bind H. inv_bind H. apply index_Ok in E, E0.
  destruct (v <? v0)%float eqn:C1.
  { exists i, v, v0. repeat split; auto; lia. }
  inv_bind H. apply index_Ok in E1.
  destruct (v1 <? v)%float eqn:C2.
  { exists i, v, v0. repeat split; eauto; lia. }
  inv_bind H. inv_bind H.
  apply IH in H as (k & xk & xik & Hk & ? & ? & ?).
  exists k, xk, xik. repeat split; auto; lia.
Qed.

(** With slices long enough, the loop returns -1 as soon as one coordinate
    fails the range test. *)
Lemma CalcIdx_cells_outside x k xk xik xfk n : forall i o,
  (i + n <= length (Xi o))%nat -> (i + n <= length (Xf o))%nat ->
  (i + n <= length (S o))%nat -> (i + n <= length (tmp o))%nat ->
  (i <= k < i + n)%nat ->
  x !! k = Some xk -> Xi o !! k = Some xik -> Xf o !! k = Some xfk ->
  outside xk xik xfk = true ->
  exists o', CalcIdx_cells o x (seq i n) = Ok (o', false).
Proof.
  induction n as [|n IH]; intros i o Hi Hf Hs Ht Hk Hx Hxi Hxf Hout; [lia|].
  simpl.
  destruct (lookup_lt_is_Some_2 x i) as [xi' Ex];
    [apply lookup_lt_Some in Hx; lia|].
  destruct (lookup_lt_is_Some_2 (Xi o) i) as [a Ea]; [lia|].
  destruct (lookup_lt_is_Some_2 (Xf o) i) as [b Eb]; [lia|].
  destruct (lookup_lt_is_Some_2 (S o) i) as [s Es]; [lia|].
  rewrite (index_lookup _ _ _ Ex), (index_lookup _ _ _ Ea). simpl.
  destruct (xi' <? a)%float eqn:C1; [eauto|].
  rewrite (index_lookup _ _ _ Eb). simpl.
  destruct (b <? xi')%float eqn:C2; [eauto|].
  rewrite (index_lookup _ _ _ Es). simpl.
  unfold store. case_decide; [|lia]. simpl.
  assert (k ≠ i).
  { intros ->. simplify_eq. unfold outside in Hout.
    rewrite C1, C2 in Hout. done. }
  apply IH; simpl; rewrite ?length_insert; auto; lia.
Qed.

(** With slices long enough, the loop runs to its end on a point that
    passes the range test everywhere. *)
Lemma CalcIdx_cells_inside x n : forall i o,
  (i + n <= length (Xi o))%nat -> (i + n <= length (Xf o))%nat ->
  (i + n <= length (S o))%nat -> (i + n <= length (tmp o))%nat ->
  (forall k, (i <= k < i + n)%nat ->
     exists xk xik xfk, x !! k = Some xk /\ Xi o !! k = Some xik /\
       Xf o !! k = Some xfk /\ outside xk xik xfk = false) ->
  exists o', CalcIdx_cells o x (seq i n) = Ok (o', true).
Proof.
  induction n as [|n IH]; intros i o Hi Hf Hs Ht Hin; simpl; [eauto|].
  destruct (Hin i) as (xk & xik & xfk & Ex & Ea & Eb & Hout); [lia|].
  destruct (lookup_lt_is_Some_2 (S o) i) as [s Es]; [lia|].
  unfold outside in Hout. apply orb_false_iff in Hout as [C1 C2].
  rewrite (index_lookup _ _ _ Ex), (index_lookup _ _ _ Ea). simpl.
  rewrite C1. rewrite (index_lookup _ _ _ Eb). simpl. rewrite C2.
  rewrite (index_lookup _ _ _ Es). simpl.
  unfold store. case_decide; [|lia]. simpl.
  apply IH; simpl; rewrite ?length_insert; auto; try lia.
  intros k Hk. apply Hin. lia.
Qed.

(** [in_box], coordinate by coordinate. *)
Lemma in_box_true o x :
  in_box o x = true <->
  forall k, (k < Z.to_nat (Ndim o))%nat ->
    exists xk xik xfk, x !! k = Some xk /\ Xi o !! k = Some xik /\
      Xf o !! k = Some xfk /\ outside xk xik xfk = false.
Proof.
  unfold in_box, dims. rewrite forallb_forall. split.
  - intros H k Hk. specialize (H k).
    destruct (x !! k) as [xk|], (Xi o !! k) as [xik|], (Xf o !! k) as [xfk|];
      try (discriminate H; apply in_seq; lia).
    exists xk, xik, xfk. repeat split; auto.
    apply negb_true_iff, H, in_seq. lia.
  - intros H k Hk. apply in_seq in Hk.
    destruct (H k) as (xk & xik & xfk & -> & -> & -> & ->); [lia|]. done.
Qed.

Lemma wf_lengths o :
  wf o ->
  (2 <= Z.to_nat (Ndim o))%nat /\
  length (Xi o) = Z.to_nat (Ndim o) /\ length (Xf o) = Z.to_nat (Ndim o) /\
  length (S o) = Z.to_nat (Ndim o) /\ length (N o) = Z.to_nat (Ndim o) /\
  length (tmp o) = Z.to_nat (Ndim o).
Proof. intros []. lia. Qed.

(** A point that fails the range test in some dimension: [CalcIdx] returns
    -1. *)
Lemma CalcIdx_outside o x k xk xik xfk :
  wf o ->
  x !! k = Some xk -> Xi o !! k = Some xik -> Xf o !! k = Some xfk ->
  outside xk xik xfk = true ->
  exists o', CalcIdx o x = Ok (o', -1).
Proof.
  intros Hwf Hx Hxi Hxf Hout.
  destruct (wf_lengths o Hwf) as (Hn & Li & Lf & Ls & Ln & Lt).
  apply lookup_lt_Some in Hxi as Hk.
  destruct (CalcIdx_cells_outside x k xk xik xfk (Z.to_nat (Ndim o)) 0%nat o)
    as [o' E]; try lia; auto.
  exists o'. unfold CalcIdx, dims. rewrite E. done.
Qed.

(** What [CalcIdx] returned: the flat index of a point that passes the
    range test, -1 for a point that fails it. *)
Lemma CalcIdx_Ok_inv o x o' idx :
  wf o ->
  CalcIdx o x = Ok (o', idx) ->
  in_box o x = true /\ flat_index o x = Some idx \/
  in_box o x = false /\ idx = -1.
Proof.
  intros Hwf H.
  destruct (wf_lengths o Hwf) as (Hn & Li & Lf & Ls & Ln & Lt).
  unfold CalcIdx, dims in H. inv_bind H. destruct v as [o1 inside].
  pose proof (CalcIdx_cells_frame _ _ _ _ _ E) as [E1 E2].
  destruct inside.
  - left. apply CalcIdx_cells_true in E as [Hin _].
    split.
    { apply in_box_true. intros k Hk.
      destruct (Hin k) as (xk & xik & xfk & c & ?); [lia|].
      exists xk, xik, xfk. tauto. }
    assert (Hc : forall k, (k < Z.to_nat (Ndim o))%nat ->
              exists c, cell o x k = Some c /\ index (tmp o1) k = Ok c).
    { intros k Hk. destruct (Hin k) as (_ & _ & _ & c & _ & _ & _ & _ & Hc & Ht);
        [lia|]. exists c. split; [done|]. by apply index_lookup. }
    assert (EN : N o1 = N o) by (by rewrite E1).
    assert (ED : Ndim o1 = Ndim o) by (by rewrite E1).
    destruct (Hc 0%nat) as (c0 & Hc0 & I0); [lia|].
    destruct (Hc 1%nat) as (c1 & Hc1 & I1); [lia|].
    rewrite I0, I1, EN, ED in H. simpl in H.
    inv_bind H. apply index_Ok in E. unfold flat_index.
    rewrite Hc0, Hc1, E. simpl.
    case_decide as Hd.
    + destruct (Hc 2%nat) as (c2 & Hc2 & I2); [lia|].
      rewrite I2 in H. simpl in H. inv_bind H. inv_bind H.
      apply index_Ok in E0, E3. rewrite E in E0. injection E0 as <-.
      rewrite Hc2, E3. simpl. by injection H as <- <-.
    + by injection H as <- <-.
  - injection H as <- <-. right. split; [|done].
    apply CalcIdx_cells_false in E as (k & xk & xik & Hk & Ex & Ea & Hout).
    destruct (in_box o x) eqn:Hb; [|done].
    destruct (proj1 (in_box_true o x) Hb k) as (xk' & xik' & xfk' & Ex' & Ea' & Eb' & Ho);
      [lia|].
    simplify_eq. unfold outside in Ho. apply orb_false_iff in Ho as [C1 C2].
    destruct Hout as [C|(xfk & Eb & C)]; simplify_eq; congruence.
Qed.

(** A point that passes the range test: [CalcIdx] returns its flat
    index. *)
Lemma CalcIdx_in_box o x :
  wf o -> in_box o x = true ->
  exists o' idx, CalcIdx o x = Ok (o', idx) /\ flat_index o x = Some idx.
Proof.
  intros Hwf Hb.
  destruct (wf_lengths o Hwf) as (Hn & Li & Lf & Ls & Ln & Lt).
  destruct (CalcIdx_cells_inside x (Z.to_nat (Ndim o)) 0%nat o) as [o1 E];
    try lia.
  { intros k Hk. apply (proj1 (in_box_true o x) Hb). lia. }
  assert (exists r, CalcIdx o x = Ok r) as [[o' idx] Hr].
  { unfold CalcIdx, dims. rewrite E. simpl.
    pose proof (CalcIdx_cells_frame _ _ _ _ _ E) as [E1 E2].
    assert (EN : N o1 = N o) by (by rewrite E1).
    assert (ED : Ndim o1 = Ndim o) by (by rewrite E1).
    destruct (lookup_lt_is_Some_2 (tmp o1) 0%nat) as [t0 I0]; [lia|].
    destruct (lookup_lt_is_Some_2 (tmp o1) 1%nat) as [t1 I1]; [lia|].
    destruct (lookup_lt_is_Some_2 (N o) 0%nat) as [n0 J0]; [lia|].
    destruct (lookup_lt_is_Some_2 (N o) 1%nat) as [n1 J1]; [lia|].
    rewrite (index_lookup _ _ _ I0), (index_lookup _ _ _ I1), EN, ED. simpl.
    rewrite (index_lookup _ _ _ J0). simpl.
    case_decide; [|eauto].
    destruct (lookup_lt_is_Some_2 (tmp o1) 2%nat) as [t2 I2]; [lia|].
    rewrite (index_lookup _ _ _ I2). simpl.
    rewrite (index_lookup _ _ _ J1). simpl. eauto. }
  exists o', idx. split; [done|].
  destruct (CalcIdx_Ok_inv _ _ _ _ Hwf Hr) as [[_ ?]|[? _]]; [done|congruence].
Qed.

(** ** The order of binary64 values *)

Lemma SFltb_key x y :
  SF_is_nan x = false -> SF_is_nan y = false ->
  (SFltb x y = true <-> key_lt (order_key x) (order_key y)).
Proof.
  unfold SFltb.
  destruct x as [sx|sx| |sx mx ex], y as [sy|sy| |sy my ey];
    try discriminate; intros _ _; simpl;
    try destruct sx; try destruct sy; simpl;
    try (split; [discriminate | lia]);
    try (split; [lia | done]);
    change (Pos.compare_cont Eq mx my) with (Pos.compare mx my);
    destruct (Z.compare_spec ex ey); simpl;
    destruct (Pos.compare_spec mx my); simpl;
    (split; [try discriminate; lia | try done; lia]).
Qed.

Lemma ltb_key x y :
  is_NaN x = false -> is_NaN y = false ->
  ((x <? y)%float = true <->
   key_lt (order_key (Prim2SF x)) (order_key (Prim2SF y))).
Proof.
  unfold is_NaN. intros Hx Hy. rewrite ltb_spec. apply SFltb_key.
  - by destruct (Prim2SF x).
  - by destruct (Prim2SF y).
Qed.

(** A comparison that holds involves no NaN. *)
Lemma ltb_not_NaN x y :
  (x <? y)%float = true -> is_NaN x = false /\ is_NaN y = false.
Proof.
  rewrite ltb_spec. unfold SFltb, is_NaN.
  destruct (Prim2SF x), (Prim2SF y); simpl; try discriminate; done.
Qed.

Lemma key_lt_irrefl a : ~ key_lt a a.
Proof. destruct a as [[a1 a2] a3]. unfold key_lt. lia. Qed.

Lemma key_lt_trans a b c : key_lt a b -> key_lt b c -> key_lt a c.
Proof.
  destruct a as [[a1 a2] a3], b as [[b1 b2] b3], c as [[c1 c2] c3].
  unfold key_lt. lia.
Qed.

Lemma key_lt_total a b : key_lt a b \/ a = b \/ key_lt b a.
Proof.
  destruct a as [[a1 a2] a3], b as [[b1 b2] b3]. unfold key_lt.
  destruct (Z.lt_trichotomy a1 b1) as [?|[->|?]]; [lia| |lia].
  destruct (Z.lt_trichotomy a2 b2) as [?|[->|?]]; [lia| |lia].
  destruct (Z.lt_trichotomy a3 b3) as [?|[->|?]]; [lia| |lia].
  auto.
Qed.

Lemma ltb_irrefl x : (x <? x)%float = false.
Proof.
  destruct (x <? x)%float eqn:E; [|done].
  destruct (ltb_not_NaN _ _ E) as [Hx _].
  apply ltb_key in E; auto. by apply key_lt_irrefl in E.
Qed.

Lemma ltb_asym x y : (x <? y)%float = true -> (y <? x)%float = false.
Proof.
  intros E. destruct (ltb_not_NaN _ _ E) as [Hx Hy].
  destruct (y <? x)%float eqn:E'; [|done].
  apply ltb_key in E, E'; auto.
  destruct (key_lt_irrefl _ (key_lt_trans _ _ _ E E')).
Qed.

Lemma ltb_trans x y z :
  (x <? y)%float = true -> (y <? z)%float = true -> (x <? z)%float = true.
Proof.
  intros E1 E2. destruct (ltb_not_NaN _ _ E1) as [Hx Hy].
  destruct (ltb_not_NaN _ _ E2) as [_ Hz].
  apply ltb_key in E1, E2; auto. apply ltb_key; auto.
  by apply (key_lt_trans _ _ _ E1 E2).
Qed.

(** [x < m] and not [c < m], with [c] a number: [x < c]. *)
Lemma ltb_nlt_trans x m c :
  (x <? m)%float = true -> (c <? m)%float = false -> is_NaN c = false ->
  (x <? c)%float = true.
Proof.
  intros E1 E2 Hc. destruct (ltb_not_NaN _ _ E1) as [Hx Hm].
  apply ltb_key in E1; auto. apply ltb_key; auto.
  destruct (key_lt_total (order_key (Prim2SF c)) (order_key (Prim2SF m)))
    as [H|[H|H]].
  - apply ltb_key in H; auto. congruence.
  - by rewrite H.
  - by apply (key_lt_trans _ _ _ E1 H).
Qed.

Lemma SFleb_key x y :
  SF_is_nan x = false -> SF_is_nan y = false ->
  ~ key_lt (order_key y) (order_key x) -> SFleb x y = true.
Proof.
  unfold SFleb.
  destruct x as [sx|sx| |sx mx ex], y as [sy|sy| |sy my ey];
    try discriminate; intros _ _; simpl;
    try destruct sx; try destruct sy; simpl; try done;
    try (intros H; exfalso; apply H; lia);
    change (Pos.compare_cont Eq mx my) with (Pos.compare mx my);
    destruct (Z.compare_spec ex ey); simpl; try done;
    try (intros H'; exfalso; apply H'; lia);
    destruct (Pos.compare_spec mx my); simpl; try done;
    intros H'; exfalso; apply H'; lia.
Qed.

(** Between numbers, not [x < a] is [a <= x]. *)
Lemma ltb_false_leb x a :
  (x <? a)%float = false -> is_NaN x = false -> is_NaN a = false ->
  (a <=? x)%float = true.
Proof.
  intros E Hx Ha. rewrite leb_spec. unfold is_NaN in *.
  apply SFleb_key.
  - by destruct (Prim2SF a).
  - by destruct (Prim2SF x).
  - intros H. apply ltb_key in H; auto. congruence.
Qed.

(** ** Invariants of the reachable states *)

(** The cells after an [Append] that succeeded: the entry is at the end of
    the cell of the point, the others hold what they held. *)
Lemma Append_Ok_entries o x id o' :
  Append o x id = Ok (o', None) ->
  exists o1 idx,
    CalcIdx o x = Ok (o1, idx) /\
    0 <= idx < Z.of_nat (length (All o)) /\
    geometry o' = geometry o /\
    length (All o') = length (All o) /\
    forall slot, entries_at o' slot =
      if decide (slot = Z.to_nat idx)
      then entries_at o slot ++ [mkBinEntry id x]
      else entries_at o slot.
Proof.
  intros H. apply Append_Ok_inv in H as (o1 & idx & b & HC & Hr & Hb & ->).
  pose proof (CalcIdx_frame _ _ _ _ HC) as [E1 E2].
  exists o1, idx. split; [done|]. split; [done|].
  assert (Hlt : (Z.to_nat idx < length (All o))%nat) by lia.
  split; [by rewrite E1|]. split; [simpl; by rewrite length_insert|].
  intros slot. unfold entries_at, deref. simpl. case_decide as Hs.
  - subst slot. rewrite list_lookup_insert_eq by done. simpl.
    destruct Hb as [-> | [-> ->]]; done.
  - by rewrite list_lookup_insert_ne.
Qed.

(** The cells after a [Find] that returned hold what they held. *)
Lemma Find_Ok_entries o x o' id :
  Find o x = Ok (o', id) ->
  geometry o' = geometry o /\
  length (All o') = length (All o) /\
  forall slot, entries_at o' slot = entries_at o slot.
Proof.
  intros H. apply Find_Ok_inv in H as (o1 & idx & HC & H).
  pose proof (CalcIdx_frame _ _ _ _ HC) as [E1 E2].
  assert (EG : geometry o1 = geometry o) by (by rewrite E1).
  assert (EA : All o1 = All o) by (by rewrite E1).
  destruct H as [(Hneg & -> & ->) | (Hr & b & [[Hb ->] | (Hb & -> & ->)] & _)].
  - split; [done|]. split; [by rewrite EA|].
    intros s. unfold entries_at, deref. by rewrite EA.
  - split; [done|]. split; [by rewrite EA|].
    intros s. unfold entries_at, deref. by rewrite EA.
  - assert (Hlt : (Z.to_nat idx < length (All o))%nat) by lia.
    split; [done|]. split; [simpl; by rewrite length_insert|].
    intros s. unfold entries_at, deref. simpl.
    destruct (decide (s = Z.to_nat idx)) as [->|Hs].
    + rewrite list_lookup_insert_eq by done. by rewrite Hb.
    + by rewrite list_lookup_insert_ne.
Qed.

Lemma wf_same_but_tmp o o' : wf o -> same_but_tmp o o' -> wf o'.
Proof.
  intros [] (Hg & _ & Ht). unfold geometry in Hg. simplify_eq.
  constructor; congruence.
Qed.

Lemma in_box_geometry o o' x :
  geometry o' = geometry o -> in_box o' x = in_box o x.
Proof.
  unfold geometry, in_box, dims. intros Hg.
  assert (E1 : Ndim o' = Ndim o) by congruence.
  assert (E2 : Xi o' = Xi o) by congruence.
  assert (E3 : Xf o' = Xf o) by congruence.
  by rewrite E1, E2, E3.
Qed.

(** A call of [Append] that reports an error wrote the scratch slice at
    most. *)
Lemma Append_error_inv o x id o' err :
  Append o x id = Ok (o', Some err) -> same_but_tmp o o'.
Proof.
  unfold Append. intros H. inv_bind H. destruct v as [o1 idx].
  apply CalcIdx_same_but_tmp in E.
  case_decide; [by injection H as <- _|].
  destruct (FindBinByIndex o1 idx) as [o2 bin] eqn:EF.
  apply FindBinByIndex_cases in EF as
    [(-> & -> & Hr) | [(b & -> & -> & Hpos & Hb) | (-> & Hpos & Hb & ->)]].
  - by injection H as <- _.
  - unfold deref in H. rewrite Hb in H. discriminate.
  - apply lookup_lt_Some in Hb. rewrite deref_insert in H by done. discriminate.
Qed.

Lemma Append_wf o x id o' e :
  wf o -> Append o x id = Ok (o', e) -> wf o'.
Proof.
  intros Hwf H. destruct e as [err|].
  - eapply wf_same_but_tmp; [done|]. by eapply Append_error_inv.
  - apply Append_Ok_inv in H as (o1 & idx & b & HC & _ & _ & ->).
    apply wf_set_All. eapply wf_same_but_tmp; [done|].
    by eapply CalcIdx_same_but_tmp.
Qed.

Lemma Find_wf o x o' id : wf o -> Find o x = Ok (o', id) -> wf o'.
Proof.
  intros Hwf H. apply Find_Ok_inv in H as (o1 & idx & HC & H).
  assert (wf o1)
    by (eapply wf_same_but_tmp; [done|]; by eapply CalcIdx_same_but_tmp).
  destruct H as [(_ & -> & _) | (_ & b & [[_ ->] | (_ & _ & ->)] & _)];
    auto using wf_set_All.
Qed.

Lemma reachable_wf o : reachable o -> wf o.
Proof.
  induction 1 as [o0 xi xf ndiv o H | o x id o' e _ IH H | o x o' id _ IH H | o _ IH].
  - by apply Init_Ok_inv in H as [? _].
  - by eapply Append_wf.
  - by eapply Find_wf.
  - by apply wf_set_All.
Qed.

Lemma entries_at_replicate_None o n slot :
  All o = replicate n None -> entries_at o slot = [].
Proof.
  intros E. unfold entries_at, deref. rewrite E.
  destruct (replicate n None !! slot) as [b|] eqn:Hb; [|done].
  apply lookup_replicate in Hb as [-> _]. done.
Qed.

(** Every entry in a bin passed the range test of [CalcIdx] when it was
    inserted. *)
Lemma reachable_entries_in_box o :
  reachable o ->
  forall slot e, e ∈ entries_at o slot -> in_box o (X e) = true.
Proof.
  induction 1 as [o0 xi xf ndiv o H | o x id o' e Hr IH H | o x o' id _ IH H | o _ IH];
    intros slot en Hen.
  - apply Init_Ok_inv in H as (_ & _ & _ & _ & _ & _ & _ & HA & _).
    rewrite (entries_at_replicate_None _ _ _ HA) in Hen. by apply elem_of_nil in Hen.
  - destruct e as [err|].
    + apply Append_error_inv in H as (Hg & HA & _).
      rewrite (in_box_geometry _ _ _ Hg). apply (IH slot).
      unfold entries_at, deref in *. by rewrite HA in Hen.
    + pose proof (reachable_wf _ Hr) as Hwf.
      apply Append_Ok_entries in H as (o1 & idx & HC & Hidx & Hg & _ & Hslot).
      rewrite (in_box_geometry _ _ _ Hg). rewrite Hslot in Hen.
      case_decide as Hs; [|by apply (IH slot)].
      apply elem_of_app in Hen as [Hen|Hen]; [by eapply IH|].
      apply list_elem_of_singleton in Hen as ->. simpl.
      destruct (CalcIdx_Ok_inv _ _ _ _ Hwf HC) as [[? _]|[_ ?]]; [done|lia].
  - apply Find_Ok_entries in H as (Hg & _ & He).
    rewrite (in_box_geometry _ _ _ Hg). apply (IH slot). by rewrite <- He.
  - unfold entries_at, deref in Hen. simpl in Hen.
    by apply elem_of_nil in Hen.
Qed.

(** ** The scratch slice does not matter *)

Lemma same_but_tmp_sym o o' : same_but_tmp o o' -> same_but_tmp o' o.
Proof. intros (? & ? & ?). by repeat split. Qed.

Lemma same_but_tmp_trans o1 o2 o3 :
  same_but_tmp o1 o2 -> same_but_tmp o2 o3 -> same_but_tmp o1 o3.
Proof. intros (? & ? & ?) (? & ? & ?). repeat split; congruence. Qed.

Lemma same_but_tmp_eq o o' :
  same_but_tmp o o' -> o' = set_tmp o (tmp o').
Proof.
  destruct o, o'. unfold same_but_tmp, geometry, set_tmp. simpl.
  intros (? & ? & _). congruence.
Qed.

Lemma flat_index_geometry o o' x :
  geometry o' = geometry o -> flat_index o' x = flat_index o x.
Proof.
  unfold geometry, flat_index, cell. intros Hg.
  assert (E1 : Ndim o' = Ndim o) by congruence.
  assert (E2 : Xi o' = Xi o) by congruence.
  assert (E3 : S o' = S o) by congruence.
  assert (E4 : N o' = N o) by congruence.
  by rewrite E1, E2, E3, E4.
Qed.

(** A point that fails the range test, as [CalcIdx] found it. *)
Lemma CalcIdx_Ok_outside o x o' idx :
  wf o -> CalcIdx o x = Ok (o', idx) -> in_box o x = false ->
  exists k xk xik xfk,
    x !! k = Some xk /\ Xi o !! k = Some xik /\ Xf o !! k = Some xfk /\
    outside xk xik xfk = true.
Proof.
  intros Hwf H Hb.
  destruct (wf_lengths o Hwf) as (Hn & Li & Lf & Ls & Ln & Lt).
  unfold CalcIdx, dims in H. inv_bind H. destruct v as [o1 inside].
  destruct inside.
  - apply CalcIdx_cells_true in E as [Hin _].
    assert (in_box o x = true); [|congruence].
    apply in_box_true. intros k Hk.
    destruct (Hin k) as (xk & xik & xfk & c & ?); [lia|].
    exists xk, xik, xfk. tauto.
  - apply CalcIdx_cells_false in E as (k & xk & xik & Hk & Ex & Ea & Hout).
    destruct (lookup_lt_is_Some_2 (Xf o) k) as [xfk Eb]; [lia|].
    exists k, xk, xik, xfk. repeat split; auto. unfold outside.
    destruct Hout as [->|(xfk' & Eb' & C)]; [done|].
    simplify_eq. rewrite C. apply orb_true_r.
Qed.

Lemma CalcIdx_same o o' x o1 idx :
  wf o -> same_but_tmp o o' ->
  CalcIdx o x = Ok (o1, idx) ->
  exists o1', CalcIdx o' x = Ok (o1', idx) /\ same_but_tmp o1 o1'.
Proof.
  intros Hwf Hs H.
  pose proof (wf_same_but_tmp _ _ Hwf Hs) as Hwf'.
  destruct Hs as (Hg & HA & Ht).
  assert (exists o1', CalcIdx o' x = Ok (o1', idx)) as [o1' H'].
  { destruct (CalcIdx_Ok_inv _ _ _ _ Hwf H) as [[Hb Hf]|[Hb ->]].
    - destruct (CalcIdx_in_box o' x Hwf') as (o1' & idx' & H' & Hf').
      { by rewrite (in_box_geometry _ _ _ Hg). }
      rewrite (flat_index_geometry _ _ _ Hg) in Hf'. simplify_eq. eauto.
    - destruct (CalcIdx_Ok_outside _ _ _ _ Hwf H Hb)
        as (k & xk & xik & xfk & Ex & Ea & Eb & Hout).
      apply (CalcIdx_outside o' x k xk xik xfk); auto.
      + replace (Xi o') with (Xi o); [done|]. unfold geometry in Hg. congruence.
      + replace (Xf o') with (Xf o); [done|]. unfold geometry in Hg. congruence. }
  exists o1'. split; [done|].
  apply CalcIdx_same_but_tmp in H, H'.
  eapply same_but_tmp_trans; [by apply same_but_tmp_sym|].
  eapply same_but_tmp_trans; [|done]. by repeat split.
Qed.

Lemma Find_scan_Ndim o o' x es : forall dmin id,
  Ndim o' = Ndim o -> Find_scan o' x es dmin id = Find_scan o x es dmin id.
Proof.
  induction es as [|e es IH]; intros dmin id E; simpl; [done|].
  unfold dims. rewrite E.
  destruct (Find_dist x (X e) (seq 0 (Z.to_nat (Ndim o))) 0); simpl; [|done].
  destruct (a <? dmin)%float; by rewrite IH.
Qed.

Lemma Find_scan_Ndim_Ok o o' x es dmin id r :
  Find_scan o x es dmin id = Ok r -> Ndim o' = Ndim o ->
  Find_scan o' x es dmin id = Ok r.
Proof. intros H E. by rewrite (Find_scan_Ndim o o'). Qed.

(** [Find] returns the same id whatever the scratch slice holds. *)
Lemma Find_same o o' x o1 id :
  wf o -> same_but_tmp o o' ->
  Find o x = Ok (o1, id) ->
  exists o1', Find o' x = Ok (o1', id).
Proof.
  intros Hwf Hs H. unfold Find in *. inv_bind H. destruct v as [oa idx].
  destruct (CalcIdx_same _ _ _ _ _ Hwf Hs E) as (oa' & -> & Hsa).
  simpl. case_decide; [injection H as _ <-; eauto|].
  apply same_but_tmp_eq in Hsa. rewrite Hsa. destruct oa as [nd xi xf l s n a t].
  unfold FindBinByIndex, deref in *. simpl in *.
  case_decide as Hr; [discriminate|].
  destruct (a !! Z.to_nat idx) as [[b|]|] eqn:Ea; simpl in *.
  - rewrite Ea in *. simpl in *.
    inv_bind H. injection H as _ <-.
    erewrite (Find_scan_Ndim_Ok _ _ _ _ _ _ _ E0) by done. simpl. eauto.
  - rewrite list_lookup_insert_eq in * by lia. simpl in *.
    injection H as _ <-. eauto.
  - rewrite Ea in H. discriminate.
Qed.

Section SegmentFrame.

Variable DistPointLine : Point -> Point -> Point -> float -> bool -> float.
Variable IsPointIn : Point -> list float -> list float -> float -> bool.

Lemma select_bins_set_tmp o t pi pf tol btol nxy bins : forall idx z sbins,
  select_bins DistPointLine (set_tmp o t) pi pf tol btol nxy idx bins z sbins =
  select_bins DistPointLine o pi pf tol btol nxy idx bins z sbins.
Proof.
  induction bins as [|[b|] bins IH]; intros idx z sbins; simpl; [done| |done].
  change (bin_center (set_tmp o t)) with (bin_center o).
  destruct (bin_center o nxy (Z.of_nat idx) z); simpl; [|done].
  apply IH.
Qed.

Lemma scan_entries_set_tmp o t pi pf xi xf tol es : forall z ids,
  scan_entries DistPointLine IsPointIn (set_tmp o t) pi pf xi xf tol es z ids =
  scan_entries DistPointLine IsPointIn o pi pf xi xf tol es z ids.
Proof.
  induction es as [|e es IH]; intros z ids; simpl; [done|].
  change (entry_point (set_tmp o t)) with (entry_point o).
  destruct (entry_point o e z); simpl; [|done].
  apply IH.
Qed.

Lemma scan_bins_set_tmp o t pi pf xi xf tol sbins : forall z ids,
  scan_bins DistPointLine IsPointIn (set_tmp o t) pi pf xi xf tol sbins z ids =
  scan_bins DistPointLine IsPointIn o pi pf xi xf tol sbins z ids.
Proof.
  induction sbins as [|b sbins IH]; intros z ids; simpl; [done|].
  rewrite scan_entries_set_tmp.
  destruct (scan_entries _ _ o pi pf xi xf tol (Entries b) z ids) as [[ids' z']|];
    simpl; [|done].
  apply IH.
Qed.

(** [FindAlongSegment] does not read the scratch slice. *)
Lemma FindAlongSegment_set_tmp o t xi xf tol :
  FindAlongSegment DistPointLine IsPointIn (set_tmp o t) xi xf tol =
  FindAlongSegment DistPointLine IsPointIn o xi xf tol.
Proof.
  unfold FindAlongSegment.
  change (bin_tolerance (set_tmp o t)) with (bin_tolerance o).
  change (segment_ends (set_tmp o t)) with (segment_ends o).
  destruct (bin_tolerance o) as [btol|]; simpl; [|done].
  destruct (segment_ends o xi xf) as [[[[pi pf] xi'] xf']|]; simpl; [|done].
  destruct (index (N o) 0) as [n0|]; simpl; [|done].
  destruct (index (N o) 1) as [n1|]; simpl; [|done].
  rewrite select_bins_set_tmp.
  destruct (select_bins _ o pi pf tol btol (int_mul n0 n1) 0 (All o) 0 [])
    as [[sbins z]|]; simpl; [|done].
  apply scan_bins_set_tmp.
Qed.

Lemma FindAlongSegment_same o o' xi xf tol :
  same_but_tmp o o' ->
  FindAlongSegment DistPointLine IsPointIn o' xi xf tol =
  FindAlongSegment DistPointLine IsPointIn o xi xf tol.
Proof.
  intros H. rewrite (same_but_tmp_eq _ _ H). apply FindAlongSegment_set_tmp.
Qed.

End SegmentFrame.

(** C8.  On a grid built by [Init] and any calls since, [Append] of a point
    with a coordinate [xk < Xi[k]] or [xk > Xf[k]] reports the out-of-range
    error; the geometry and the table of bins are as before the call (the
    scratch slice aside), so no entry is stored and [Find] and
    [FindAlongSegment] answer as they did before.  Every entry in a bin
    passed the range test, neither [x[k] < Xi[k]] nor [x[k] > Xf[k]], which
    between numbers is [Xi[k] <= x[k] <= Xf[k]]. *)
Theorem Append_out_of_range o x id k xk xik xfk :
  reachable o ->
  x !! k = Some xk -> Xi o !! k = Some xik -> Xf o !! k = Some xfk ->
  outside xk xik xfk = true ->
  exists o',
    Append o x id = Ok (o', Some (ErrPointOutOfRange x)) /\
    geometry o' = geometry o /\ All o' = All o /\
    (forall q r, (exists o1, Find o' q = Ok (o1, r)) <->
                 (exists o1, Find o q = Ok (o1, r))) /\
    (forall D I xi xf tol,
       FindAlongSegment D I o' xi xf tol = FindAlongSegment D I o xi xf tol) /\
    (forall slot e j ej xij xfj,
       e ∈ entries_at o' slot ->
       X e !! j = Some ej -> Xi o !! j = Some xij -> Xf o !! j = Some xfj ->
       outside ej xij xfj = false /\
       (is_NaN ej = false -> is_NaN xij = false -> is_NaN xfj = false ->
        (xij <=? ej)%float = true /\ (ej <=? xfj)%float = true)).
Proof.
  intros Hr Hx Hxi Hxf Hout.
  pose proof (reachable_wf _ Hr) as Hwf.
  destruct (CalcIdx_outside o x k xk xik xfk Hwf Hx Hxi Hxf Hout) as [o' HC].
  assert (HA : Append o x id = Ok (o', Some (ErrPointOutOfRange x))).
  { unfold Append. rewrite HC. done. }
  pose proof (Append_error_inv _ _ _ _ _ HA) as Hs.
  pose proof (wf_same_but_tmp _ _ Hwf Hs) as Hwf'.
  exists o'. split; [done|].
  destruct Hs as (Hg & HAll & Ht). split; [done|]. split; [done|].
  assert (Hs : same_but_tmp o o') by (by repeat split).
  split; [|split].
  - intros q r. split; intros [o1 H].
    + eapply Find_same; [apply Hwf'|by apply same_but_tmp_sym|apply H].
    + eapply Find_same; [apply Hwf|apply Hs|apply H].
  - intros D I xi xf tol. by apply FindAlongSegment_same.
  - intros slot e j ej xij xfj He Hej Hxij Hxfj.
    assert (Hb : in_box o' (X e) = true).
    { eapply reachable_entries_in_box; [|done]. by eapply reach_Append. }
    rewrite (in_box_geometry _ _ _ Hg) in Hb.
    apply lookup_lt_Some in Hxij as Hj.
    destruct (wf_lengths o Hwf) as (_ & Li & _).
    destruct (proj1 (in_box_true o (X e)) Hb j) as (a & b & c & ? & ? & ? & Ho);
      [lia|].
    simplify_eq. split; [done|].
    unfold outside in Ho. apply orb_false_iff in Ho as [C1 C2].
    intros N1 N2 N3. split; by apply ltb_false_leb.
Qed.

(** ** The scan of [Find] *)

(** The scan over numbers (no distance is NaN): either no entry is closer
    than [dmin] and the id is the one the scan started with, or the scan
    returns the first of the entries at the least distance. *)
Lemma Find_scan_spec o x es : forall dmin id0,
  (forall e, e ∈ es -> exists d, sqdist o x e = Ok d /\ is_NaN d = false) ->
  exists id,
    Find_scan o x es dmin id0 = Ok id /\
    (id = id0 /\
     (forall e d, e ∈ es -> sqdist o x e = Ok d -> (d <? dmin)%float = false) \/
     exists i e d,
       es !! i = Some e /\ id = Id e /\ sqdist o x e = Ok d /\
       (d <? dmin)%float = true /\
       forall j e' d', es !! j = Some e' -> sqdist o x e' = Ok d' ->
         (d' <? d)%float = false /\ ((j < i)%nat -> (d <? d')%float = true)).
Proof.
  induction es as [|e es IH]; intros dmin id0 Hd; simpl.
  - exists id0. split; [done|]. left. split; [done|].
    intros e d He. by apply elem_of_nil in He.
  - destruct (Hd e) as (d & Ed & Nd); [by left|].
    unfold sqdist in Ed. rewrite Ed. simpl.
    assert (Hd' : forall e', e' ∈ es ->
              exists d', sqdist o x e' = Ok d' /\ is_NaN d' = false)
      by (intros e' He'; apply Hd; by right).
    destruct (d <? dmin)%float eqn:C.
    + destruct (IH d (Id e) Hd') as (id & -> & [[-> Hno]|(i & e1 & d1 & Hi & -> & E1 & C1 & Hmin)]).
      * exists (Id e). split; [done|]. right. exists 0%nat, e, d.
        repeat split; auto.
        -- destruct j as [|j]; simpl in H; simplify_eq.
           ++ unfold sqdist in H0. rewrite Ed in H0. injection H0 as <-.
              apply ltb_irrefl.
           ++ eapply Hno; [|done]. by eapply list_elem_of_lookup_2.
        -- lia.
      * exists (Id e1). split; [done|]. right. exists (Datatypes.S i), e1, d1.
        repeat split; auto.
        -- by eapply ltb_trans.
        -- destruct j as [|j]; simpl in H; simplify_eq.
           ++ unfold sqdist in H0. rewrite Ed in H0. injection H0 as <-.
              by apply ltb_asym.
           ++ by eapply Hmin.
        -- intros Hj. destruct j as [|j]; simpl in H; simplify_eq.
           ++ unfold sqdist in H0. rewrite Ed in H0. by injection H0 as <-.
           ++ eapply Hmin; [done|done|lia].
    + destruct (IH dmin id0 Hd') as (id & -> & [[-> Hno]|(i & e1 & d1 & Hi & -> & E1 & C1 & Hmin)]).
      * exists id0. split; [done|]. left. split; [done|].
        intros e' d' He' Ed'. apply elem_of_cons in He' as [->|He'].
        -- unfold sqdist in Ed'. rewrite Ed in Ed'. by injection Ed' as <-.
        -- by eapply Hno.
      * exists (Id e1). split; [done|]. right. exists (Datatypes.S i), e1, d1.
        repeat split; auto.
        -- destruct j as [|j]; simpl in H; simplify_eq.
           ++ unfold sqdist in H0. rewrite Ed in H0. injection H0 as <-.
              apply ltb_asym. by eapply ltb_nlt_trans.
           ++ by eapply Hmin.
        -- intros Hj. destruct j as [|j]; simpl in H; simplify_eq.
           ++ unfold sqdist in H0. rewrite Ed in H0. injection H0 as <-.
              by eapply ltb_nlt_trans.
           ++ eapply Hmin; [done|done|lia].
Qed.

(** C5.  [Find] at a point whose bin holds entries, each at a squared
    distance below [math.MaxFloat64]: the id returned is that of an entry
    of this bin, no entry of the bin is at a smaller squared distance, and
    every entry inserted before it is at a larger one (ties go to the
    first inserted).  Only the bin of the query point is read: nothing is
    assumed of the other bins. *)
Theorem Find_nearest_in_bin o x o1 idx b :
  CalcIdx o x = Ok (o1, idx) ->
  0 <= idx ->
  All o !! Z.to_nat idx = Some (Some b) ->
  Entries b ≠ [] ->
  (forall e, e ∈ Entries b ->
     exists d, sqdist o x e = Ok d /\ (d <? MaxFloat64)%float = true) ->
  exists i e d,
    Find o x = Ok (o1, Id e) /\
    Entries b !! i = Some e /\
    sqdist o x e = Ok d /\
    forall j e' d', Entries b !! j = Some e' -> sqdist o x e' = Ok d' ->
      (d' <? d)%float = false /\ ((j < i)%nat -> (d <? d')%float = true).
Proof.
  intros HC Hidx Hb Hne Hd.
  destruct (Find_scan_spec o x (Entries b) MaxFloat64 (-1))
    as (id & Hscan & [[-> Hno]|(i & e & d & Hi & -> & Ed & _ & Hmin)]).
  { intros e He. destruct (Hd e He) as (d & Ed & C). exists d. split; [done|].
    by destruct (ltb_not_NaN _ _ C). }
  - destruct (Entries b) as [|e es] eqn:Eb; [done|].
    destruct (Hd e) as (d & Ed & C); [by left|].
    rewrite (Hno e d) in C; [done|by left|done].
  - exists i, e, d. repeat split; auto; try by eapply Hmin.
    unfold Find. rewrite HC. simpl. case_decide; [lia|].
    pose proof (CalcIdx_frame _ _ _ _ HC) as [E1 _].
    assert (EA : All o1 = All o) by (by rewrite E1).
    unfold FindBinByIndex. rewrite EA. apply lookup_lt_Some in Hb as Hlt.
    case_decide; [lia|]. rewrite Hb. simpl.
    unfold deref. rewrite EA, Hb. simpl.
    rewrite (Find_scan_Ndim o o1) by (by rewrite E1). rewrite Hscan. done.
Qed.

(** ** Integers that do not wrap *)

Lemma wrap_id z : int_min <= z <= int_max -> wrap z = z.
Proof.
  unfold wrap, int_min, int_max.
  change (2 ^ 63) with 9223372036854775808.
  change (2 ^ 64) with 18446744073709551616.
  intros H. rewrite Z.mod_small by lia. lia.
Qed.

Lemma wrap_range z : int_min <= wrap z <= int_max.
Proof.
  unfold wrap, int_min, int_max.
  change (2 ^ 63) with 9223372036854775808.
  change (2 ^ 64) with 18446744073709551616.
  pose proof (Z.mod_pos_bound (z + 9223372036854775808) 18446744073709551616).
  lia.
Qed.

Lemma int_of_float64_range f : int_min <= int_of_float64 f <= int_max.
Proof.
  unfold int_of_float64.
  destruct (Prim2SF f) as [s|s| |s m e]; try (unfold int_min, int_max; simpl; lia).
  case_decide; [done|]. unfold int_min, int_max; simpl; lia.
Qed.

(** ** The cell of a corner *)

(** [x - x] is [+0] for a finite [x]. *)
Lemma sub_diag_finite x :
  finite64 x = true -> Prim2SF (x - x)%float = S754_zero false.
Proof.
  unfold finite64. rewrite sub_spec. unfold SF64sub.
  destruct (Prim2SF x) as [s|s| |s m e]; try discriminate; intros _.
  - by destruct s.
  - unfold SFsub. rewrite Z.sub_diag. done.
Qed.

Lemma Prim2SF_zero : Prim2SF 0%float = S754_zero false.
Proof. reflexivity. Qed.

Lemma int_of_float64_zero f sg : Prim2SF f = S754_zero sg -> int_of_float64 f = 0.
Proof. unfold int_of_float64. by intros ->. Qed.

Lemma int_of_float64_indefinite f :
  finite64 f = false -> int_of_float64 f = int_min.
Proof.
  unfold finite64, int_of_float64. destruct (Prim2SF f); try discriminate; done.
Qed.

Lemma ltb_lower_cases a b :
  (a <? b)%float = true ->
  finite64 a = true \/
  Prim2SF a = S754_infinity true /\ SF_is_nan (Prim2SF b) = false /\
  Prim2SF b <> S754_infinity true.
Proof.
  rewrite ltb_spec. unfold finite64, SFltb.
  destruct (Prim2SF a) as [sa|[]| |sa ma ea]; auto;
    destruct (Prim2SF b) as [sb|[]| |sb mb eb]; simpl; try discriminate;
    intros _; right; auto.
Qed.

Lemma sub_from_minus_infinity a b :
  Prim2SF a = S754_infinity true -> SF_is_nan (Prim2SF b) = false ->
  Prim2SF b <> S754_infinity true ->
  Prim2SF (b - a)%float = S754_infinity false.
Proof.
  intros Ha Hb Hb'. rewrite sub_spec, Ha. unfold SF64sub, SFsub.
  destruct (Prim2SF b) as [sb|[]| |sb mb eb]; try done.
Qed.

(** A count of one bin at least comes from a finite quotient. *)
Lemma count_finite q :
  1 <= int_add (int_of_float64 q) 1 -> finite64 q = true.
Proof.
  intros H. destruct (finite64 q) eqn:E; [done|]. exfalso.
  rewrite (int_of_float64_indefinite q E) in H.
  revert H. vm_compute. intros H. by apply H.
Qed.

(** A finite quotient of a number that is not finite does not exist, and
    its divisor is neither zero nor NaN. *)
Lemma div_finite l s :
  finite64 (l / s)%float = true ->
  Prim2SF l <> S754_infinity false /\
  (exists sg, Prim2SF s = S754_infinity sg) \/
  Prim2SF l <> S754_infinity false /\
  (exists sg m e, Prim2SF s = S754_finite sg m e).
Proof.
  unfold finite64. rewrite div_spec. unfold SF64div, SFdiv.
  destruct (Prim2SF l) as [sl|[]| |sl ml el], (Prim2SF s) as [ss|ss| |ss ms es];
    try discriminate; intros _; eauto 10.
Qed.

(** [+0 / s] is a zero when [s] is neither zero nor NaN. *)
Lemma div_zero z s :
  Prim2SF z = S754_zero false ->
  (exists sg, Prim2SF s = S754_infinity sg) \/
  (exists sg m e, Prim2SF s = S754_finite sg m e) ->
  exists sg, Prim2SF (z / s)%float = S754_zero sg.
Proof.
  intros Hz Hs. rewrite div_spec, Hz. unfold SF64div, SFdiv.
  destruct Hs as [[sg ->]|(sg & m & e & ->)]; eauto.
Qed.

(** From a lower corner at minus infinity the box length is infinite. *)
Lemma lower_corner_finite (a b s : float) :
  (a <? b)%float = true ->
  finite64 ((b - a) / s)%float = true ->
  finite64 a = true.
Proof.
  intros Hlt Hq.
  destruct (ltb_lower_cases a b Hlt) as [?|(Ha & Hb & Hb')]; [done|]. exfalso.
  pose proof (sub_from_minus_infinity a b Ha Hb Hb') as Hl.
  destruct (div_finite _ _ Hq) as [[? _]|[? _]]; done.
Qed.

(** The cell of the lower corner, in a dimension with one bin at least. *)
Lemma cell_lower_corner (a b s : float) :
  (a <? b)%float = true ->
  1 <= int_add (int_of_float64 ((b - a) / s)%float) 1 ->
  int_of_float64 ((a - a) / s)%float = 0.
Proof.
  intros Hlt Hn. apply count_finite in Hn.
  pose proof (lower_corner_finite a b s Hlt Hn) as Ha.
  destruct (div_zero (a - a)%float s) as [sg H].
  - by apply sub_diag_finite.
  - destruct (div_finite _ _ Hn) as [[_ ?]|[_ ?]]; auto.
  - by eapply int_of_float64_zero.
Qed.

Ltac in_range :=
  unfold int_min, int_max; change (2 ^ 63) with 9223372036854775808; lia.

Lemma Zprod_pos n : (forall k, k ∈ n -> 1 <= k) -> 1 <= Zprod n.
Proof.
  induction n as [|a n IH]; intros H; simpl; [lia|].
  assert (1 <= a) by (apply H; by left).
  assert (1 <= Zprod n) by (apply IH; intros k Hk; apply H; by right).
  nia.
Qed.

Lemma foldl_int_mul n : forall acc,
  (forall k, k ∈ n -> 1 <= k) -> 1 <= acc -> acc * Zprod n <= int_max ->
  foldl int_mul acc n = acc * Zprod n.
Proof.
  induction n as [|a n IH]; intros acc H Hacc Hmax; simpl in *; [lia|].
  assert (1 <= a) by (apply H; by left).
  assert (1 <= Zprod n) by (apply Zprod_pos; intros k Hk; apply H; by right).
  assert (E : int_mul acc a = acc * a).
  { apply wrap_id. unfold int_min. change (- 2 ^ 63) with (-9223372036854775808). nia. }
  rewrite E, IH; [lia| |nia|nia].
  intros k Hk; apply H; by right.
Qed.

Lemma nbins_of_Zprod n :
  (forall k, k ∈ n -> 1 <= k) -> Zprod n <= int_max -> nbins_of n = Zprod n.
Proof.
  intros H Hmax. unfold nbins_of. rewrite foldl_int_mul; auto; lia.
Qed.

Lemma Append_in_table o x id o1 idx :
  CalcIdx o x = Ok (o1, idx) ->
  0 <= idx < Z.of_nat (length (All o)) ->
  exists o', Append o x id = Ok (o', None).
Proof.
  intros HC Hidx. unfold Append. rewrite HC. simpl.
  case_decide; [lia|].
  pose proof (CalcIdx_frame _ _ _ _ HC) as [E1 _].
  assert (EA : All o1 = All o) by (by rewrite E1).
  destruct (FindBinByIndex o1 idx) as [o2 bin] eqn:EF.
  apply FindBinByIndex_cases in EF as
    [(-> & -> & Hr) | [(b & -> & -> & Hpos & Hb) | (-> & Hpos & Hb & ->)]].
  - rewrite EA in Hr. lia.
  - unfold deref. rewrite Hb. simpl. eauto.
  - rewrite deref_insert by (rewrite EA; lia). eauto.
Qed.

Lemma initialized_reachable o : initialized o -> reachable o.
Proof.
  induction 1; [by eapply reach_Init|by eapply reach_Append|by eapply reach_Find].
Qed.

(** Until [Clear] is called the table keeps the [nbins] slots [Init]
    allocated. *)
Lemma initialized_table o :
  initialized o -> Z.of_nat (length (All o)) = nbins_of (N o).
Proof.
  induction 1 as [o0 xi xf ndiv o H | o x id o' e _ IH H | o x o' id _ IH H].
  - apply Init_Ok_inv in H as (_ & _ & _ & _ & _ & _ & Hnb & HA & _).
    rewrite HA, length_replicate. lia.
  - destruct e as [err|].
    + apply Append_error_inv in H as (Hg & -> & _). unfold geometry in Hg.
      by replace (N o') with (N o) by congruence.
    + apply Append_Ok_entries in H as (_ & _ & _ & _ & Hg & -> & _).
      unfold geometry in Hg. by replace (N o') with (N o) by congruence.
  - apply Find_Ok_entries in H as (Hg & -> & _).
    unfold geometry in Hg. by replace (N o') with (N o) by congruence.
Qed.

Lemma count_pred c n :
  int_min <= c <= int_max -> n = int_add c 1 -> 1 <= n -> c = n - 1 /\ 0 <= c.
Proof.
  unfold int_add, wrap, int_min, int_max.
  change (2 ^ 63) with 9223372036854775808.
  change (2 ^ 64) with 18446744073709551616.
  intros Hc -> Hn.
  destruct (decide (c = 9223372036854775807)) as [->|Hne].
  - exfalso. revert Hn. vm_compute. intros Hn. by apply Hn.
  - rewrite Z.mod_small in * by lia. lia.
Qed.

(** ** Rounding keeps the order *)

(** *** Digits *)

Lemma digits2_pos_size p : digits2_pos p = Pos.size p.
Proof. induction p; simpl; congruence. Qed.

Lemma Zdigits2_log2 m : 0 < m -> Zdigits2 m = Z.log2 m + 1.
Proof.
  destruct m as [|p|p]; try lia. intros _. simpl.
  rewrite digits2_pos_size.
  destruct p; simpl; lia.
Qed.

Lemma Zdigits2_0 : Zdigits2 0 = 0.
Proof. reflexivity. Qed.

Lemma Zdigits2_nonneg m : 0 <= Zdigits2 m.
Proof. destruct m; simpl; lia. Qed.

Lemma Zdigits2_bounds m :
  0 < m -> 2 ^ (Zdigits2 m - 1) <= m < 2 ^ Zdigits2 m.
Proof.
  intros H. rewrite Zdigits2_log2 by done.
  replace (Z.log2 m + 1 - 1) with (Z.log2 m) by lia.
  pose proof (Z.log2_spec m H). unfold Z.succ in *. lia.
Qed.

Lemma Zdigits2_lt m k : 0 <= m -> 0 <= k -> m < 2 ^ k -> Zdigits2 m <= k.
Proof.
  intros Hm Hk H. destruct (decide (m = 0)) as [->|Hne]; [simpl; lia|].
  rewrite Zdigits2_log2 by lia.
  assert (Z.log2 m < k); [|lia].
  apply Z.log2_lt_pow2; lia.
Qed.

Lemma Zdigits2_le_mono a b : 0 <= a <= b -> Zdigits2 a <= Zdigits2 b.
Proof.
  intros [Ha Hab]. destruct (decide (a = 0)) as [->|Hne].
  - apply Zdigits2_nonneg.
  - rewrite !Zdigits2_log2 by lia.
    pose proof (Z.log2_le_mono a b Hab). lia.
Qed.

Lemma Zdigits2_ge m k : 0 <= k -> 2 ^ k <= m -> k + 1 <= Zdigits2 m.
Proof.
  intros Hk H. assert (0 < m) by (pose proof (Z.pow_pos_nonneg 2 k); lia).
  rewrite Zdigits2_log2 by done.
  assert (k <= Z.log2 m); [|lia].
  apply Z.log2_le_pow2; lia.
Qed.

(** *** The steps of [shr] *)

(** Case analysis on the integer tests of a goal. *)
Ltac split_leb :=
  match goal with |- context [(?x <=? ?y)%Z] => destruct (Z.leb_spec x y) end.
Ltac split_ltb :=
  match goal with |- context [(?x <? ?y)%Z] => destruct (Z.ltb_spec x y) end.
Ltac split_eqb :=
  match goal with |- context [(?x =? ?y)%Z] => destruct (Z.eqb_spec x y) end.
Ltac ztests :=
  repeat first [split_leb | split_ltb | split_eqb];
  simpl; try done; try lia.

Lemma iter_pos_plus {A} (f : A -> A) (P : Z -> A -> Prop) p : forall k x,
  (forall k x, P k x -> P (k + 1) (f x)) ->
  P k x -> P (k + Zpos p) (SpecFloat.iter_pos f p x).
Proof.
  induction p as [p IH|p IH|]; intros k x Hf Hx; simpl.
  - replace (k + Z.pos p~1) with (k + 1 + Zpos p + Zpos p) by lia.
    apply IH; [done|]. apply IH; [done|]. by apply Hf.
  - replace (k + Z.pos p~0) with (k + Zpos p + Zpos p) by lia.
    apply IH; [done|]. by apply IH.
  - by apply Hf.
Qed.

Lemma shr_1_spec m r s :
  0 <= m ->
  shr_1 (Build_shr_record m r s) = Build_shr_record (m / 2) (Z.odd m) (r || s).
Proof.
  intros Hm. rewrite <- Z.div2_div.
  destruct m as [|[p|p|]|p]; try lia; done.
Qed.

Lemma rec_of_bits num den :
  0 < den ->
  rec_of num den =
    Build_shr_record (num / den) (den <=? 2 * (num mod den))
      (negb (num mod den =? 0) && negb (2 * (num mod den) =? den)).
Proof.
  intros Hd. unfold rec_of, loc_of.
  pose proof (Z.mod_pos_bound num den Hd) as Hr.
  destruct (Z.eqb_spec (num mod den) 0) as [E|E]; simpl.
  - ztests.
  - destruct (Z.compare_spec (2 * (num mod den)) den) as [C|C|C]; simpl; ztests.
Qed.

Lemma shr_1_rec num den :
  0 <= num -> 0 < den -> shr_1 (rec_of num den) = rec_of num (den * 2).
Proof.
  intros Hn Hd. rewrite !rec_of_bits by lia.
  pose proof (Z.mod_pos_bound num den Hd) as Hr.
  assert (Hq : 0 <= num / den) by (apply Z.div_pos; lia).
  rewrite shr_1_spec by done.
  assert (Eq : num / (den * 2) = num / den / 2) by (rewrite Z.div_div; lia).
  assert (Er : num mod (den * 2) = num mod den + den * ((num / den) mod 2))
    by (apply Z.rem_mul_r; lia).
  rewrite Eq, Er.
  assert (Eb : (num / den) mod 2 = Z.b2z (Z.odd (num / den)))
    by (rewrite <- Z.bit0_odd; symmetry; apply Z.bit0_mod).
  rewrite Eb. destruct (Z.odd (num / den)); simpl; f_equal; ztests.
Qed.

Lemma iter_shr_rec num den p :
  0 <= num -> 0 < den ->
  SpecFloat.iter_pos shr_1 p (rec_of num den) = rec_of num (den * 2 ^ Zpos p).
Proof.
  intros Hn Hd.
  pose proof (iter_pos_plus shr_1
    (fun k r => 0 <= k /\ r = rec_of num (den * 2 ^ k)) p 0 (rec_of num den)) as H.
  simpl in H. destruct H as [_ H]; [| |done].
  - intros k x [Hk ->]. split; [lia|].
    rewrite shr_1_rec by (try done; pose proof (Z.pow_pos_nonneg 2 k); nia).
    rewrite Z.pow_add_r by lia. f_equal. change (2 ^ 1) with 2. lia.
  - split; [lia|]. f_equal. lia.
Qed.

(** [shr] on a quotient divides the divisor. *)
Lemma shr_rec num den e n :
  0 <= num -> 0 < den -> 0 <= n ->
  shr (rec_of num den) e n = (rec_of num (den * 2 ^ n), e + n).
Proof.
  intros Hn Hd Hk. unfold shr. destruct n as [|p|p]; [| |lia].
  - rewrite Z.mul_1_r, Z.add_0_r. done.
  - by rewrite iter_shr_rec.
Qed.

Lemma rne_rec num den :
  round_nearest_even (shr_m (rec_of num den)) (loc_of_shr_record (rec_of num den))
  = rne num den.
Proof.
  unfold rne, rec_of. by destruct (loc_of (num mod den) den) as [|[]].
Qed.

(** *** Rounding to the nearest integer *)

Lemma rne_cases num den :
  0 < den ->
  rne num den =
    if 2 * (num mod den) <? den then num / den
    else if 2 * (num mod den) =? den
         then (if Z.even (num / den) then num / den else num / den + 1)
         else num / den + 1.
Proof.
  intros Hd. unfold rne, loc_of.
  pose proof (Z.mod_pos_bound num den Hd) as Hr.
  destruct (Z.eqb_spec (num mod den) 0) as [E|E]; simpl.
  - ztests.
  - destruct (Z.compare_spec (2 * (num mod den)) den) as [C|C|C]; simpl; ztests.
Qed.

Lemma rne_bounds num den :
  0 < den -> num / den <= rne num den <= num / den + 1.
Proof.
  intros Hd. rewrite rne_cases by done.
  destruct (_ <? _); [lia|]. destruct (_ =? _); [|lia].
  destruct (Z.even _); lia.
Qed.

Lemma div_cross_le n1 d1 n2 d2 :
  0 < d1 -> 0 < d2 -> n1 * d2 <= n2 * d1 -> n1 / d1 <= n2 / d2.
Proof.
  intros H1 H2 H.
  apply Z.div_le_lower_bound; [done|].
  pose proof (Z.mul_div_le n1 d1 H1).
  assert (d1 * (d2 * (n1 / d1)) <= d1 * n2); [|nia].
  nia.
Qed.

Lemma rne_mono n1 d1 n2 d2 :
  0 < d1 -> 0 < d2 -> n1 * d2 <= n2 * d1 -> rne n1 d1 <= rne n2 d2.
Proof.
  intros H1 H2 H.
  pose proof (div_cross_le _ _ _ _ H1 H2 H) as Hq.
  pose proof (rne_bounds n1 d1 H1) as B1.
  pose proof (rne_bounds n2 d2 H2) as B2.
  destruct (decide (n1 / d1 < n2 / d2)) as [Hlt|Hge]; [lia|].
  assert (Eq : n1 / d1 = n2 / d2) by lia.
  pose proof (Z.div_mod n1 d1 ltac:(lia)) as E1.
  pose proof (Z.div_mod n2 d2 ltac:(lia)) as E2.
  pose proof (Z.mod_pos_bound n1 d1 H1) as R1.
  pose proof (Z.mod_pos_bound n2 d2 H2) as R2.
  assert (Hr : (n1 mod d1) * d2 <= (n2 mod d2) * d1).
  { rewrite E1, E2, Eq in H. nia. }
  rewrite (rne_cases n1 d1), (rne_cases n2 d2) by done. rewrite Eq.
  destruct (Z.ltb_spec (2 * (n1 mod d1)) d1) as [A|A].
  - destruct (_ <? _); [lia|]. destruct (_ =? _); [|lia].
    destruct (Z.even _); lia.
  - assert (A2 : d2 <= 2 * (n2 mod d2)) by nia.
    destruct (Z.ltb_spec (2 * (n2 mod d2)) d2); [lia|].
    destruct (Z.eqb_spec (2 * (n1 mod d1)) d1) as [B|B].
    + destruct (Z.eqb_spec (2 * (n2 mod d2)) d2); [lia|].
      destruct (Z.even _); lia.
    + assert (d2 < 2 * (n2 mod d2)) by nia.
      destruct (Z.eqb_spec (2 * (n2 mod d2)) d2); lia.
Qed.

Lemma rne_eq n1 d1 n2 d2 :
  0 < d1 -> 0 < d2 -> n1 * d2 = n2 * d1 -> rne n1 d1 = rne n2 d2.
Proof.
  intros H1 H2 H. apply Z.le_antisymm; apply rne_mono; lia.
Qed.

Lemma rne_exact m d : 0 < d -> rne (m * d) d = m.
Proof.
  intros Hd. rewrite rne_cases by done.
  rewrite Z.mod_mul, Z.div_mul by lia. ztests.
Qed.

(** *** Powers of two *)

Lemma pow2_pos k : 0 <= k -> 0 < 2 ^ k.
Proof. intros H. by apply Z.pow_pos_nonneg. Qed.

Lemma pow2_le a b : 0 <= a <= b -> 2 ^ a <= 2 ^ b.
Proof. intros H. apply Z.pow_le_mono_r; lia. Qed.

Lemma pow2_lt a b : 0 <= a < b -> 2 ^ a < 2 ^ b.
Proof. intros H. apply Z.pow_lt_mono_r; lia. Qed.

Lemma pow2_add a b : 0 <= a -> 0 <= b -> 2 ^ (a + b) = 2 ^ a * 2 ^ b.
Proof. intros. by apply Z.pow_add_r. Qed.

Lemma mul_pow2_lt m a b : 0 <= a -> 0 <= b -> m < 2 ^ a -> m * 2 ^ b < 2 ^ (a + b).
Proof.
  intros Ha Hb H. rewrite pow2_add by done.
  pose proof (pow2_pos b Hb). nia.
Qed.

Lemma mul_pow2_ge m a b : 0 <= a -> 0 <= b -> 2 ^ a <= m -> 2 ^ (a + b) <= m * 2 ^ b.
Proof.
  intros Ha Hb H. rewrite pow2_add by done.
  pose proof (pow2_pos b Hb). nia.
Qed.

Lemma emin_value : emin = -1074.
Proof. reflexivity. Qed.

Lemma fexp_value e : fexp prec emax e = Z.max (e - 53) (-1074).
Proof. reflexivity. Qed.

Lemma INF_value : INF = 2 ^ 2098.
Proof. reflexivity. Qed.

Lemma INF_pos : 0 < INF.
Proof. rewrite INF_value. by apply pow2_pos. Qed.

#[global] Opaque INF.

(** *** The last step of [binary_round_aux] *)

Lemma shr_nonpos mrs e n : n <= 0 -> shr mrs e n = (mrs, e).
Proof. intros H. unfold shr. destruct n; (done || lia). Qed.

Lemma Zdigits2_pow2 k : 0 <= k -> Zdigits2 (2 ^ k) = k + 1.
Proof.
  intros H. rewrite Zdigits2_log2 by (by apply pow2_pos).
  rewrite Z.log2_pow2 by done. done.
Qed.

Lemma Zdigits2_eq m k : 0 <= k -> 2 ^ k <= m < 2 ^ (k + 1) -> Zdigits2 m = k + 1.
Proof.
  intros Hk H. pose proof (pow2_pos k Hk).
  rewrite Zdigits2_log2 by lia. f_equal. apply Z.log2_unique; [done|].
  by unfold Z.succ.
Qed.

Lemma INF_split a b : a + b = 2098 -> 0 <= a -> 0 <= b -> INF = 2 ^ a * 2 ^ b.
Proof. intros E Ha Hb. rewrite INF_value, <- E. by apply pow2_add. Qed.

Lemma fin_spec s m t :
  0 <= m <= 2 ^ 53 -> (emin < t -> 2 ^ 52 <= m) -> emin <= t ->
  Emag (fin s m t) = Z.min (m * 2 ^ (t - emin)) INF /\ signed s (fin s m t).
Proof.
  rewrite emin_value. intros Hm Hn Ht. unfold fin, shr_fexp.
  rewrite fexp_value. simpl shr_record_of_loc.
  pose proof INF_pos as HI.
  pose proof (pow2_pos (t - -1074) ltac:(lia)) as Pt.
  destruct (decide (m = 0)) as [->|Hz].
  { rewrite shr_nonpos by (simpl; lia). simpl. split; [lia|done]. }
  destruct (decide (m = 2 ^ 53)) as [->|H53].
  - rewrite Zdigits2_pow2 by lia.
    replace (Z.max (53 + 1 + t - 53) (-1074) - t) with 1 by lia.
    change (shr {| shr_m := 2 ^ 53; shr_r := false; shr_s := false |} t 1)
      with ({| shr_m := 4503599627370496; shr_r := false; shr_s := false |},
            t + 1).
    cbv beta iota. simpl shr_m.
    change (emax - prec) with 971.
    destruct (Z.leb_spec (t + 1) 971) as [Hle|Hgt]; simpl; (split; [|done]).
    + rewrite emin_value.
      replace (t + 1 - -1074) with (1 + (t - -1074)) by lia.
      rewrite (pow2_add 1) by lia.
      rewrite (INF_split 53 2045) by lia.
      pose proof (pow2_lt (t - -1074) 2045 ltac:(lia)).
      change (2 ^ 53) with 9007199254740992. change (2 ^ 1) with 2. lia.
    + rewrite (INF_split 53 2045) by lia.
      pose proof (pow2_le 2045 (t - -1074) ltac:(lia)).
      change (2 ^ 53) with 9007199254740992. lia.
  - assert (Hd : Z.max (Zdigits2 m + t - 53) (-1074) - t = 0).
    { destruct (decide (-1074 < t)) as [Hlt|Hge].
      - rewrite (Zdigits2_eq m 52) by lia. lia.
      - pose proof (Zdigits2_lt m 53 ltac:(lia) ltac:(lia) ltac:(lia)). lia. }
    rewrite Hd. simpl shr. cbv beta iota. simpl shr_m.
    destruct m as [|p|p]; try lia.
    change (emax - prec) with 971.
    change (2 ^ 53) with 9007199254740992 in *.
    change (2 ^ 52) with 4503599627370496 in *.
    destruct (Z.leb_spec t 971) as [Hle|Hgt]; simpl; (split; [|done]).
    + rewrite emin_value.
      assert (Z.pos p * 2 ^ (t - -1074) < INF); [|lia].
      rewrite (INF_split 53 2045) by lia.
      pose proof (pow2_le (t - -1074) 2045 ltac:(lia)).
      change (2 ^ 53) with 9007199254740992. nia.
    + assert (INF <= Z.pos p * 2 ^ (t - -1074)); [|lia].
      rewrite (INF_split 52 2046) by lia.
      pose proof (pow2_le 2046 (t - -1074) ltac:(lia)).
      pose proof (pow2_pos 2046 ltac:(lia)).
      specialize (Hn ltac:(lia)).
      change (2 ^ 52) with 4503599627370496. nia.
Qed.

(** *** [binary_round_aux] on a quotient *)

Lemma bra_rne s num den e :
  0 <= num -> 0 < den ->
  e <= fexp prec emax (Zdigits2 (num / den) + e) ->
  binary_round_aux prec emax s (num / den) e (loc_of (num mod den) den) =
  fin s (rne num (den * 2 ^ (fexp prec emax (Zdigits2 (num / den) + e) - e)))
    (fexp prec emax (Zdigits2 (num / den) + e)).
Proof.
  intros Hn Hd He. unfold binary_round_aux, shr_fexp at 1.
  change (shr_record_of_loc (num / den) (loc_of (num mod den) den))
    with (rec_of num den).
  rewrite shr_rec by lia.
  replace (e + (fexp prec emax (Zdigits2 (num / den) + e) - e))
    with (fexp prec emax (Zdigits2 (num / den) + e)) by lia.
  rewrite rne_rec. done.
Qed.

(** The rounded mantissa has 53 bits, or is 2^53. *)
Lemma rne_shift_bounds num den n :
  0 <= num -> 0 < den -> 0 <= n ->
  Zdigits2 (num / den) - 53 <= n ->
  rne num (den * 2 ^ n) <= 2 ^ 53 /\
  (n = Zdigits2 (num / den) - 53 -> 2 ^ 52 <= rne num (den * 2 ^ n)).
Proof.
  intros Hn Hd Hk Hdig.
  pose proof (pow2_pos n Hk) as Pn.
  assert (Hden : 0 < den * 2 ^ n) by nia.
  pose proof (rne_bounds num (den * 2 ^ n) Hden) as B.
  rewrite <- Z.div_div in B by lia.
  assert (Hq : 0 <= num / den) by (apply Z.div_pos; lia).
  split.
  - assert (num / den / 2 ^ n < 2 ^ 53); [|lia].
    apply Z.div_lt_upper_bound; [done|].
    destruct (decide (num / den = 0)) as [->|Hz].
    { pose proof (pow2_pos 53). nia. }
    pose proof (Zdigits2_bounds (num / den) ltac:(lia)) as [_ Hu].
    rewrite <- pow2_add by lia.
    pose proof (pow2_le (Zdigits2 (num / den)) (n + 53)
      ltac:(pose proof (Zdigits2_nonneg (num / den)); lia)). lia.
  - intros ->.
    assert (2 ^ 52 <= num / den / 2 ^ (Zdigits2 (num / den) - 53)); [|lia].
    apply Z.div_le_lower_bound; [done|].
    destruct (decide (num / den = 0)) as [Ez|Hz].
    { rewrite Ez in Hk. simpl in Hk. lia. }
    pose proof (Zdigits2_bounds (num / den) ltac:(lia)) as [Hl _].
    rewrite <- pow2_add by lia.
    replace (Zdigits2 (num / den) - 53 + 52) with (Zdigits2 (num / den) - 1) by lia.
    done.
Qed.

(** *** Rounding a quotient counted in units of 2^emin *)

Lemma Rq_mono n1 d1 n2 d2 :
  0 <= n1 -> 0 < d1 -> 0 < d2 -> n1 * d2 <= n2 * d1 -> Rq n1 d1 <= Rq n2 d2.
Proof.
  intros Hn H1 H2 H. unfold Rq. change prec with 53.
  pose proof (div_cross_le _ _ _ _ H1 H2 H) as Hq.
  assert (Hq1 : 0 <= n1 / d1) by (apply Z.div_pos; lia).
  assert (Hn2 : 0 <= n2) by nia.
  pose proof (Zdigits2_le_mono (n1 / d1) (n2 / d2) ltac:(lia)) as Hd.
  set (k1 := Z.max (Zdigits2 (n1 / d1) - 53) 0).
  set (k2 := Z.max (Zdigits2 (n2 / d2) - 53) 0).
  assert (Hk : 0 <= k1 <= k2) by lia.
  pose proof (pow2_pos k1 ltac:(lia)) as P1.
  pose proof (pow2_pos k2 ltac:(lia)) as P2.
  destruct (decide (k1 = k2)) as [E|Hne].
  - rewrite <- E. apply Z.mul_le_mono_nonneg_r; [lia|].
    apply rne_mono; nia.
  - destruct (rne_shift_bounds n1 d1 k1) as [B1 _]; try lia.
    destruct (rne_shift_bounds n2 d2 k2) as [_ B2]; try lia.
    specialize (B2 ltac:(lia)).
    assert (2 ^ 53 * 2 ^ k1 <= 2 ^ 52 * 2 ^ k2); [|nia].
    rewrite <- !pow2_add by lia. apply pow2_le. lia.
Qed.

Lemma Rq_eq n1 d1 n2 d2 :
  0 <= n1 -> 0 <= n2 -> 0 < d1 -> 0 < d2 -> n1 * d2 = n2 * d1 ->
  Rq n1 d1 = Rq n2 d2.
Proof.
  intros. apply Z.le_antisymm; apply Rq_mono; lia.
Qed.

Lemma Rq_0 d : 0 < d -> Rq 0 d = 0.
Proof.
  intros Hd. unfold Rq. rewrite Z.div_0_l by lia. simpl Zdigits2.
  change (Z.max (0 - prec) 0) with 0. rewrite Z.mul_1_r.
  unfold rne. rewrite Z.div_0_l, Z.mod_0_l by lia. done.
Qed.

Lemma fexp_ge_emin e : emin <= fexp prec emax e.
Proof. rewrite fexp_value, emin_value. lia. Qed.

Lemma fexp_mono a b : a <= b -> fexp prec emax a <= fexp prec emax b.
Proof. rewrite !fexp_value. lia. Qed.

(** The digits of a quotient scaled by a power of two. *)
Lemma Zdigits2_scale_up num den a :
  0 <= num -> 0 < den -> 0 <= a -> 1 <= num / den ->
  Zdigits2 (num * 2 ^ a / den) = Zdigits2 (num / den) + a.
Proof.
  intros Hn Hd Ha Hq.
  pose proof (pow2_pos a Ha) as Pa.
  pose proof (Zdigits2_bounds (num / den) ltac:(lia)) as [Hl Hu].
  pose proof (Zdigits2_nonneg (num / den)) as Hdn.
  assert (1 <= Zdigits2 (num / den)).
  { destruct (decide (Zdigits2 (num / den) = 0)) as [E|]; [|lia].
    rewrite E in Hu. simpl in Hu. lia. }
  pose proof (Z.mul_div_le num den Hd) as M1.
  pose proof (Z.mul_succ_div_gt num den Hd) as M2. unfold Z.succ in M2.
  replace (Zdigits2 (num / den) + a) with (Zdigits2 (num / den) - 1 + a + 1) by lia.
  apply Zdigits2_eq; [lia|]. split.
  - apply Z.div_le_lower_bound; [done|]. rewrite pow2_add by lia.
    assert (den * 2 ^ (Zdigits2 (num / den) - 1) <= num) by nia.
    rewrite Z.mul_assoc. by apply Z.mul_le_mono_nonneg_r; [lia|].
  - apply Z.div_lt_upper_bound; [done|].
    replace (Zdigits2 (num / den) - 1 + a + 1) with (Zdigits2 (num / den) + a) by lia.
    rewrite pow2_add by lia.
    assert (num < den * 2 ^ Zdigits2 (num / den)) by nia.
    rewrite Z.mul_assoc. by apply Z.mul_lt_mono_pos_r.
Qed.

Lemma Zdigits2_scale_down q b :
  0 <= q -> 0 <= b -> 1 <= q / 2 ^ b ->
  Zdigits2 (q / 2 ^ b) = Zdigits2 q - b.
Proof.
  intros Hq Hb H1.
  pose proof (pow2_pos b Hb) as Pb.
  assert (Hqb : 2 ^ b <= q).
  { pose proof (Z.mul_div_le q (2 ^ b) Pb). nia. }
  pose proof (Zdigits2_ge q b Hb Hqb) as Hd.
  pose proof (Zdigits2_bounds q ltac:(lia)) as [Hl Hu].
  replace (Zdigits2 q - b) with (Zdigits2 q - 1 - b + 1) by lia.
  apply Zdigits2_eq; [lia|]. split.
  - apply Z.div_le_lower_bound; [done|]. rewrite <- pow2_add by lia.
    by replace (b + (Zdigits2 q - 1 - b)) with (Zdigits2 q - 1) by lia.
  - apply Z.div_lt_upper_bound; [done|]. rewrite <- pow2_add by lia.
    by replace (b + (Zdigits2 q - 1 - b + 1)) with (Zdigits2 q) by lia.
Qed.

(** The number of bits [Rq] drops is the distance from 2^emin to the
    exponent [binary_round_aux] rounds at. *)
Lemma Rq_shift num den e :
  0 <= num -> 0 < den ->
  e <= fexp prec emax (Zdigits2 (num / den) + e) ->
  Z.max (Zdigits2 (num * 2 ^ Z.max (e - emin) 0 / (den * 2 ^ Z.max (emin - e) 0)) - prec) 0
  = fexp prec emax (Zdigits2 (num / den) + e) - emin.
Proof.
  rewrite fexp_value, emin_value. change prec with 53. intros Hn Hd He.
  assert (Hq : 0 <= num / den) by (apply Z.div_pos; lia).
  pose proof (Zdigits2_nonneg (num / den)) as Hdn.
  destruct (decide (-1074 <= e)) as [Hge|Hlt].
  - replace (Z.max (-1074 - e) 0) with 0 by lia.
    replace (Z.max (e - -1074) 0) with (e - -1074) by lia.
    rewrite Z.mul_1_r.
    destruct (decide (num / den = 0)) as [Ez|Hz].
    + rewrite Ez in He |- *. simpl in He.
      assert (e = -1074) as -> by lia.
      rewrite Z.mul_1_r, Ez. simpl. lia.
    + rewrite Zdigits2_scale_up by lia. lia.
  - replace (Z.max (-1074 - e) 0) with (-1074 - e) by lia.
    replace (Z.max (e - -1074) 0) with 0 by lia.
    rewrite Z.mul_1_r, <- Z.div_div by (try apply pow2_pos; lia).
    pose proof (pow2_pos (-1074 - e) ltac:(lia)) as Pb.
    assert (Hqb : 0 <= num / den / 2 ^ (-1074 - e)) by (apply Z.div_pos; lia).
    destruct (decide (num / den / 2 ^ (-1074 - e) = 0)) as [Ez|Hz].
    + rewrite Ez. simpl Zdigits2.
      assert (num / den < 2 ^ (-1074 - e)).
      { apply Z.div_small_iff in Ez; lia. }
      pose proof (Zdigits2_lt (num / den) (-1074 - e) ltac:(lia) ltac:(lia) ltac:(lia)).
      lia.
    + rewrite Zdigits2_scale_down by lia. lia.
Qed.

Lemma Rq_scaled num den e :
  0 <= num -> 0 < den ->
  e <= fexp prec emax (Zdigits2 (num / den) + e) ->
  Rq (num * 2 ^ Z.max (e - emin) 0) (den * 2 ^ Z.max (emin - e) 0) =
  rne num (den * 2 ^ (fexp prec emax (Zdigits2 (num / den) + e) - e))
  * 2 ^ (fexp prec emax (Zdigits2 (num / den) + e) - emin).
Proof.
  intros Hn Hd He. unfold Rq.
  rewrite Rq_shift by done.
  pose proof (fexp_ge_emin (Zdigits2 (num / den) + e)) as Ht.
  revert He Ht. generalize (fexp prec emax (Zdigits2 (num / den) + e)).
  rewrite emin_value. intros t He Ht.
  f_equal.
  pose proof (pow2_pos (Z.max (e - -1074) 0) ltac:(lia)).
  pose proof (pow2_pos (Z.max (-1074 - e) 0) ltac:(lia)).
  pose proof (pow2_pos (t - -1074) ltac:(lia)).
  pose proof (pow2_pos (t - e) ltac:(lia)).
  apply rne_eq; [apply Z.mul_pos_pos; [apply Z.mul_pos_pos|]; lia
                |apply Z.mul_pos_pos; lia|].
  replace (num * 2 ^ Z.max (e - -1074) 0 * (den * 2 ^ (t - e)))
    with (num * den * (2 ^ Z.max (e - -1074) 0 * 2 ^ (t - e))) by lia.
  replace (num * (den * 2 ^ Z.max (-1074 - e) 0 * 2 ^ (t - -1074)))
    with (num * den * (2 ^ Z.max (-1074 - e) 0 * 2 ^ (t - -1074))) by lia.
  rewrite <- !pow2_add by lia. do 2 f_equal. lia.
Qed.

(** [binary_round_aux] rounds the quotient it is given, when the exponent
    it is given is not above the one it rounds at. *)
Lemma bra_Rq s num den e :
  0 <= num -> 0 < den ->
  e <= fexp prec emax (Zdigits2 (num / den) + e) ->
  Emag (binary_round_aux prec emax s (num / den) e (loc_of (num mod den) den)) =
    Z.min (Rq (num * 2 ^ Z.max (e - emin) 0) (den * 2 ^ Z.max (emin - e) 0)) INF /\
  signed s (binary_round_aux prec emax s (num / den) e (loc_of (num mod den) den)).
Proof.
  intros Hn Hd He. rewrite bra_rne, Rq_scaled by done.
  pose proof (fexp_ge_emin (Zdigits2 (num / den) + e)) as Ht.
  assert (Hv := fexp_value (Zdigits2 (num / den) + e)).
  set (t := fexp prec emax (Zdigits2 (num / den) + e)) in *.
  assert (Hq : 0 <= num / den) by (apply Z.div_pos; lia).
  destruct (rne_shift_bounds num den (t - e)) as [B1 B2]; try lia.
  pose proof (pow2_pos (t - e) ltac:(lia)) as Pte.
  pose proof (rne_bounds num (den * 2 ^ (t - e)) ltac:(nia)) as [B0 _].
  assert (0 <= num / (den * 2 ^ (t - e))) by (apply Z.div_pos; nia).
  apply fin_spec; [lia| |done].
  rewrite emin_value. intros Hlt. apply B2. lia.
Qed.

(** *** Valid numbers *)

Lemma valid_finite s m e :
  valid_binary (S754_finite s m e) = true ->
  -1074 <= e <= 971 /\ Zdigits2 (Zpos m) <= 53 /\
  (-1074 < e -> Zdigits2 (Zpos m) = 53) /\
  fexp prec emax (Zdigits2 (Zpos m) + e) = e.
Proof.
  unfold SpecFloat.valid_binary, bounded, canonical_mantissa.
  intros H. apply andb_true_iff in H as [H1 H2].
  apply Z.eqb_eq in H1. apply Z.leb_le in H2.
  change (emax - prec) with 971 in H2.
  change (Zpos (digits2_pos m)) with (Zdigits2 (Zpos m)) in H1.
  pose proof H1 as H3. rewrite fexp_value in H3. lia.
Qed.

Lemma Emag_finite_bounds s m e :
  valid_binary (S754_finite s m e) = true ->
  0 < Emag (S754_finite s m e) < INF.
Proof.
  intros H. apply valid_finite in H as (He & Hd & _).
  simpl. rewrite emin_value.
  pose proof (pow2_pos (e - -1074) ltac:(lia)) as P.
  pose proof (Zdigits2_bounds (Zpos m) ltac:(lia)) as [_ Hu].
  pose proof (pow2_le (Zdigits2 (Zpos m)) 53
    ltac:(pose proof (Zdigits2_nonneg (Zpos m)); lia)).
  split; [lia|].
  rewrite (INF_split 53 2045) by lia.
  pose proof (pow2_le (e - -1074) 2045 ltac:(lia)).
  pose proof (pow2_pos 53 ltac:(lia)). nia.
Qed.

Lemma Emag_valid_lt_INF x :
  valid_binary x = true -> SFfin x = true -> Emag x < INF.
Proof.
  destruct x as [s|s| |s m e]; try discriminate; intros Hv _.
  - simpl. apply INF_pos.
  - by apply Emag_finite_bounds.
Qed.

(** A representable number is left as it is. *)
Lemma Rq_representable s m e :
  valid_binary (S754_finite s m e) = true ->
  Rq (Zpos m * 2 ^ (e - emin)) 1 = Zpos m * 2 ^ (e - emin).
Proof.
  intros H. apply valid_finite in H as (He & Hd & Hn & Hc).
  rewrite fexp_value in Hc. rewrite emin_value.
  pose proof (pow2_pos (e - -1074) ltac:(lia)) as P.
  unfold Rq. rewrite Z.div_1_r. change prec with 53.
  assert (Ed : Zdigits2 (Zpos m * 2 ^ (e - -1074)) = Zdigits2 (Zpos m) + (e - -1074)).
  { rewrite <- (Z.div_1_r (Zpos m * 2 ^ (e - -1074))).
    rewrite Zdigits2_scale_up by (rewrite ?Z.div_1_r; lia).
    by rewrite Z.div_1_r. }
  rewrite Ed.
  replace (Z.max (Zdigits2 (Zpos m) + (e - -1074) - 53) 0) with (e - -1074) by lia.
  rewrite Z.mul_1_l, rne_exact by done. done.
Qed.

(** *** Sums and differences *)

Lemma iter_xO m d : Zpos (Pos.iter xO m d) = Zpos m * 2 ^ Zpos d.
Proof.
  induction d as [|d IH] using Pos.peano_ind.
  - simpl. lia.
  - rewrite Pos.iter_succ, Pos2Z.inj_xO, IH, Pos2Z.inj_succ.
    rewrite Z.pow_succ_r by lia. lia.
Qed.

Lemma shl_align_spec m e e' :
  Zpos (fst (shl_align m e e')) = Zpos m * 2 ^ (e - snd (shl_align m e e')) /\
  snd (shl_align m e e') = Z.min e e'.
Proof.
  unfold shl_align. destruct (e' - e) as [|d|d] eqn:E; simpl.
  - rewrite Z.sub_diag. simpl. lia.
  - rewrite Z.sub_diag. simpl. lia.
  - rewrite iter_xO. split; [|lia]. do 2 f_equal. lia.
Qed.

Lemma Zdigits2_mul_pow2 m k :
  0 < m -> 0 <= k -> Zdigits2 (m * 2 ^ k) = Zdigits2 m + k.
Proof.
  intros Hm Hk. rewrite <- (Z.div_1_r (m * 2 ^ k)).
  rewrite Zdigits2_scale_up by (rewrite ?Z.div_1_r; lia).
  by rewrite Z.div_1_r.
Qed.

(** [binary_round] rounds [m × 2^e]. *)
Lemma binary_round_E s m e :
  emin <= e ->
  Emag (binary_round prec emax s m e) = Z.min (Rq (Zpos m * 2 ^ (e - emin)) 1) INF /\
  signed s (binary_round prec emax s m e).
Proof.
  rewrite emin_value. intros He. unfold binary_round.
  pose proof (shl_align_spec m e (fexp prec emax (Zpos (digits2_pos m) + e)))
    as [Hm Hz].
  destruct (shl_align m e (fexp prec emax (Zpos (digits2_pos m) + e)))
    as [mz ez]. simpl in Hm, Hz.
  change (Zpos (digits2_pos m)) with (Zdigits2 (Zpos m)) in Hz.
  pose proof (fexp_ge_emin (Zdigits2 (Zpos m) + e)) as Ht.
  rewrite emin_value in Ht.
  assert (Hez : -1074 <= ez <= e) by lia.
  assert (Ed : Zdigits2 (Zpos mz) + ez = Zdigits2 (Zpos m) + e).
  { rewrite Hm, Zdigits2_mul_pow2 by lia. lia. }
  pose proof (bra_Rq s (Zpos mz) 1 ez ltac:(lia) ltac:(lia)) as H.
  rewrite Z.div_1_r, Z.mod_1_r in H.
  change (loc_of 0 1) with loc_Exact in H.
  rewrite Ed in H. specialize (H ltac:(lia)).
  rewrite emin_value in H.
  replace (Z.max (-1074 - ez) 0) with 0 in H by lia.
  replace (Z.max (ez - -1074) 0) with (ez - -1074) in H by lia.
  replace (Zpos mz * 2 ^ (ez - -1074)) with (Zpos m * 2 ^ (e - -1074)) in H.
  { exact H. }
  rewrite Hm, <- Z.mul_assoc, <- pow2_add by lia. do 2 f_equal. lia.
Qed.

(** The difference of two numbers is their exact difference, rounded. *)
Lemma SFsub_E x y :
  valid_binary x = true -> valid_binary y = true ->
  SFfin x = true -> SFfin y = true -> IV y <= IV x ->
  Emag (SFsub prec emax x y) = Z.min (Rq (IV x - IV y) 1) INF /\
  not_below_zero (SFsub prec emax x y).
Proof.
  intros Vx Vy Fx Fy Hle.
  pose proof INF_pos as HI.
  destruct x as [sx|sx| |sx mx ex], y as [sy|sy| |sy my ey]; try done.
  - simpl IV. rewrite Z.sub_diag, Rq_0 by lia.
    destruct sx, sy; simpl; split; (lia || done).
  - pose proof (Emag_finite_bounds _ _ _ Vy) as B.
    pose proof (Rq_representable _ _ _ Vy) as R.
    simpl in B, Hle |- *. destruct sy; simpl in Hle |- *; [|lia].
    rewrite Z.sub_0_l, Z.opp_involutive, R. split; [lia|done].
  - pose proof (Emag_finite_bounds _ _ _ Vx) as B.
    pose proof (Rq_representable _ _ _ Vx) as R.
    simpl in B, Hle |- *. destruct sx; simpl in Hle |- *; [lia|].
    rewrite Z.sub_0_r, R. split; [lia|done].
  - apply valid_finite in Vx as (Hex & _). apply valid_finite in Vy as (Hey & _).
    unfold SFsub.
    pose proof (shl_align_spec mx ex (Z.min ex ey)) as [Hmx Hzx].
    pose proof (shl_align_spec my ey (Z.min ex ey)) as [Hmy Hzy].
    rewrite Hzx in Hmx. rewrite Hzy in Hmy.
    replace (Z.min ex (Z.min ex ey)) with (Z.min ex ey) in Hmx by lia.
    replace (Z.min ey (Z.min ex ey)) with (Z.min ex ey) in Hmy by lia.
    set (ez := Z.min ex ey) in *.
    assert (Hez : -1074 <= ez) by lia.
    pose proof (pow2_pos (ez - -1074) ltac:(lia)) as Pz.
    assert (EM : (cond_Zopp sx (Zpos (fst (shl_align mx ex ez))) -
                  cond_Zopp sy (Zpos (fst (shl_align my ey ez))))
                 * 2 ^ (ez - -1074)
                 = IV (S754_finite sx mx ex) - IV (S754_finite sy my ey)).
    { rewrite Hmx, Hmy, Z.mul_sub_distr_r.
      assert (Ex : Zpos mx * 2 ^ (ex - ez) * 2 ^ (ez - -1074) = Zpos mx * 2 ^ (ex - -1074)).
      { rewrite <- Z.mul_assoc, <- pow2_add by lia. do 2 f_equal. lia. }
      assert (Ey : Zpos my * 2 ^ (ey - ez) * 2 ^ (ez - -1074) = Zpos my * 2 ^ (ey - -1074)).
      { rewrite <- Z.mul_assoc, <- pow2_add by lia. do 2 f_equal. lia. }
      simpl IV. rewrite emin_value.
      destruct sx, sy; simpl cond_Zopp; lia. }
    rewrite <- EM.
    destruct (cond_Zopp sx (Zpos (fst (shl_align mx ex ez))) -
              cond_Zopp sy (Zpos (fst (shl_align my ey ez)))) as [|p|p] eqn:EZ.
    + simpl. rewrite Rq_0 by lia. split; [lia|done].
    + simpl binary_normalize.
      destruct (binary_round_E false p ez) as [HE Hs]; [by rewrite emin_value|].
      rewrite emin_value in HE. split; [done|].
      by destruct (binary_round prec emax false p ez).
    + exfalso.
      assert (Z.neg p * 2 ^ (ez - -1074) < 0) by (apply Z.mul_neg_pos; lia).
      lia.
Qed.

(** *** Quotients *)

Lemma Zdigits2_pos m : 0 < m -> 1 <= Zdigits2 m.
Proof.
  intros H. rewrite Zdigits2_log2 by done.
  pose proof (Z.log2_nonneg m). lia.
Qed.

Lemma new_location_loc den r :
  0 < den -> 0 <= r < den -> new_location den r = loc_of r den.
Proof.
  intros Hd Hr. unfold new_location, new_location_even, new_location_odd, loc_of.
  destruct (Z.even den) eqn:Ev; [done|].
  destruct (r =? 0); [done|]. f_equal.
  assert (Ho : Z.odd den = true) by (by rewrite <- Z.negb_even, Ev).
  apply Z.odd_spec in Ho as [k ->].
  destruct (Z.compare_spec (2 * r + 1) (2 * k + 1));
    destruct (Z.compare_spec (2 * r) (2 * k + 1)); try done; lia.
Qed.

Lemma div_eucl_div_mod a b q r :
  Z.div_eucl a b = (q, r) -> q = a / b /\ r = a mod b.
Proof. unfold Z.div, Z.modulo. by intros ->. Qed.

(** The quotient of two numbers is their exact quotient, rounded. *)
Lemma SFdiv_E sa ma ea ss ms es :
  valid_binary (S754_finite sa ma ea) = true ->
  valid_binary (S754_finite ss ms es) = true ->
  Emag (SFdiv prec emax (S754_finite sa ma ea) (S754_finite ss ms es)) =
    Z.min (Rq (Emag (S754_finite sa ma ea) * 2 ^ 1074)
              (Emag (S754_finite ss ms es))) INF /\
  signed (xorb sa ss)
    (SFdiv prec emax (S754_finite sa ma ea) (S754_finite ss ms es)).
Proof.
  intros Va Vs.
  pose proof (Emag_finite_bounds _ _ _ Va) as [Ba _].
  pose proof (Emag_finite_bounds _ _ _ Vs) as [Bs _].
  apply valid_finite in Va as (Hea & Hda & _).
  apply valid_finite in Vs as (Hes & Hds & _).
  simpl Emag in *. rewrite emin_value in *.
  unfold SFdiv, SFdiv_core_binary.
  set (mu := Zdigits2 (Zpos ma) + ea - (Zdigits2 (Zpos ms) + es)).
  pose proof (fexp_value mu) as Hf.
  set (e' := Z.min (fexp prec emax mu) (ea - es)) in *.
  assert (Hsh : 0 <= ea - es - e') by lia.
  assert (Em : match ea - es - e' with
               | 0 => Zpos ma
               | Zpos _ => Z.shiftl (Zpos ma) (ea - es - e')
               | Zneg _ => 0
               end = Zpos ma * 2 ^ (ea - es - e')).
  { destruct (ea - es - e') as [|p|p] eqn:E; [lia| |lia].
    by rewrite Z.shiftl_mul_pow2. }
  rewrite Em. clear Em.
  pose proof (pow2_pos (ea - es - e') Hsh) as Psh.
  set (m' := Zpos ma * 2 ^ (ea - es - e')) in *.
  assert (Hm' : 0 < m') by (unfold m'; nia).
  destruct (Z.div_eucl m' (Zpos ms)) as [q r] eqn:E.
  apply div_eucl_div_mod in E as [-> ->].
  rewrite new_location_loc by (try apply Z.mod_pos_bound; lia).
  assert (He' : e' <= fexp prec emax (Zdigits2 (m' / Zpos ms) + e')).
  { pose proof (fexp_value (Zdigits2 (m' / Zpos ms) + e')) as Hf'.
    pose proof (Zdigits2_nonneg (m' / Zpos ms)) as Hq.
    pose proof (Zdigits2_bounds (Zpos ma) ltac:(lia)) as [Ha1 _].
    pose proof (Zdigits2_bounds (Zpos ms) ltac:(lia)) as [_ Hs2].
    pose proof (Zdigits2_nonneg (Zpos ma)).
    pose proof (Zdigits2_nonneg (Zpos ms)).
    destruct (decide (1 <= Zdigits2 (Zpos ma) + (ea - es - e') - Zdigits2 (Zpos ms)))
      as [Hbig|Hsmall]; [|lia].
    assert (Hdq : Zdigits2 (Zpos ma) + (ea - es - e') - Zdigits2 (Zpos ms)
                  <= Zdigits2 (m' / Zpos ms)); [|lia].
    set (k := Zdigits2 (Zpos ma) + (ea - es - e') - Zdigits2 (Zpos ms) - 1).
    replace (Zdigits2 (Zpos ma) + (ea - es - e') - Zdigits2 (Zpos ms))
      with (k + 1) by lia.
    apply Zdigits2_ge; [lia|].
    apply Z.div_le_lower_bound; [lia|].
    assert (Hms : Zpos ms * 2 ^ k <= 2 ^ Zdigits2 (Zpos ms) * 2 ^ k).
    { apply Z.mul_le_mono_nonneg_r; [|lia].
      pose proof (pow2_pos k ltac:(lia)). lia. }
    rewrite <- pow2_add in Hms by lia.
    assert (Hma : 2 ^ (Zdigits2 (Zpos ma) - 1) * 2 ^ (ea - es - e') <= m').
    { unfold m'. apply Z.mul_le_mono_nonneg_r; lia. }
    pose proof (Zdigits2_pos (Zpos ma) ltac:(lia)).
    rewrite <- pow2_add in Hma by lia.
    replace (Zdigits2 (Zpos ms) + k) with (Zdigits2 (Zpos ma) - 1 + (ea - es - e')) in Hms by lia.
    lia. }
  destruct (bra_Rq (xorb sa ss) m' (Zpos ms) e' ltac:(lia) ltac:(lia) He')
    as [HE Hs].
  split; [|done]. rewrite HE. f_equal.
  rewrite emin_value.
  pose proof (pow2_pos (Z.max (e' - -1074) 0) ltac:(lia)).
  pose proof (pow2_pos (Z.max (-1074 - e') 0) ltac:(lia)).
  pose proof (pow2_pos (es - -1074) ltac:(lia)).
  pose proof (pow2_pos (ea - -1074) ltac:(lia)).
  pose proof (pow2_pos 1074 ltac:(lia)).
  apply Rq_eq;
    [apply Z.mul_nonneg_nonneg; lia
    |apply Z.mul_nonneg_nonneg; [apply Z.mul_nonneg_nonneg|]; lia
    |apply Z.mul_pos_pos; lia
    |apply Z.mul_pos_pos; lia|].
  unfold m'.
  replace (Zpos ma * 2 ^ (ea - es - e') * 2 ^ Z.max (e' - -1074) 0 *
           (Zpos ms * 2 ^ (es - -1074)))
    with (Zpos ma * Zpos ms *
          (2 ^ (ea - es - e') * 2 ^ Z.max (e' - -1074) 0 * 2 ^ (es - -1074)))
    by lia.
  replace (Zpos ma * 2 ^ (ea - -1074) * 2 ^ 1074 *
           (Zpos ms * 2 ^ Z.max (-1074 - e') 0))
    with (Zpos ma * Zpos ms *
          (2 ^ (ea - -1074) * 2 ^ 1074 * 2 ^ Z.max (-1074 - e') 0))
    by lia.
  rewrite <- !pow2_add by lia. do 2 f_equal. lia.
Qed.

(** *** The order of the numbers and their values *)

Lemma canonical_lt s1 m1 e1 s2 m2 e2 :
  valid_binary (S754_finite s1 m1 e1) = true ->
  valid_binary (S754_finite s2 m2 e2) = true ->
  e1 < e2 ->
  Zpos m1 * 2 ^ (e1 - emin) < Zpos m2 * 2 ^ (e2 - emin).
Proof.
  intros V1 V2 Hlt. rewrite emin_value.
  apply valid_finite in V1 as (He1 & Hd1 & _).
  apply valid_finite in V2 as (He2 & _ & Hd2 & _).
  specialize (Hd2 ltac:(lia)).
  pose proof (Zdigits2_bounds (Zpos m1) ltac:(lia)) as [_ H1].
  pose proof (Zdigits2_bounds (Zpos m2) ltac:(lia)) as [H2 _].
  rewrite Hd2 in H2.
  pose proof (pow2_le (Zdigits2 (Zpos m1)) 53
    ltac:(pose proof (Zdigits2_nonneg (Zpos m1)); lia)).
  pose proof (mul_pow2_lt (Zpos m1) 53 (e1 - -1074) ltac:(lia) ltac:(lia) ltac:(lia)).
  pose proof (mul_pow2_ge (Zpos m2) (53 - 1) (e2 - -1074) ltac:(lia) ltac:(lia) H2).
  pose proof (pow2_le (53 + (e1 - -1074)) (53 - 1 + (e2 - -1074)) ltac:(lia)).
  lia.
Qed.

Lemma SFleb_IV x y :
  valid_binary x = true -> valid_binary y = true ->
  SFfin x = true -> SFfin y = true ->
  SFleb x y = true -> IV x <= IV y.
Proof.
  intros Vx Vy Fx Fy.
  destruct x as [sx|sx| |sx mx ex], y as [sy|sy| |sy my ey]; try done.
  - pose proof (Emag_finite_bounds _ _ _ Vy) as B. simpl in B |- *.
    destruct sy; [done|lia].
  - pose proof (Emag_finite_bounds _ _ _ Vx) as B. simpl in B |- *.
    destruct sx; [lia|done].
  - pose proof (Emag_finite_bounds _ _ _ Vx) as Bx.
    pose proof (Emag_finite_bounds _ _ _ Vy) as By.
    pose proof (pow2_pos (ex - emin)
      ltac:(apply valid_finite in Vx; rewrite emin_value; lia)) as Px.
    unfold SFleb, SFcompare. simpl in Bx, By |- *.
    change (Pos.compare_cont Eq mx my) with (Pos.compare mx my).
    destruct sx, sy; try done; try lia.
    + destruct (Z.compare_spec ex ey) as [E|E|E]; simpl; try done.
      * subst ey. destruct (Pos.compare_spec mx my); simpl; try done; nia.
      * intros _. pose proof (canonical_lt _ _ _ _ _ _ Vy Vx E). lia.
    + destruct (Z.compare_spec ex ey) as [E|E|E]; simpl; try done.
      * subst ey. destruct (Pos.compare_spec mx my); simpl; try done; nia.
      * intros _. pose proof (canonical_lt _ _ _ _ _ _ Vx Vy E). lia.
Qed.

(** *** The conversion to [int] *)

Lemma trunc_E m e :
  -1074 <= e ->
  match e with
  | 0 => Zpos m
  | Zpos _ => Z.shiftl (Zpos m) e
  | Zneg p => Z.shiftr (Zpos m) (Zpos p)
  end = Zpos m * 2 ^ (e - emin) / 2 ^ 1074.
Proof.
  rewrite emin_value. intros He.
  pose proof (pow2_pos 1074 ltac:(lia)) as P.
  destruct e as [|p|p].
  - change (0 - -1074) with 1074. by rewrite Z.div_mul by lia.
  - rewrite Z.shiftl_mul_pow2 by lia.
    replace (Zpos p - -1074) with (Zpos p + 1074) by lia.
    rewrite pow2_add, Z.mul_assoc, Z.div_mul by lia. done.
  - rewrite Z.shiftr_div_pow2 by lia.
    assert (E : 2 ^ 1074 = 2 ^ Zpos p * 2 ^ (Zneg p - -1074)).
    { rewrite <- pow2_add by lia. f_equal. lia. }
    rewrite E.
    pose proof (pow2_pos (Zpos p) ltac:(lia)).
    pose proof (pow2_pos (Zneg p - -1074) ltac:(lia)).
    rewrite Z.div_mul_cancel_r by lia. done.
Qed.

Lemma int_of_float64_finite f s m e :
  Prim2SF f = S754_finite s m e ->
  int_of_float64 f =
    if decide (int_min <= (if s then - (Emag (Prim2SF f) / 2 ^ 1074)
                           else Emag (Prim2SF f) / 2 ^ 1074) <= int_max)
    then (if s then - (Emag (Prim2SF f) / 2 ^ 1074)
          else Emag (Prim2SF f) / 2 ^ 1074)
    else int_min.
Proof.
  intros E. pose proof (Prim2SF_valid f) as V. rewrite E in V.
  apply valid_finite in V as (He & _).
  unfold int_of_float64. rewrite E. simpl Emag.
  by rewrite trunc_E by lia.
Qed.

Lemma int_of_float64_nonneg f :
  0 <= int_of_float64 f -> SFfin (Prim2SF f) = true.
Proof.
  intros H. destruct (SFfin (Prim2SF f)) eqn:E; [done|]. exfalso.
  rewrite int_of_float64_indefinite in H by (unfold finite64; by destruct (Prim2SF f)).
  revert H. unfold int_min. change (- 2 ^ 63) with (-9223372036854775808). lia.
Qed.

(** *** The cell of a point in the box *)

Lemma SFdiv_fin l s :
  SFfin (SFdiv prec emax l s) = true ->
  SFfin l = true /\
  match s with
  | S754_infinity _ | S754_finite _ _ _ => True
  | _ => False
  end.
Proof.
  destruct l as [sl|sl| |sl ml el], s as [ss|ss| |ss ms es];
    try discriminate; done.
Qed.

Lemma SFsub_fin a b :
  SFfin (SFsub prec emax a b) = true -> SFfin a = true /\ SFfin b = true.
Proof.
  destruct a as [sa|sa| |sa ma ea], b as [sb|sb| |sb mb eb]; try done;
    try (by destruct sa, sb).
Qed.

Lemma SFleb_fin a x b :
  SFleb a x = true -> SFleb x b = true ->
  SFfin a = true -> SFfin b = true -> SFfin x = true.
Proof.
  destruct x as [sx|sx| |sx mx ex]; try done.
  - destruct sx.
    + destruct a as [sa|sa| |sa ma ea]; try done; by destruct sa.
    + intros _. destruct b as [sb|sb| |sb mb eb]; try done; by destruct sb.
Qed.

Lemma Emag_nonneg x : 0 <= Emag x.
Proof.
  pose proof INF_pos.
  destruct x as [s|s| |s m e]; simpl; lia.
Qed.

(** The differences [x - xi] and [xf - xi] for [xi <= x <= xf]. *)
Lemma sub_in_box (xi x xf : float) :
  (xi <=? x)%float = true -> (x <=? xf)%float = true ->
  SFfin (Prim2SF (xf - xi)) = true ->
  SFfin (Prim2SF (x - xi)) = true /\
  not_below_zero (Prim2SF (x - xi)) /\
  not_below_zero (Prim2SF (xf - xi)) /\
  Emag (Prim2SF (x - xi)) <= Emag (Prim2SF (xf - xi)).
Proof.
  rewrite !leb_spec. intros H1 H2 FL.
  pose proof (Prim2SF_valid xi) as Vi.
  pose proof (Prim2SF_valid x) as Vx.
  pose proof (Prim2SF_valid xf) as Vf.
  pose proof (Prim2SF_valid (xf - xi)) as VL.
  pose proof (Emag_valid_lt_INF _ VL FL) as BL.
  rewrite sub_spec in FL, VL, BL. rewrite !sub_spec. unfold SF64sub in *.
  destruct (SFsub_fin _ _ FL) as [Ff Fi].
  pose proof (SFleb_fin _ _ _ H1 H2 Fi Ff) as Fx.
  pose proof (SFleb_IV _ _ Vi Vx Fi Fx H1) as I1.
  pose proof (SFleb_IV _ _ Vx Vf Fx Ff H2) as I2.
  destruct (SFsub_E _ _ Vx Vi Fx Fi I1) as [ED ND].
  destruct (SFsub_E _ _ Vf Vi Ff Fi ltac:(lia)) as [EL NL].
  assert (Hle : Emag (SFsub prec emax (Prim2SF x) (Prim2SF xi))
                <= Emag (SFsub prec emax (Prim2SF xf) (Prim2SF xi))).
  { rewrite ED, EL. apply Z.min_le_compat_r. apply Rq_mono; lia. }
  repeat split; try done.
  destruct (SFsub prec emax (Prim2SF x) (Prim2SF xi)) as [s|s| |s m e];
    try done.
  simpl in Hle. lia.
Qed.

(** C9, the cell coordinate: for [xi <= x <= xf] and a bin count
    [int((xf - xi) / s) + 1] of one at least, the cell coordinate
    [int((x - xi) / s)] is not negative and below the bin count.  The
    subtraction and the division round, and rounding keeps the order. *)
Lemma cell_in_range (xi x xf s : float) :
  (xi <=? x)%float = true -> (x <=? xf)%float = true ->
  0 <= int_of_float64 ((xf - xi) / s) ->
  0 <= int_of_float64 ((x - xi) / s) <= int_of_float64 ((xf - xi) / s).
Proof.
  intros H1 H2 Hv.
  pose proof (int_of_float64_nonneg _ Hv) as FQL.
  pose proof (Prim2SF_valid ((xf - xi) / s)) as VQL.
  pose proof (Prim2SF_valid ((x - xi) / s)) as VQD.
  pose proof (Emag_valid_lt_INF _ VQL FQL) as BQL.
  pose proof (Prim2SF_valid (xf - xi)) as VL.
  pose proof (Prim2SF_valid (x - xi)) as VD.
  pose proof (Prim2SF_valid s) as VS.
  pose proof FQL as FQL'. rewrite div_spec in FQL'.
  apply SFdiv_fin in FQL' as [FL HS].
  destruct (sub_in_box xi x xf H1 H2 FL) as (FD & ND & NL & Hle).
  assert (Ed : Prim2SF ((x - xi) / s)
               = SFdiv prec emax (Prim2SF (x - xi)) (Prim2SF s))
    by apply div_spec.
  assert (El : Prim2SF ((xf - xi) / s)
               = SFdiv prec emax (Prim2SF (xf - xi)) (Prim2SF s))
    by apply div_spec.
  destruct (Prim2SF s) as [ss|ss| |ss ms es] eqn:ES; try done.
  { (* an infinite divisor *)
    assert (exists sg, Prim2SF ((x - xi) / s) = S754_zero sg) as [sg Ez].
    { rewrite Ed. destruct (Prim2SF (x - xi)); try done; simpl; eauto. }
    rewrite (int_of_float64_zero _ _ Ez). lia. }
  destruct (Prim2SF (x - xi)) as [sd|sd| |sd md ed] eqn:ED; try done.
  { rewrite (int_of_float64_zero _ (xorb sd ss)) by (by rewrite Ed). lia. }
  simpl in ND. subst sd.
  pose proof (Emag_finite_bounds _ _ _ VD) as [BD _].
  destruct (Prim2SF (xf - xi)) as [sl|sl| |sl ml el] eqn:EL; try done.
  { simpl in Hle, BD. lia. }
  simpl in NL. subst sl.
  destruct (SFdiv_E false md ed ss ms es VD VS) as [EQD SD].
  destruct (SFdiv_E false ml el ss ms es VL VS) as [EQL SL].
  rewrite <- Ed in EQD, SD. rewrite <- El in EQL, SL.
  pose proof (Emag_finite_bounds _ _ _ VS) as [BS _].
  assert (Hq : Emag (Prim2SF ((x - xi) / s)) <= Emag (Prim2SF ((xf - xi) / s))).
  { rewrite EQD, EQL. apply Z.min_le_compat_r.
    pose proof (pow2_pos 1074 ltac:(lia)).
    apply Rq_mono; [apply Z.mul_nonneg_nonneg; lia|lia|lia|].
    apply Z.mul_le_mono_nonneg_r; [lia|].
    apply Z.mul_le_mono_nonneg_r; lia. }
  pose proof (pow2_pos 1074 ltac:(lia)) as P.
  pose proof (Z.div_le_mono _ _ (2 ^ 1074) P Hq) as HT.
  pose proof (Z.div_pos _ (2 ^ 1074) (Emag_nonneg (Prim2SF ((x - xi) / s))) P) as HT0.
  simpl xorb in SD, SL.
  destruct (Prim2SF ((x - xi) / s)) as [sq|sq| |sq mq eq] eqn:EQd.
  - rewrite (int_of_float64_zero _ sq) by done. lia.
  - simpl in Hq. lia.
  - done.
  - simpl in SD. subst sq.
    pose proof (Emag_finite_bounds _ _ _ VQD) as [BQD _].
    destruct (Prim2SF ((xf - xi) / s)) as [sv|sv| |sv mv ev] eqn:EQl; try done.
    { simpl in Hq, BQD. lia. }
    simpl in SL. subst sv.
    rewrite (int_of_float64_finite _ _ _ _ EQd) in *.
    rewrite (int_of_float64_finite _ _ _ _ EQl) in *.
    rewrite EQd, EQl in *.
    revert Hv. unfold int_min, int_max.
    change (2 ^ 63) with 9223372036854775808.
    destruct ss; repeat case_decide; lia.
Qed.

(** ** The cells of a grid as [Init] built it *)

Lemma SFleb_not_ltb x y : SFleb x y = true -> SFltb y x = false.
Proof.
  unfold SFleb, SFltb.
  destruct x as [sx|sx| |sx mx ex], y as [sy|sy| |sy my ey]; simpl;
    try done; try destruct sx; try destruct sy; simpl; try done;
    change (Pos.compare_cont Eq mx my) with (Pos.compare mx my);
    change (Pos.compare_cont Eq my mx) with (Pos.compare my mx);
    destruct (Z.compare_spec ex ey), (Z.compare_spec ey ex); simpl;
    try done; try lia;
    destruct (Pos.compare_spec mx my), (Pos.compare_spec my mx); simpl;
    try done; lia.
Qed.

Lemma leb_not_ltb a b : (a <=? b)%float = true -> (b <? a)%float = false.
Proof. rewrite leb_spec, ltb_spec. apply SFleb_not_ltb. Qed.

(** [inside], coordinate by coordinate. *)
Lemma inside_true o x :
  inside o x = true <->
  forall k, (k < Z.to_nat (Ndim o))%nat ->
    exists xk xik xfk, x !! k = Some xk /\ Xi o !! k = Some xik /\
      Xf o !! k = Some xfk /\
      (xik <=? xk)%float = true /\ (xk <=? xfk)%float = true.
Proof.
  unfold inside, dims. rewrite forallb_forall. split.
  - intros H k Hk. specialize (H k).
    destruct (x !! k) as [xk|], (Xi o !! k) as [xik|], (Xf o !! k) as [xfk|];
      try (discriminate H; apply in_seq; lia).
    exists xk, xik, xfk. repeat split; auto;
      [eapply proj1|eapply proj2]; apply andb_true_iff, H, in_seq; lia.
  - intros H k Hk. apply in_seq in Hk.
    destruct (H k) as (xk & xik & xfk & -> & -> & -> & -> & ->); [lia|]. done.
Qed.

(** A point inside the box passes the range test of [CalcIdx]. *)
Lemma inside_in_box o x : inside o x = true -> in_box o x = true.
Proof.
  rewrite inside_true, in_box_true. intros H k Hk.
  destruct (H k Hk) as (xk & xik & xfk & E1 & E2 & E3 & L1 & L2).
  exists xk, xik, xfk. repeat split; auto.
  unfold outside. by rewrite (leb_not_ltb _ _ L1), (leb_not_ltb _ _ L2).
Qed.

(** Until [Clear] is called the box lengths and the bin counts are those
    [Init] computed. *)
Lemma initialized_counts o :
  initialized o ->
  L o = box_L (Xi o) (Xf o) /\ N o = box_N (L o) (S o).
Proof.
  induction 1 as [o0 xi xf ndiv o H | o x id o' e _ IH H | o x o' id _ IH H].
  - apply Init_Ok_inv in H as (_ & -> & -> & HL & _ & HN & _). done.
  - assert (Hg : geometry o' = geometry o).
    { destruct e as [err|].
      - by apply Append_error_inv in H as (Hg & _).
      - by apply Append_Ok_entries in H as (_ & _ & _ & _ & Hg & _). }
    unfold geometry in Hg.
    replace (L o') with (L o) by congruence.
    replace (Xi o') with (Xi o) by congruence.
    replace (Xf o') with (Xf o) by congruence.
    replace (N o') with (N o) by congruence.
    by replace (S o') with (S o) by congruence.
  - apply Find_Ok_entries in H as (Hg & _). unfold geometry in Hg.
    replace (L o') with (L o) by congruence.
    replace (Xi o') with (Xi o) by congruence.
    replace (Xf o') with (Xf o) by congruence.
    replace (N o') with (N o) by congruence.
    by replace (S o') with (S o) by congruence.
Qed.

(** The cell coordinate of a point inside the box, in a dimension with
    one bin at least. *)
Lemma cell_in_count o x k c n :
  initialized o -> inside o x = true ->
  cell o x k = Some c -> N o !! k = Some n -> 1 <= n ->
  0 <= c < n.
Proof.
  intros HI Hin Hc Hn H1.
  pose proof (reachable_wf _ (initialized_reachable _ HI)) as Hwf.
  destruct (wf_lengths o Hwf) as (_ & _ & _ & _ & Ln & _).
  destruct (initialized_counts o HI) as [EL EN].
  assert (Hk : (k < Z.to_nat (Ndim o))%nat).
  { apply lookup_lt_Some in Hn. lia. }
  destruct (proj1 (inside_true o x) Hin k Hk)
    as (xk & xik & xfk & Ex & Ei & Ef & L1 & L2).
  unfold cell in Hc. rewrite Ex, Ei in Hc. simpl in Hc.
  destruct (S o !! k) as [sk|] eqn:Es; [|done]. simpl in Hc.
  injection Hc as <-.
  rewrite EN in Hn. unfold box_N in Hn.
  apply lookup_zip_with_Some in Hn as (lk & sk' & -> & El & Es').
  rewrite Es in Es'. injection Es' as <-.
  rewrite EL in El. unfold box_L in El.
  apply lookup_zip_with_Some in El as (b & a & -> & Eb & Ea).
  rewrite Ef in Eb. injection Eb as <-.
  rewrite Ei in Ea. injection Ea as <-.
  destruct (count_pred (int_of_float64 ((xfk - xik) / sk))
              (int_add (int_of_float64 ((xfk - xik) / sk)) 1))
    as [Ec Hc0]; [apply int_of_float64_range|done|done|].
  pose proof (cell_in_range xik xk xfk sk L1 L2 Hc0). lia.
Qed.

(** C9.  On a grid that was initialized and not cleared since, with one
    bin at least in every dimension and bin counts that multiply up
    without overflowing [int]: for every point inside the box
    ([Xi[k] <= x[k] <= Xf[k]] in every dimension), the flat index [CalcIdx]
    returns is in [0, len(All)), and [Append] succeeds: it does not report
    the bin-index error.  That the cell coordinates lie in [0, N[k]) is
    derived from the range test: the subtraction and the division of
    [CalcIdx] round, and rounding keeps the order. *)
Theorem fresh_grid_index_in_table o x :
  initialized o ->
  inside o x = true ->
  (forall n, n ∈ N o -> 1 <= n) ->
  Zprod (N o) <= int_max ->
  exists o1 idx,
    CalcIdx o x = Ok (o1, idx) /\
    0 <= idx < Z.of_nat (length (All o)) /\
    forall id, exists o', Append o x id = Ok (o', None).
Proof.
  intros HI Hin Hpos Hmax.
  pose proof (inside_in_box _ _ Hin) as Hb.
  assert (Hc : forall k c n,
            cell o x k = Some c -> N o !! k = Some n -> 0 <= c < n).
  { intros k c n Ec En. eapply cell_in_count; eauto.
    apply Hpos. by eapply list_elem_of_lookup_2. }
  pose proof (reachable_wf _ (initialized_reachable _ HI)) as Hwf.
  pose proof (initialized_table _ HI) as HA.
  destruct (CalcIdx_in_box o x Hwf Hb) as (o1 & idx & HC & Hf).
  exists o1, idx. split; [done|].
  assert (Hidx : 0 <= idx < Z.of_nat (length (All o))); [|split; [done|]].
  2:{ intros id. by eapply Append_in_table. }
  rewrite HA.
  destruct (wf_lengths o Hwf) as (_ & _ & _ & _ & Ln & _).
  destruct Hwf as [Hd _ _ _ _ _ _].
  unfold flat_index in Hf.
  destruct (cell o x 0) as [c0|] eqn:C0; [|done].
  destruct (cell o x 1) as [c1|] eqn:C1; [|done]. simpl in Hf.
  destruct (N o) as [|n0 [|n1 [|n2 [|]]]] eqn:EN; simpl in Ln, Hf;
    try (exfalso; lia).
  - destruct (Hc 0%nat c0 n0) as [? ?]; [done|done|].
    destruct (Hc 1%nat c1 n1) as [? ?]; [done|done|].
    case_decide; [lia|]. injection Hf as <-.
    rewrite nbins_of_Zprod; [| |done].
    2:{ intros k Hk. repeat (apply elem_of_cons in Hk as [->|Hk]; [lia|]).
        by apply elem_of_nil in Hk. }
    simpl in *. unfold int_add, int_mul, int_max in *.
    change (2 ^ 63) with 9223372036854775808 in *.
    assert (A0 : 0 <= c1 * n0) by (apply Z.mul_nonneg_nonneg; lia).
    assert (A1 : c1 * n0 <= (n1 - 1) * n0)
      by (apply Z.mul_le_mono_nonneg_r; lia).
    rewrite (wrap_id (c1 * n0)) by in_range.
    rewrite wrap_id by in_range. lia.
  - destruct (Hc 0%nat c0 n0) as [? ?]; [done|done|].
    destruct (Hc 1%nat c1 n1) as [? ?]; [done|done|].
    case_decide; [|lia].
    destruct (cell o x 2) as [c2|] eqn:C2; [|done]. simpl in Hf.
    destruct (Hc 2%nat c2 n2) as [? ?]; [done|done|].
    injection Hf as <-.
    rewrite nbins_of_Zprod; [| |done].
    2:{ intros k Hk. repeat (apply elem_of_cons in Hk as [->|Hk]; [lia|]).
        by apply elem_of_nil in Hk. }
    simpl in *. unfold int_add, int_mul, int_max in *.
    change (2 ^ 63) with 9223372036854775808 in *.
    assert (A0 : 0 <= c1 * n0) by (apply Z.mul_nonneg_nonneg; lia).
    assert (A1 : c1 * n0 <= (n1 - 1) * n0)
      by (apply Z.mul_le_mono_nonneg_r; lia).
    assert (A2 : 0 <= c2 * n0) by (apply Z.mul_nonneg_nonneg; lia).
    assert (A3 : c2 * n0 <= (n2 - 1) * n0)
      by (apply Z.mul_le_mono_nonneg_r; lia).
    assert (A4 : 0 <= c2 * n0 * n1) by (apply Z.mul_nonneg_nonneg; lia).
    assert (A5 : c2 * n0 * n1 <= (n2 - 1) * n0 * n1)
      by (apply Z.mul_le_mono_nonneg_r; lia).
    assert (A6 : 0 <= (n2 - 1) * n0) by (apply Z.mul_nonneg_nonneg; lia).
    assert (A7 : 0 <= (n2 - 1) * n0 * n1) by (apply Z.mul_nonneg_nonneg; lia).
    assert (A8 : (n2 - 1) * n0 * 1 <= (n2 - 1) * n0 * n1)
      by (apply Z.mul_le_mono_nonneg_l; lia).
    rewrite (wrap_id (c1 * n0)) by in_range.
    rewrite (wrap_id (c2 * n0)) by in_range.
    rewrite (wrap_id (c2 * n0 * n1)) by in_range.
    rewrite (wrap_id (c0 + c1 * n0)) by in_range.
    rewrite wrap_id by in_range. lia.
Qed.


(** C7.  On a grid as [Init] returns it from corners with [Xi[k] < Xf[k]],
    with bin counts [N[k] >= 1] whose product does not overflow [int]:
    [CalcIdx] of the lower corner is 0, [CalcIdx] of the upper corner is
    the product of the counts minus one (the last bin of the table), and
    the table has that many slots. *)
Theorem corner_indices o0 xi xf ndiv o :
  Init o0 xi xf ndiv = Ok (o, None) ->
  (forall k a b, xi !! k = Some a -> xf !! k = Some b -> (a <? b)%float = true) ->
  (forall k n, N o !! k = Some n -> 1 <= n) ->
  Zprod (N o) <= int_max ->
  (exists o1, CalcIdx o xi = Ok (o1, 0)) /\
  (exists o2, CalcIdx o xf = Ok (o2, Zprod (N o) - 1)) /\
  Z.of_nat (length (All o)) = Zprod (N o).
Proof.
  intros HI Hlt HN Hmax.
  apply Init_Ok_inv in HI as (Hwf & EXi & EXf & EL & ES & EN & Hnb & HA & _).
  assert (Hbi : in_box o xi = true).
  { apply in_box_true. intros k Hk.
    destruct (wf_lengths o Hwf) as (_ & Li & Lf & _).
    destruct (lookup_lt_is_Some_2 (Xi o) k) as [a Ea]; [lia|].
    destruct (lookup_lt_is_Some_2 (Xf o) k) as [b Eb]; [lia|].
    pose proof Ea as Ea'. pose proof Eb as Eb'.
    rewrite EXi in Ea'. rewrite EXf in Eb'. pose proof (Hlt k a b Ea' Eb') as C.
    exists a, a, b. repeat split; auto.
    unfold outside. by rewrite ltb_irrefl, (ltb_asym _ _ C). }
  assert (Hbf : in_box o xf = true).
  { apply in_box_true. intros k Hk.
    destruct (wf_lengths o Hwf) as (_ & Li & Lf & _).
    destruct (lookup_lt_is_Some_2 (Xi o) k) as [a Ea]; [lia|].
    destruct (lookup_lt_is_Some_2 (Xf o) k) as [b Eb]; [lia|].
    pose proof Ea as Ea'. pose proof Eb as Eb'.
    rewrite EXi in Ea'. rewrite EXf in Eb'. pose proof (Hlt k a b Ea' Eb') as C.
    exists b, a, b. repeat split; auto.
    unfold outside. by rewrite ltb_irrefl, (ltb_asym _ _ C). }
  destruct (CalcIdx_in_box o xi Hwf Hbi) as (o1 & idx1 & HC1 & Hf1).
  destruct (CalcIdx_in_box o xf Hwf Hbf) as (o2 & idx2 & HC2 & Hf2).
  assert (Hnbins : nbins_of (N o) = Zprod (N o)).
  { apply nbins_of_Zprod; [|done]. intros n Hn.
    apply list_elem_of_lookup_1 in Hn as [k Hk]. by eapply HN. }
  (* the cells of the two corners, dimension by dimension *)
  assert (Hcell : forall k n, N o !! k = Some n ->
            cell o xi k = Some 0 /\ cell o xf k = Some (n - 1) /\ 1 <= n).
  { intros k n Hn. pose proof (HN k n Hn) as Hn1.
    rewrite EN in Hn. unfold box_N in Hn. apply lookup_zip_with_Some in Hn
      as (l & s & -> & El & Es).
    rewrite EL in El. unfold box_L in El. apply lookup_zip_with_Some in El
      as (b & a & -> & Eb & Ea).
    unfold cell. rewrite EXi, Ea, Eb, Es. simpl.
    rewrite (cell_lower_corner a b s) by eauto.
    destruct (count_pred (int_of_float64 ((b - a) / s)) _
                (int_of_float64_range _) eq_refl Hn1) as [E _].
    rewrite E at 1. done. }
  rewrite HA, length_replicate, Z2Nat.id, Hnbins by done.
  destruct (wf_lengths o Hwf) as (_ & _ & _ & _ & Ln & _).
  destruct Hwf as [Hd _ _ _ _ _ _].
  unfold flat_index in Hf1, Hf2.
  destruct (N o) as [|n0 [|n1 [|n2 [|]]]] eqn:ENo; simpl in Ln;
    try (exfalso; lia).
  - destruct (Hcell 0%nat n0) as (C0 & D0 & ?); [done|].
    destruct (Hcell 1%nat n1) as (C1 & D1 & ?); [done|].
    rewrite C0, C1 in Hf1. rewrite D0, D1 in Hf2. simpl in Hf1, Hf2.
    case_decide; [lia|]. injection Hf1 as <-. injection Hf2 as <-.
    simpl in *. unfold int_add, int_mul, int_max in *.
    change (2 ^ 63) with 9223372036854775808 in *.
    assert (A1 : 0 <= (n1 - 1) * n0) by (apply Z.mul_nonneg_nonneg; lia).
    rewrite (wrap_id ((n1 - 1) * n0)) in HC2 by in_range.
    rewrite (wrap_id (n0 - 1 + _)) in HC2 by in_range.
    rewrite Z.mul_0_l, (wrap_id 0), Z.add_0_l, (wrap_id 0) in HC1 by in_range.
    split; [eauto|]. split; [|lia].
    exists o2. rewrite HC2. do 2 f_equal. lia.
  - destruct (Hcell 0%nat n0) as (C0 & D0 & ?); [done|].
    destruct (Hcell 1%nat n1) as (C1 & D1 & ?); [done|].
    destruct (Hcell 2%nat n2) as (C2 & D2 & ?); [done|].
    rewrite C0, C1 in Hf1. rewrite D0, D1 in Hf2. simpl in Hf1, Hf2.
    case_decide; [|lia]. rewrite C2 in Hf1. rewrite D2 in Hf2.
    simpl in Hf1, Hf2. injection Hf1 as <-. injection Hf2 as <-.
    simpl in *. unfold int_add, int_mul, int_max in *.
    change (2 ^ 63) with 9223372036854775808 in *.
    assert (A1 : 0 <= (n1 - 1) * n0) by (apply Z.mul_nonneg_nonneg; lia).
    assert (A2 : 0 <= (n2 - 1) * n0) by (apply Z.mul_nonneg_nonneg; lia).
    assert (A3 : 0 <= (n2 - 1) * n0 * n1) by (apply Z.mul_nonneg_nonneg; lia).
    assert (A4 : (n2 - 1) * n0 * 1 <= (n2 - 1) * n0 * n1)
      by (apply Z.mul_le_mono_nonneg_l; lia).
    assert (A5 : 0 <= (n1 - 1) * n0 * (n2 - 1))
      by (apply Z.mul_nonneg_nonneg; lia).
    rewrite (wrap_id ((n1 - 1) * n0)) in HC2 by in_range.
    rewrite (wrap_id ((n2 - 1) * n0)) in HC2 by in_range.
    rewrite (wrap_id ((n2 - 1) * n0 * n1)) in HC2 by in_range.
    rewrite (wrap_id (n0 - 1 + _)) in HC2 by in_range.
    rewrite wrap_id in HC2 by in_range.
    rewrite !Z.mul_0_l, (wrap_id 0), Z.add_0_l, (wrap_id 0) in HC1 by in_range.
    split; [eauto|]. split; [|lia].
    exists o2. rewrite HC2. do 2 f_equal. lia.
Qed.

(** ** The two loops of [FindAlongSegment] *)

Ltac replay_binds :=
  repeat match goal with
         | H1 : ?r = Ok ?a, H2 : ?r = Ok ?b |- _ =>
             rewrite H1 in H2; injection H2 as <-
         end;
  repeat match goal with
         | Hx : ?r = Ok _ |- context [?r ≫= _] => rewrite Hx; simpl
         end.

Section SegmentSearch.

Variable D : Point -> Point -> Point -> float -> bool -> float.
Variable I : Point -> list float -> list float -> float -> bool.

Lemma bin_center_z o nxy idx z p :
  z_inv o z -> bin_center o nxy idx z = Ok p ->
  bin_center o nxy idx 0 = Ok p /\ z_inv o (PZ p).
Proof.
  intros [H3| ->] H.
  - split; [|by left]. unfold bin_center in *.
    repeat inv_bind H. rewrite decide_True in H by done. repeat inv_bind H.
    replay_binds. rewrite decide_True by done. replay_binds. done.
  - split; [done|]. unfold bin_center in H. repeat inv_bind H.
    case_decide; [by left|]. injection H as <-. by right.
Qed.

Lemma entry_point_z o e z p :
  z_inv o z -> entry_point o e z = Ok p ->
  entry_point o e 0 = Ok p /\ z_inv o (PZ p).
Proof.
  intros [H3| ->] H.
  - split; [|by left]. unfold entry_point in *.
    repeat inv_bind H. rewrite decide_True in H by done. repeat inv_bind H.
    replay_binds. rewrite decide_True by done. replay_binds. done.
  - split; [done|]. unfold entry_point in H. repeat inv_bind H.
    case_decide; [by left|]. injection H as <-. by right.
Qed.

Lemma select_bins_spec o pi pf tol btol nxy bins : forall idx z sbins sbins' z',
  z_inv o z ->
  select_bins D o pi pf tol btol nxy idx bins z sbins = Ok (sbins', z') ->
  z_inv o z' /\
  forall b, b ∈ sbins' <->
    b ∈ sbins \/
    exists j, bins !! j = Some (Some b) /\
      near_segment D o pi pf tol btol nxy (idx + j) = true.
Proof.
  induction bins as [|[bin|] bins IH]; intros idx z sbins sbins' z' Hz H; simpl in H.
  - injection H as <- <-. split; [done|]. intros b. split; [by left|].
    intros [?|(j & Hj & _)]; [done|]. by rewrite lookup_nil in Hj.
  - inv_bind H. destruct (bin_center_z _ _ _ _ _ Hz E) as [E0 Hz'].
    apply IH in H as [Hz'' Hb]; [|done]. split; [done|].
    intros b. rewrite Hb. clear Hb. split.
    + intros [Hin|(j & Hj & Hn)].
      * destruct (D v pi pf tol false <=? btol)%float eqn:C; [|by left].
        apply elem_of_app in Hin as [?|Hin]; [by left|].
        apply list_elem_of_singleton in Hin as ->. right. exists 0%nat.
        split; [done|]. unfold near_segment. rewrite Nat.add_0_r, E0. done.
      * right. exists (Datatypes.S j). split; [done|].
        by rewrite Nat.add_succ_r.
    + intros [Hin|(j & Hj & Hn)].
      * left. destruct (D v pi pf tol false <=? btol)%float; [|done].
        apply elem_of_app. by left.
      * destruct j as [|j]; simpl in Hj.
        -- injection Hj as <-. left. unfold near_segment in Hn.
           rewrite Nat.add_0_r, E0 in Hn. rewrite Hn.
           apply elem_of_app. right. by apply list_elem_of_singleton.
        -- right. exists j. split; [done|]. by rewrite Nat.add_succ_r in Hn.
  - apply IH in H as [Hz'' Hb]; [|done]. split; [done|].
    intros b. rewrite Hb. clear Hb. split.
    + intros [?|(j & Hj & Hn)]; [by left|]. right. exists (Datatypes.S j).
      split; [done|]. by rewrite Nat.add_succ_r.
    + intros [?|(j & Hj & Hn)]; [by left|]. destruct j as [|j]; simpl in Hj; [done|].
      right. exists j. split; [done|]. by rewrite Nat.add_succ_r in Hn.
Qed.

Lemma scan_entries_spec o pi pf xi xf tol es : forall z ids ids' z',
  z_inv o z ->
  scan_entries D I o pi pf xi xf tol es z ids = Ok (ids', z') ->
  z_inv o z' /\
  forall id, id ∈ ids' <->
    id ∈ ids \/
    exists e, e ∈ es /\ Id e = id /\
      entry_passes D I o pi pf xi xf tol e = true.
Proof.
  induction es as [|e es IH]; intros z ids ids' z' Hz H; simpl in H.
  - injection H as <- <-. split; [done|]. intros id. split; [by left|].
    intros [?|(e & He & _)]; [done|]. by apply elem_of_nil in He.
  - inv_bind H. destruct (entry_point_z _ _ _ _ Hz E) as [E0 Hz'].
    apply IH in H as [Hz'' Hb]; [|done]. split; [done|].
    assert (Hp : entry_passes D I o pi pf xi xf tol e =
                 (D v pi pf tol false <=? tol)%float && I v xi xf tol)
      by (unfold entry_passes; by rewrite E0).
    intros id. rewrite Hb. clear Hb. split.
    + intros [Hin|(e' & He' & Hid & Hpass)].
      * destruct (D v pi pf tol false <=? tol)%float eqn:C1; [|by left].
        destruct (I v xi xf tol) eqn:C2; [|by left].
        apply elem_of_app in Hin as [?|Hin]; [by left|].
        apply list_elem_of_singleton in Hin as ->. right. exists e.
        split; [by left|]. split; [done|]. by rewrite Hp.
      * right. exists e'. split; [by right|done].
    + intros [Hin|(e' & He' & Hid & Hpass)].
      * left. destruct (D v pi pf tol false <=? tol)%float; [|done].
        destruct (I v xi xf tol); [|done]. apply elem_of_app. by left.
      * apply elem_of_cons in He' as [->|He'].
        -- left. rewrite Hp in Hpass. apply andb_true_iff in Hpass as [-> ->].
           apply elem_of_app. right. by apply list_elem_of_singleton.
        -- right. exists e'. done.
Qed.

Lemma scan_bins_spec o pi pf xi xf tol sbins : forall z ids ids',
  z_inv o z ->
  scan_bins D I o pi pf xi xf tol sbins z ids = Ok ids' ->
  forall id, id ∈ ids' <->
    id ∈ ids \/
    exists b e, b ∈ sbins /\ e ∈ Entries b /\ Id e = id /\
      entry_passes D I o pi pf xi xf tol e = true.
Proof.
  induction sbins as [|b sbins IH]; intros z ids ids' Hz H; simpl in H.
  - injection H as <-. intros id. split; [by left|].
    intros [?|(b & e & Hb & _)]; [done|]. by apply elem_of_nil in Hb.
  - inv_bind H. destruct v as [ids1 z1].
    apply scan_entries_spec in E as [Hz1 He]; [|done].
    intros id. rewrite (IH _ _ _ Hz1 H id), He. split.
    + intros [[?|(e & ? & ? & ?)]|(b' & e & ? & ?)]; [by left| |].
      * right. exists b, e. split; [by left|done].
      * right. exists b', e. split; [by right|done].
    + intros [?|(b' & e & Hb' & ? & ? & ?)]; [by left; left|].
      apply elem_of_cons in Hb' as [->|?].
      * left. right. by exists e.
      * right. by exists b', e.
Qed.

(** C3.  What [FindAlongSegment] returns.  The first loop selects the bins
    whose centre is within the bin tolerance [0.9 * lmax] of the segment, a
    bound in which the tolerance of the call has no part; an id is in the
    result exactly when it is the id of an entry that passes the fine test
    and sits in a selected bin.  An entry close to the segment is found
    only if the centre of its bin is within the bin tolerance. *)
Theorem FindAlongSegment_result o xi xf tol ids :
  FindAlongSegment D I o xi xf tol = Ok ids ->
  exists btol pi pf xi' xf' n0 n1,
    bin_tolerance o = Ok btol /\
    segment_ends o xi xf = Ok (pi, pf, xi', xf') /\
    N o !! 0%nat = Some n0 /\ N o !! 1%nat = Some n1 /\
    forall id, id ∈ ids <->
      exists slot bin e,
        All o !! slot = Some (Some bin) /\
        near_segment D o pi pf tol btol (int_mul n0 n1) slot = true /\
        e ∈ Entries bin /\ Id e = id /\
        entry_passes D I o pi pf xi' xf' tol e = true.
Proof.
  unfold FindAlongSegment. intros H.
  inv_bind H. rename v into btol. inv_bind H. destruct v as [[[pi pf] xi'] xf'].
  inv_bind H. rename v into n0. inv_bind H. rename v into n1.
  inv_bind H. destruct v as [sbins z].
  apply index_Ok in E1, E2.
  exists btol, pi, pf, xi', xf', n0, n1. repeat split; auto.
  - intros Hid.
    apply select_bins_spec in E3 as [Hz Hsel]; [|by right].
    apply (scan_bins_spec _ _ _ _ _ _ _ _ _ _ Hz H) in Hid
      as [Hid|(b & e & Hb & He & Hi & Hp)]; [by apply elem_of_nil in Hid|].
    apply Hsel in Hb as [Hb|(j & Hj & Hn)]; [by apply elem_of_nil in Hb|].
    exists j, b, e. done.
  - intros (slot & bin & e & Hs & Hn & He & Hi & Hp).
    apply select_bins_spec in E3 as [Hz Hsel]; [|by right].
    apply (scan_bins_spec _ _ _ _ _ _ _ _ _ _ Hz H). right.
    exists bin, e. split; [|done]. apply Hsel. right. by exists slot.
Qed.

End SegmentSearch.

(** ** [FindAlongSegment] returns on reachable grids *)

Lemma Append_table o x id o' e :
  Append o x id = Ok (o', e) -> N o' = N o /\ length (All o') = length (All o).
Proof.
  intros H. destruct e as [err|].
  - apply Append_error_inv in H as (Hg & -> & _). unfold geometry in Hg.
    split; [congruence|done].
  - apply Append_Ok_entries in H as (_ & _ & _ & _ & Hg & HA & _).
    unfold geometry in Hg. split; [congruence|done].
Qed.

Lemma reachable_table_ok o : reachable o -> table_ok o.
Proof.
  induction 1 as [o0 xi xf ndiv o H | o x id o' e _ IH H | o x o' id _ IH H | o _ IH].
  - apply Init_Ok_inv in H as (_ & _ & _ & _ & _ & EN & Hnb & HA & _).
    split.
    + rewrite EN. unfold box_N. apply Forall_forall. intros n Hn.
      apply list_elem_of_lookup_1 in Hn as [k Hk].
      apply lookup_zip_with_Some in Hk as (l & s & -> & _). apply wrap_range.
    + right. rewrite HA, length_replicate. lia.
  - apply Append_table in H as [EN EA]. destruct IH as [IH1 IH2].
    split; [by rewrite EN|]. rewrite EN, EA. destruct IH2 as [E|E]; [|by right].
    left. apply nil_length_inv. by rewrite EA, E.
  - apply Find_Ok_entries in H as (Hg & EA & _). destruct IH as [IH1 IH2].
    assert (EN : N o' = N o) by (unfold geometry in Hg; congruence).
    split; [by rewrite EN|]. rewrite EN, EA. destruct IH2 as [E|E]; [|by right].
    left. apply nil_length_inv. by rewrite EA, E.
  - destruct IH as [IH1 _]. split; [done|by left].
Qed.

Lemma int_mul_1_l n : is_int n -> int_mul 1 n = n.
Proof. intros H. unfold int_mul. rewrite Z.mul_1_l. by apply wrap_id. Qed.

Lemma int_mul_0_l n : int_mul 0 n = 0.
Proof. unfold int_mul. rewrite Z.mul_0_l. by apply wrap_id. Qed.

(** In a table with a slot, the divisors [N[0]] and [N[0]*N[1]] of the
    decoding are not zero. *)
Lemma divisors_nonzero o :
  wf o -> table_ok o -> All o ≠ [] ->
  exists n0 n1, N o !! 0%nat = Some n0 /\ N o !! 1%nat = Some n1 /\
    n0 ≠ 0 /\ int_mul n0 n1 ≠ 0.
Proof.
  intros Hwf [Hint [E|E]] Hne; [done|].
  destruct (wf_lengths o Hwf) as (_ & _ & _ & _ & Ln & _).
  destruct Hwf as [Hd _ _ _ _ _ _].
  assert (Hpos : nbins_of (N o) ≠ 0).
  { rewrite <- E. destruct (All o); [done|]. simpl. lia. }
  unfold nbins_of in Hpos.
  destruct (N o) as [|n0 [|n1 [|n2 [|]]]] eqn:EN; simpl in Ln; try (exfalso; lia);
    simpl in Hpos; exists n0, n1; (split; [done|]); (split; [done|]);
    apply Forall_cons in Hint as [I0 _]; rewrite int_mul_1_l in Hpos by done.
  - split; [|done]. intros ->. by rewrite int_mul_0_l in Hpos.
  - assert (int_mul n0 n1 ≠ 0) by (intros Hz; by rewrite Hz, int_mul_0_l in Hpos).
    split; [|done]. intros ->. by rewrite int_mul_0_l in *.
Qed.

Section SegmentTotal.

Variable D : Point -> Point -> Point -> float -> bool -> float.
Variable I : Point -> list float -> list float -> float -> bool.

Lemma bin_center_returns o nxy idx z n0 :
  wf o -> N o !! 0%nat = Some n0 -> n0 ≠ 0 -> nxy ≠ 0 ->
  exists p, bin_center o nxy idx z = Ok p.
Proof.
  intros Hwf Hn0 Hz0 Hz1.
  destruct (wf_lengths o Hwf) as (Hn & Li & _ & Ls & _ & _).
  destruct Hwf as [Hd _ _ _ _ _ _].
  destruct (lookup_lt_is_Some_2 (Xi o) 0%nat) as [a0 A0]; [lia|].
  destruct (lookup_lt_is_Some_2 (Xi o) 1%nat) as [a1 A1]; [lia|].
  destruct (lookup_lt_is_Some_2 (S o) 0%nat) as [s0 S0]; [lia|].
  destruct (lookup_lt_is_Some_2 (S o) 1%nat) as [s1 S1]; [lia|].
  unfold bin_center, int_rem, int_quo.
  destruct (decide (Ndim o = 3)) as [H3|H3].
  - destruct (lookup_lt_is_Some_2 (Xi o) 2%nat) as [a2 A2]; [lia|].
    destruct (lookup_lt_is_Some_2 (S o) 2%nat) as [s2 S2]; [lia|].
    repeat progress
      (rewrite ?decide_False by done;
       rewrite ?(index_lookup _ _ _ Hn0), ?(index_lookup _ _ _ A0),
         ?(index_lookup _ _ _ S0), ?(index_lookup _ _ _ A1),
         ?(index_lookup _ _ _ S1), ?(index_lookup _ _ _ A2),
         ?(index_lookup _ _ _ S2); simpl).
    eauto.
  - repeat progress
      (rewrite ?decide_False by done;
       rewrite ?(index_lookup _ _ _ Hn0), ?(index_lookup _ _ _ A0),
         ?(index_lookup _ _ _ S0), ?(index_lookup _ _ _ A1),
         ?(index_lookup _ _ _ S1); simpl).
    eauto.
Qed.

Lemma select_bins_returns o pi pf tol btol nxy n0 bins :
  wf o -> N o !! 0%nat = Some n0 -> n0 ≠ 0 -> nxy ≠ 0 ->
  forall idx z sbins,
  exists sbins' z',
    select_bins D o pi pf tol btol nxy idx bins z sbins = Ok (sbins', z') /\
    forall b, b ∈ sbins' -> b ∈ sbins \/ Some b ∈ bins.
Proof.
  intros Hwf Hn0 Hz0 Hz1.
  induction bins as [|[b|] bins IH]; intros idx z sbins; simpl.
  - exists sbins, z. split; [done|]. by left.
  - destruct (bin_center_returns o nxy (Z.of_nat idx) z n0) as [p ->]; auto.
    simpl.
    destruct (IH (Datatypes.S idx) (PZ p)
                (if (D p pi pf tol false <=? btol)%float then sbins ++ [b] else sbins))
      as (sbins' & z' & -> & Hs).
    exists sbins', z'. split; [done|]. intros b' Hb'.
    destruct (Hs b' Hb') as [Hin|Hin]; [|right; by right].
    destruct (D p pi pf tol false <=? btol)%float; [|by left].
    apply elem_of_app in Hin as [?|Hin]; [by left|].
    apply list_elem_of_singleton in Hin as ->. right. by left.
  - destruct (IH (Datatypes.S idx) z sbins) as (sbins' & z' & -> & Hs).
    exists sbins', z'. split; [done|]. intros b' Hb'.
    destruct (Hs b' Hb') as [Hin|Hin]; [by left|right; by right].
Qed.

Lemma scan_entries_returns o pi pf xi xf tol es :
  (forall e, e ∈ es -> (2 <= length (X e))%nat) ->
  forall z ids, exists r, scan_entries D I o pi pf xi xf tol es z ids = Ok r.
Proof.
  induction es as [|e es IH]; intros He z ids; simpl; [eauto|].
  assert (Hl : (2 <= length (X e))%nat) by (apply He; by left).
  destruct (lookup_lt_is_Some_2 (X e) 0%nat) as [x0 E0]; [lia|].
  destruct (lookup_lt_is_Some_2 (X e) 1%nat) as [x1 E1]; [lia|].
  unfold entry_point.
  rewrite (index_lookup _ _ _ E0). simpl. rewrite (index_lookup _ _ _ E1). simpl.
  case_decide; simpl; apply IH; intros e' He'; apply He; by right.
Qed.

Lemma scan_bins_returns o pi pf xi xf tol sbins :
  (forall b e, b ∈ sbins -> e ∈ Entries b -> (2 <= length (X e))%nat) ->
  forall z ids, exists r, scan_bins D I o pi pf xi xf tol sbins z ids = Ok r.
Proof.
  induction sbins as [|b sbins IH]; intros He z ids; simpl; [eauto|].
  destruct (scan_entries_returns o pi pf xi xf tol (Entries b)) with (z := z) (ids := ids)
    as [[ids' z'] ->].
  { intros e Hin. apply (He b); [by left|done]. }
  simpl. apply IH. intros b' e Hb' Hin. apply (He b'); [by right|done].
Qed.

(** [FindAlongSegment] returns when the slices have the lengths [Init]
    gives them, the divisors of the decoding are not zero where a bin is
    decoded, and every entry has two coordinates. *)
Lemma FindAlongSegment_runs o xi xf tol :
  wf o -> table_ok o ->
  (forall slot e, e ∈ entries_at o slot -> (2 <= length (X e))%nat) ->
  (Z.to_nat (Ndim o) <= length xi)%nat -> (Z.to_nat (Ndim o) <= length xf)%nat ->
  exists ids, FindAlongSegment D I o xi xf tol = Ok ids.
Proof.
  intros Hwf Ht Hlong Hxi Hxf.
  destruct (wf_lengths o Hwf) as (Hn & Li & _ & Ls & Ln & _).
  destruct (lookup_lt_is_Some_2 (S o) 0%nat) as [s0 S0]; [lia|].
  destruct (lookup_lt_is_Some_2 (S o) 1%nat) as [s1 S1]; [lia|].
  destruct (lookup_lt_is_Some_2 (N o) 0%nat) as [n0 N0]; [lia|].
  destruct (lookup_lt_is_Some_2 (N o) 1%nat) as [n1 N1]; [lia|].
  destruct (lookup_lt_is_Some_2 xi 0%nat) as [xi0 I0]; [lia|].
  destruct (lookup_lt_is_Some_2 xi 1%nat) as [xi1 I1]; [lia|].
  destruct (lookup_lt_is_Some_2 xf 0%nat) as [xf0 F0]; [lia|].
  destruct (lookup_lt_is_Some_2 xf 1%nat) as [xf1 F1]; [lia|].
  assert (exists btol, bin_tolerance o = Ok btol) as [btol Eb].
  { unfold bin_tolerance. rewrite (index_lookup _ _ _ S0). simpl.
    rewrite (index_lookup _ _ _ S1). simpl. case_decide; [|eauto].
    destruct (lookup_lt_is_Some_2 (S o) 2%nat) as [s2 S2]; [lia|].
    rewrite (index_lookup _ _ _ S2). simpl. eauto. }
  assert (exists r, segment_ends o xi xf = Ok r) as [[[[pi pf] xi'] xf'] Ee].
  { unfold segment_ends. rewrite (index_lookup _ _ _ I0). simpl.
    rewrite (index_lookup _ _ _ F0). simpl. rewrite (index_lookup _ _ _ I1). simpl.
    rewrite (index_lookup _ _ _ F1). simpl. case_decide; [|eauto].
    destruct (lookup_lt_is_Some_2 xi 2%nat) as [xi2 I2]; [lia|].
    destruct (lookup_lt_is_Some_2 xf 2%nat) as [xf2 F2]; [lia|].
    rewrite (index_lookup _ _ _ I2). simpl. rewrite (index_lookup _ _ _ F2). simpl.
    eauto. }
  unfold FindAlongSegment. rewrite Eb. simpl. rewrite Ee. simpl.
  rewrite (index_lookup _ _ _ N0). simpl. rewrite (index_lookup _ _ _ N1). simpl.
  assert (exists sbins z,
            select_bins D o pi pf tol btol (int_mul n0 n1) 0 (All o) 0 [] =
              Ok (sbins, z) /\
            forall b, b ∈ sbins -> Some b ∈ All o) as (sbins & z & -> & Hs).
  { destruct (decide (All o = [])) as [E|Hne].
    - rewrite E. simpl. exists [], 0%float. split; [done|].
      intros b Hb. by apply elem_of_nil in Hb.
    - destruct (divisors_nonzero o Hwf Ht Hne) as (m0 & m1 & M0 & M1 & Hz0 & Hz1).
      simplify_eq.
      destruct (select_bins_returns o pi pf tol btol (int_mul n0 n1) n0 (All o)
                  Hwf N0 Hz0 Hz1 0%nat 0%float [])
        as (sbins & z & E & Hs).
      exists sbins, z. split; [done|]. intros b Hb.
      destruct (Hs b Hb) as [Hin|Hin]; [by apply elem_of_nil in Hin|done]. }
  simpl. apply scan_bins_returns. intros b e Hb He.
  apply Hs in Hb. apply list_elem_of_lookup_1 in Hb as [slot Hslot].
  assert (Hin : e ∈ entries_at o slot)
    by (unfold entries_at, deref; by rewrite Hslot).
  by apply (Hlong slot).
Qed.

(** X9.  On a grid built by [Init] and any calls since,
    [FindAlongSegment] returns for end points with a coordinate per
    dimension (the distance and containment functions being total): no
    index is out of range, and the divisors [N[0]] and [N[0]*N[1]] of the
    decoding are not zero where the table has a slot. *)
Lemma FindAlongSegment_returns o xi xf tol :
  reachable o ->
  (Z.to_nat (Ndim o) <= length xi)%nat -> (Z.to_nat (Ndim o) <= length xf)%nat ->
  exists ids, FindAlongSegment D I o xi xf tol = Ok ids.
Proof.
  intros Hr Hxi Hxf.
  pose proof (reachable_wf _ Hr) as Hwf.
  apply FindAlongSegment_runs; auto using reachable_table_ok.
  intros slot e Hin.
  pose proof (reachable_entries_in_box o Hr slot e Hin) as Hbox.
  destruct (proj1 (in_box_true o (X e)) Hbox 1%nat) as (x1 & _ & _ & E1 & _).
  { destruct (wf_lengths o Hwf) as (Hn & _). lia. }
  apply lookup_lt_Some in E1. lia.
Qed.

End SegmentTotal.

(** * Further properties of the operations *)

(** ** [Init], outcome by outcome *)

Lemma make_Ok {A} (zero : A) n :
  0 <= n -> 8 * n <= maxAlloc ->
  make zero n = Ok (replicate (Z.to_nat n) zero).
Proof. intros H1 H2. unfold make. by rewrite decide_False by lia. Qed.

Lemma make_Panic {A} (zero : A) n :
  n < 0 \/ maxAlloc < 8 * n -> make zero n = Panic.
Proof. intros H. unfold make. by rewrite decide_True by lia. Qed.

Lemma maxAlloc_value : maxAlloc = 281474976710656.
Proof. reflexivity. Qed.

Lemma Init_sizes_run ndiv n : forall i o,
  (i + n <= length (Xi o))%nat -> (i + n <= length (Xf o))%nat ->
  (i + n <= length (L o))%nat -> (i + n <= length (S o))%nat ->
  exists o', Init_sizes o ndiv (seq i n) = Ok o'.
Proof.
  induction n as [|n IH]; intros i o Ha Hb Hl Hs; simpl; [eauto|].
  destruct (lookup_lt_is_Some_2 (Xf o) i) as [b Eb]; [lia|].
  destruct (lookup_lt_is_Some_2 (Xi o) i) as [a Ea]; [lia|].
  rewrite (index_lookup _ _ _ Eb). simpl.
  rewrite (index_lookup _ _ _ Ea). simpl.
  unfold store. rewrite decide_True by lia. simpl.
  rewrite (index_lookup _ i (b - a)%float) by (apply list_lookup_insert_eq; lia).
  simpl. rewrite decide_True by lia. simpl.
  apply IH; simpl; rewrite ?length_insert; lia.
Qed.

Lemma Init_counts_run n : forall i o nbins,
  (i + n <= length (L o))%nat -> (i + n <= length (S o))%nat ->
  (i + n <= length (N o))%nat ->
  exists r, Init_counts o nbins (seq i n) = Ok r.
Proof.
  induction n as [|n IH]; intros i o nbins Hl Hs Hn; simpl; [eauto|].
  destruct (lookup_lt_is_Some_2 (L o) i) as [l El]; [lia|].
  destruct (lookup_lt_is_Some_2 (S o) i) as [s Es]; [lia|].
  rewrite (index_lookup _ _ _ El). simpl.
  rewrite (index_lookup _ _ _ Es). simpl.
  unfold store. rewrite decide_True by lia. simpl.
  rewrite (index_lookup _ i (int_add (int_of_float64 (l / s)) 1))
    by (apply list_lookup_insert_eq; lia).
  simpl. apply IH; simpl; rewrite ?length_insert; lia.
Qed.

(** The first loop of [Init] on the slices [Init] allocates. *)
Lemma Init_sizes_closed xi xf ndiv n a t :
  length xi = length xf ->
  Init_sizes
    (mkBins (Z.of_nat (length xi)) xi xf (replicate (length xi) 0%float)
       (replicate (length xi) 0%float) n a t) ndiv (seq 0 (length xi)) =
  Ok (mkBins (Z.of_nat (length xi)) xi xf (box_L xi xf)
        (box_S (box_L xi xf) ndiv) n a t).
Proof.
  intros Hlen.
  destruct (Init_sizes_run ndiv (length xi) 0
    (mkBins (Z.of_nat (length xi)) xi xf (replicate (length xi) 0%float)
       (replicate (length xi) 0%float) n a t)) as [o1 E];
    simpl; rewrite ?length_replicate; try lia.
  rewrite E. f_equal.
  apply Init_sizes_spec in E as (Ho1 & HL & HS & Hin & _).
  simpl in HL, HS, Hin. rewrite length_replicate in HL, HS.
  assert (EL : L o1 = box_L xi xf).
  { apply list_eq. intros k. unfold box_L. rewrite lookup_zip_with.
    destruct (decide (k < length xi)%nat) as [Hk|Hk].
    - destruct (Hin k) as (x & y & -> & -> & -> & _); [lia|]. done.
    - rewrite (lookup_ge_None_2 (L o1)) by lia.
      rewrite (lookup_ge_None_2 xf) by lia. done. }
  assert (ES : S o1 = box_S (L o1) ndiv).
  { apply list_eq. intros k. unfold box_S. rewrite list_lookup_fmap.
    destruct (decide (k < length xi)%nat) as [Hk|Hk].
    - destruct (Hin k) as (x & y & _ & _ & -> & ->); [lia|]. done.
    - rewrite (lookup_ge_None_2 (L o1)) by lia.
      rewrite (lookup_ge_None_2 (S o1)) by lia. done. }
  rewrite Ho1. unfold set_S, set_L. simpl. by rewrite ES, EL.
Qed.

(** The second loop of [Init] on the slice [Init] allocates. *)
Lemma Init_counts_closed n d xi xf l s a t :
  length l = n -> length s = n ->
  Init_counts (mkBins d xi xf l s (replicate n 0) a t) 1 (seq 0 n) =
  Ok (mkBins d xi xf l s (box_N l s) a t, nbins_of (box_N l s)).
Proof.
  intros Hl Hs.
  destruct (Init_counts_run n 0
    (mkBins d xi xf l s (replicate n 0) a t) 1) as [[o2 nbins] E];
    simpl; rewrite ?length_replicate; try lia.
  rewrite E. f_equal.
  apply Init_counts_spec in E as (Ho2 & HN & Hin & _ & Hnb).
  simpl in HN, Hin. rewrite length_replicate in HN.
  assert (EN : N o2 = box_N l s).
  { apply list_eq. intros k. unfold box_N. rewrite lookup_zip_with.
    destruct (decide (k < n)%nat) as [Hk|Hk].
    - destruct (Hin k) as (x & y & -> & -> & ->); [lia|]. done.
    - rewrite (lookup_ge_None_2 (N o2)) by lia.
      rewrite (lookup_ge_None_2 l) by lia. done. }
  rewrite Hnb, drop_0, take_ge by lia.
  rewrite Ho2. unfold set_N, nbins_of. simpl. by rewrite EN.
Qed.

Lemma box_L_length xi xf : length xi = length xf -> length (box_L xi xf) = length xi.
Proof. intros H. unfold box_L. rewrite length_zip_with. lia. Qed.

Lemma box_S_length l ndiv : length (box_S l ndiv) = length l.
Proof. unfold box_S. by rewrite length_fmap. Qed.

(** [Init] on corner slices of one length, 2 or 3. *)
Lemma Init_sized o0 xi xf ndiv :
  length xi = length xf -> (2 <= length xi <= 3)%nat ->
  Init o0 xi xf ndiv =
    if decide
         (nbins_of (box_N (box_L xi xf) (box_S (box_L xi xf) ndiv)) < 0 \/
          maxAlloc <
            8 * nbins_of (box_N (box_L xi xf) (box_S (box_L xi xf) ndiv)))
    then Panic
    else Ok (mkBins (Z.of_nat (length xi)) xi xf (box_L xi xf)
               (box_S (box_L xi xf) ndiv)
               (box_N (box_L xi xf) (box_S (box_L xi xf) ndiv))
               (replicate
                  (Z.to_nat
                     (nbins_of (box_N (box_L xi xf) (box_S (box_L xi xf) ndiv))))
                  None)
               (replicate (length xi) 0), None).
Proof.
  intros Hlen Hdim. unfold Init. rewrite decide_False by lia.
  unfold dims. simpl.
  rewrite !make_Ok by (pose proof maxAlloc_value; lia). simpl.
  rewrite !Nat2Z.id. unfold set_S, set_L. simpl.
  rewrite Init_sizes_closed by done. simpl.
  rewrite !make_Ok by (pose proof maxAlloc_value; lia). simpl. rewrite !Nat2Z.id.
  unfold set_N. simpl.
  rewrite Init_counts_closed
    by (rewrite ?box_S_length; by apply box_L_length).
  simpl. case_decide as Hn.
  - by rewrite (make_Panic None) by done.
  - rewrite !make_Ok by (pose proof maxAlloc_value; lia). simpl.
    by rewrite Nat2Z.id.
Qed.

(** X1.  [Init], outcome by outcome.  With corner slices of different
    lengths, or of a length other than 2 or 3, it reports the size error
    and has overwritten [Ndim], [Xi] and [Xf] only.  Otherwise it panics
    when the number of bins, multiplied up in [int], is negative or takes
    more than [maxAlloc] bytes at 8 bytes a slot (the length of a slice
    can be neither), and else, the memory being there, it succeeds with
    [L = Xf - Xi], [S = L / float64(ndiv)] and [N = int(L / S) + 1],
    coordinate by coordinate, a table of [nbins] nil pointers and a
    scratch slice of zeros: nothing of what the structure held before is
    left. *)
Theorem Init_outcome o0 xi xf ndiv :
  Init o0 xi xf ndiv =
    if decide (length xi ≠ length xf \/ (length xi < 2)%nat \/ (3 < length xi)%nat)
    then Ok (mkBins (Z.of_nat (length xi)) xi xf
               (L o0) (S o0) (N o0) (All o0) (tmp o0), Some ErrSizes)
    else
      let l := box_L xi xf in
      let s := box_S l ndiv in
      let n := box_N l s in
      if decide (nbins_of n < 0 \/ maxAlloc < 8 * nbins_of n) then Panic
      else Ok (mkBins (Z.of_nat (length xi)) xi xf l s n
                 (replicate (Z.to_nat (nbins_of n)) None)
                 (replicate (length xi) 0), None).
Proof.
  case_decide as Hbad.
  - unfold Init. by rewrite decide_True by lia.
  - assert (Hlen : length xi = length xf)
      by (destruct (decide (length xi = length xf)); [done|tauto]).
    rewrite Init_sized by (done || lia). done.
Qed.

(** ** [FindBinByIndex]: find or allocate *)

(** X2.  [FindBinByIndex] returns nil exactly for an index outside the
    table.  Otherwise the pointer is the one in slot [idx], which holds a
    bin after the call: the bin it held, or a new one with [Idx = idx] and
    no entries.  Nothing else changes (the geometry, the scratch slice, the
    other slots and the entries of every cell are the same), and a second
    call with the same index changes nothing and returns the same
    pointer. *)
Theorem FindBinByIndex_effect o idx o' p :
  FindBinByIndex o idx = (o', p) ->
  geometry o' = geometry o /\ tmp o' = tmp o /\
  length (All o') = length (All o) /\
  (forall slot, slot ≠ Z.to_nat idx -> All o' !! slot = All o !! slot) /\
  (forall slot, entries_at o' slot = entries_at o slot) /\
  (p = None <-> idx < 0 \/ Z.of_nat (length (All o)) <= idx) /\
  (forall s, p = Some s ->
     s = Z.to_nat idx /\
     exists b, deref o' s = Some b /\
       (deref o s = None -> b = mkBin idx [])) /\
  FindBinByIndex o' idx = (o', p).
Proof.
  intros H. pose proof H as H'.
  apply FindBinByIndex_cases in H as
    [(-> & -> & Hr) | [(b & -> & -> & Hpos & Hb) | (-> & Hpos & Hb & ->)]].
  - do 5 (split; [done|]). split; [split; [lia|done]|].
    split; [intros s [=]|done].
  - apply lookup_lt_Some in Hb as Hlt.
    do 5 (split; [done|]). split; [split; [done|lia]|].
    split; [|done].
    intros s [= <-]. split; [done|]. exists b. unfold deref. rewrite Hb.
    split; [done|]. discriminate.
  - apply lookup_lt_Some in Hb as Hlt.
    split; [done|]. split; [done|]. split; [simpl; by rewrite length_insert|].
    split; [intros s Hs; simpl; by rewrite list_lookup_insert_ne|].
    split.
    { intros s. unfold entries_at, deref. simpl.
      destruct (decide (s = Z.to_nat idx)) as [->|Hs].
      - rewrite list_lookup_insert_eq by done. by rewrite Hb.
      - by rewrite list_lookup_insert_ne. }
    split; [split; [done|lia]|].
    split.
    { intros s [= <-]. split; [done|]. exists (mkBin idx []).
      rewrite deref_insert by done. done. }
    unfold FindBinByIndex. simpl. rewrite length_insert.
    rewrite decide_False by lia.
    by rewrite list_lookup_insert_eq by done.
Qed.

(** ** The table of a reachable grid *)

(** X3.  On every grid built by [Init] and any calls since, the bin in a
    slot of the table carries the number of that slot in [Idx]. *)
Theorem reachable_bin_index o :
  reachable o ->
  forall slot b, All o !! slot = Some (Some b) -> Idx b = Z.of_nat slot.
Proof.
  induction 1 as [o0 xi xf ndiv o H | o x id o' e Hr IH H | o x o' id _ IH H | o _ IH];
    intros slot b Hb.
  - apply Init_Ok_inv in H as (_ & _ & _ & _ & _ & _ & _ & HA & _).
    rewrite HA in Hb. by apply lookup_replicate in Hb as [[=] _].
  - destruct e as [err|].
    + apply Append_error_inv in H as (_ & HA & _). rewrite HA in Hb. by eapply IH.
    + apply Append_Ok_inv in H as (o1 & idx & b0 & _ & Hidx & Hb0 & ->).
      simpl in Hb. destruct (decide (slot = Z.to_nat idx)) as [->|Hs].
      * rewrite list_lookup_insert_eq in Hb by lia. injection Hb as <-. simpl.
        destruct Hb0 as [Hb0 | [_ ->]]; [by apply IH|]. simpl. lia.
      * rewrite list_lookup_insert_ne in Hb by done. by eapply IH.
  - apply Find_Ok_inv in H as (o1 & idx & HC & H).
    pose proof (CalcIdx_frame _ _ _ _ HC) as [E1 _].
    assert (EA : All o1 = All o) by (by rewrite E1).
    destruct H as [(_ & -> & _) | (Hidx & b0 & [[_ ->] | (_ & -> & ->)] & _)].
    + rewrite EA in Hb. by eapply IH.
    + rewrite EA in Hb. by eapply IH.
    + simpl in Hb. destruct (decide (slot = Z.to_nat idx)) as [->|Hs].
      * rewrite list_lookup_insert_eq in Hb by lia. injection Hb as <-. simpl. lia.
      * rewrite list_lookup_insert_ne in Hb by done. by eapply IH.
  - done.
Qed.

(** X4.  On every grid built by [Init] and any calls since, an entry sits
    in the cell of its own coordinates: it passes the range test of
    [CalcIdx], and the flat index of its coordinates is the number of the
    slot that holds it. *)
Theorem reachable_entries_placed o :
  reachable o ->
  forall slot e, e ∈ entries_at o slot ->
    in_box o (X e) = true /\ flat_index o (X e) = Some (Z.of_nat slot).
Proof.
  induction 1 as [o0 xi xf ndiv o H | o x id o' e Hr IH H | o x o' id _ IH H | o _ IH];
    intros slot en Hen.
  - apply Init_Ok_inv in H as (_ & _ & _ & _ & _ & _ & _ & HA & _).
    rewrite (entries_at_replicate_None _ _ _ HA) in Hen. by apply elem_of_nil in Hen.
  - destruct e as [err|].
    + apply Append_error_inv in H as (Hg & HA & _).
      rewrite (in_box_geometry _ _ _ Hg), (flat_index_geometry _ _ _ Hg).
      apply (IH slot). unfold entries_at, deref in *. by rewrite HA in Hen.
    + pose proof (reachable_wf _ Hr) as Hwf.
      apply Append_Ok_entries in H as (o1 & idx & HC & Hidx & Hg & _ & Hslot).
      rewrite (in_box_geometry _ _ _ Hg), (flat_index_geometry _ _ _ Hg).
      rewrite Hslot in Hen.
      case_decide as Hs; [|by apply (IH slot)].
      apply elem_of_app in Hen as [Hen|Hen]; [by eapply IH|].
      apply list_elem_of_singleton in Hen as ->. simpl.
      destruct (CalcIdx_Ok_inv _ _ _ _ Hwf HC) as [[? ?]|[_ ?]]; [|lia].
      split; [done|]. subst slot. by rewrite Z2Nat.id by lia.
  - apply Find_Ok_entries in H as (Hg & _ & He).
    rewrite (in_box_geometry _ _ _ Hg), (flat_index_geometry _ _ _ Hg).
    apply (IH slot). by rewrite <- He.
  - unfold entries_at, deref in Hen. simpl in Hen.
    by apply elem_of_nil in Hen.
Qed.

(** ** [CalcIdx], [Append] and [Find] return *)

Lemma forallb_false_witness {A} (f : A -> bool) l :
  forallb f l = false -> exists a, In a l /\ f a = false.
Proof.
  induction l as [|a l IH]; simpl; [discriminate|].
  destruct (f a) eqn:E; simpl.
  - intros H. destruct (IH H) as (b & Hb & Fb). eauto.
  - intros _. eauto.
Qed.

(** [CalcIdx] returns for a point with a coordinate per dimension. *)
Lemma CalcIdx_returns o x :
  wf o -> (Z.to_nat (Ndim o) <= length x)%nat ->
  exists o1 idx, CalcIdx o x = Ok (o1, idx).
Proof.
  intros Hwf Hx. destruct (in_box o x) eqn:Hb.
  - destruct (CalcIdx_in_box o x Hwf Hb) as (o1 & idx & H & _). eauto.
  - unfold in_box in Hb. apply forallb_false_witness in Hb as (k & Hk & Hf).
    unfold dims in Hk. apply in_seq in Hk.
    destruct (wf_lengths o Hwf) as (_ & Li & Lf & _).
    destruct (lookup_lt_is_Some_2 x k) as [xk Ex]; [lia|].
    destruct (lookup_lt_is_Some_2 (Xi o) k) as [xik Ea]; [lia|].
    destruct (lookup_lt_is_Some_2 (Xf o) k) as [xfk Eb]; [lia|].
    rewrite Ex, Ea, Eb in Hf. apply negb_false_iff in Hf.
    destruct (CalcIdx_outside o x k xk xik xfk) as [o1 H]; auto. eauto.
Qed.

Lemma Find_dist_returns x ex ks : forall d,
  (forall k, k ∈ ks -> (k < length x)%nat /\ (k < length ex)%nat) ->
  exists r, Find_dist x ex ks d = Ok r.
Proof.
  induction ks as [|k ks IH]; intros d H; simpl; [eauto|].
  destruct (H k) as [Hx He]; [by left|].
  destruct (lookup_lt_is_Some_2 x k) as [xk Ex]; [done|].
  destruct (lookup_lt_is_Some_2 ex k) as [ek Ee]; [done|].
  rewrite (index_lookup _ _ _ Ex), (index_lookup _ _ _ Ee). simpl.
  apply IH. intros k' Hk'. apply H. by right.
Qed.

Lemma sqdist_returns o x e :
  (Z.to_nat (Ndim o) <= length x)%nat ->
  (Z.to_nat (Ndim o) <= length (X e))%nat ->
  exists d, sqdist o x e = Ok d.
Proof.
  intros Hx He. apply Find_dist_returns. intros k Hk.
  unfold dims in Hk. apply elem_of_seq in Hk. lia.
Qed.

Lemma Find_scan_returns o x es :
  (Z.to_nat (Ndim o) <= length x)%nat ->
  (forall e, e ∈ es -> (Z.to_nat (Ndim o) <= length (X e))%nat) ->
  forall dmin id, exists r, Find_scan o x es dmin id = Ok r.
Proof.
  intros Hx. induction es as [|e es IH]; intros He dmin id; simpl; [eauto|].
  destruct (sqdist_returns o x e) as [d Ed]; [done|apply He; by left|].
  unfold sqdist in Ed. rewrite Ed. simpl.
  destruct (d <? dmin)%float; apply IH; intros e' He'; apply He; by right.
Qed.

(** A point that passes the range test has a coordinate per dimension. *)
Lemma in_box_length o x :
  in_box o x = true -> (Z.to_nat (Ndim o) <= length x)%nat.
Proof.
  intros H. destruct (Z.to_nat (Ndim o)) as [|n] eqn:E; [lia|].
  destruct (proj1 (in_box_true o x) H n) as (xk & _ & _ & Ex & _); [lia|].
  apply lookup_lt_Some in Ex. lia.
Qed.

(** X5.  [Append], outcome by outcome, on a grid of the shape [Init] gives
    and for a point with a coordinate per dimension: it does not panic,
    and the index [CalcIdx] computes decides.  A negative index is the
    out-of-range error, an index within the table a successful insertion,
    an index beyond the table the bin-index error; after either error the
    structure is the one [CalcIdx] left. *)
Theorem Append_outcome o x id :
  wf o -> (Z.to_nat (Ndim o) <= length x)%nat ->
  exists o1 idx,
    CalcIdx o x = Ok (o1, idx) /\
    if decide (idx < 0) then
      Append o x id = Ok (o1, Some (ErrPointOutOfRange x))
    else if decide (idx < Z.of_nat (length (All o))) then
      exists o', Append o x id = Ok (o', None)
    else Append o x id = Ok (o1, Some (ErrBinIndex idx)).
Proof.
  intros Hwf Hx. destruct (CalcIdx_returns o x Hwf Hx) as (o1 & idx & HC).
  exists o1, idx. split; [done|].
  case_decide as Hneg.
  { unfold Append. rewrite HC. simpl. by rewrite decide_True by done. }
  case_decide as Hin.
  { apply (Append_in_table o x id o1 idx HC). lia. }
  unfold Append. rewrite HC. simpl. rewrite decide_False by done.
  pose proof (CalcIdx_frame _ _ _ _ HC) as [E1 _].
  assert (EA : All o1 = All o) by (by rewrite E1).
  unfold FindBinByIndex. rewrite EA. by rewrite decide_True by lia.
Qed.

(** X6.  [Find], outcome by outcome, on a grid built by [Init] and any
    calls since and for a point with a coordinate per dimension.  A
    negative index gives -1; an index within the table gives the result of
    the scan of that bin; an index beyond the table (every index that is
    not negative, once [Clear] was called) is a nil pointer, and [Find]
    panics. *)
Theorem Find_outcome o x :
  reachable o -> (Z.to_nat (Ndim o) <= length x)%nat ->
  exists o1 idx,
    CalcIdx o x = Ok (o1, idx) /\
    if decide (idx < 0) then Find o x = Ok (o1, -1)
    else if decide (idx < Z.of_nat (length (All o))) then
      exists o' id, Find o x = Ok (o', id)
    else Find o x = Panic.
Proof.
  intros Hr Hx. pose proof (reachable_wf _ Hr) as Hwf.
  destruct (CalcIdx_returns o x Hwf Hx) as (o1 & idx & HC).
  exists o1, idx. split; [done|].
  pose proof (CalcIdx_frame _ _ _ _ HC) as [E1 _].
  assert (EA : All o1 = All o) by (by rewrite E1).
  assert (ED : Ndim o1 = Ndim o) by (by rewrite E1).
  unfold Find. rewrite HC. simpl.
  case_decide as Hneg; [done|].
  case_decide as Hin.
  - destruct (FindBinByIndex o1 idx) as [o2 bin] eqn:EF.
    apply FindBinByIndex_cases in EF as
      [(-> & -> & Hout) | [(b & -> & -> & Hpos & Hb) | (-> & Hpos & Hb & ->)]].
    + rewrite EA in Hout. lia.
    + simpl. unfold deref. rewrite Hb. simpl.
      destruct (Find_scan_returns o1 x (Entries b)) with (dmin := MaxFloat64) (id := -1)
        as [r Er].
      * by rewrite ED.
      * intros e He. rewrite ED. apply in_box_length.
        apply (reachable_entries_in_box o Hr (Z.to_nat idx)).
        unfold entries_at, deref. rewrite EA in Hb. by rewrite Hb.
      * rewrite Er. simpl. eauto.
    + simpl. rewrite deref_insert by (rewrite EA; lia). simpl. eauto.
  - unfold FindBinByIndex. rewrite EA. by rewrite decide_True by lia.
Qed.

(** ** What [Find] returns *)

Lemma Find_scan_member o x es : forall dmin id0 id,
  Find_scan o x es dmin id0 = Ok id ->
  id = id0 \/
  exists e d, e ∈ es /\ id = Id e /\ sqdist o x e = Ok d /\
    (d <? dmin)%float = true.
Proof.
  induction es as [|e es IH]; intros dmin id0 id H; simpl in H.
  - injection H as <-. by left.
  - inv_bind H. rename v into d. destruct (d <? dmin)%float eqn:C.
    + apply IH in H as [->|(e' & d' & He' & -> & Ed' & C')].
      * right. exists e, d. split; [by left|]. done.
      * right. exists e', d'. split; [by right|]. split; [done|]. split; [done|].
        by eapply ltb_trans.
    + apply IH in H as [->|(e' & d' & He' & -> & Ed' & C')]; [by left|].
      right. exists e', d'. split; [by right|]. done.
Qed.

(** X7.  [Find] never makes up an id: what it returns is -1 or the id of
    an entry stored in the bin of the query point, at a squared distance
    below [math.MaxFloat64]. *)
Theorem Find_returns_stored_id o x o' id :
  Find o x = Ok (o', id) ->
  id = -1 \/
  exists o1 idx e d,
    CalcIdx o x = Ok (o1, idx) /\ 0 <= idx /\
    e ∈ entries_at o (Z.to_nat idx) /\ Id e = id /\
    sqdist o x e = Ok d /\ (d <? MaxFloat64)%float = true.
Proof.
  intros H. apply Find_Ok_inv in H as (o1 & idx & HC & H).
  destruct H as [(_ & _ & ->) | (Hidx & b & Hb & Hscan)]; [by left|].
  assert (ED : Ndim o' = Ndim o).
  { pose proof (CalcIdx_frame _ _ _ _ HC) as [E1 _].
    destruct Hb as [[_ ->] | (_ & _ & ->)]; by rewrite E1. }
  rewrite (Find_scan_Ndim o o') in Hscan by done.
  apply Find_scan_member in Hscan as [->|(e & d & He & -> & Ed & C)]; [by left|].
  right. exists o1, idx, e, d. split; [done|]. split; [lia|].
  split; [|done].
  destruct Hb as [[Hb _] | (_ & -> & _)]; [|by apply elem_of_nil in He].
  unfold entries_at, deref. by rewrite Hb.
Qed.

(** ** A point that was inserted is found *)

Lemma Find_scan_finds o x es : forall dmin id0 id e0 d0,
  Find_scan o x es dmin id0 = Ok id ->
  e0 ∈ es -> sqdist o x e0 = Ok d0 -> (d0 <? dmin)%float = true ->
  exists e d, e ∈ es /\ id = Id e /\ sqdist o x e = Ok d /\
    (d <? dmin)%float = true /\ (d0 <? d)%float = false.
Proof.
  induction es as [|e es IH]; intros dmin id0 id e0 d0 H He0 Ed0 C0.
  { by apply elem_of_nil in He0. }
  simpl in H. inv_bind H. rename v into d, E into Ed.
  destruct (d <? dmin)%float eqn:C.
  - destruct (d0 <? d)%float eqn:C1.
    + apply elem_of_cons in He0 as [->|He0].
      { unfold sqdist in Ed0. rewrite Ed in Ed0. injection Ed0 as <-.
        by rewrite ltb_irrefl in C1. }
      destruct (IH _ _ _ _ _ H He0 Ed0 C1) as (e1 & d1 & He1 & -> & Ed1 & C2 & C3).
      exists e1, d1. split; [by right|]. repeat split; auto.
      by eapply ltb_trans.
    + apply Find_scan_member in H as [->|(e1 & d1 & He1 & -> & Ed1 & C2)].
      * exists e, d. split; [by left|]. done.
      * exists e1, d1. split; [by right|]. repeat split; auto.
        { by eapply ltb_trans. }
        destruct (d0 <? d1)%float eqn:C3; [|done].
        by rewrite (ltb_trans _ _ _ C3 C2) in C1.
  - apply elem_of_cons in He0 as [->|He0].
    { unfold sqdist in Ed0. rewrite Ed in Ed0. injection Ed0 as <-. congruence. }
    destruct (IH _ _ _ _ _ H He0 Ed0 C0) as (e1 & d1 & He1 & -> & Ed1 & C2 & C3).
    exists e1, d1. split; [by right|]. done.
Qed.

Lemma sqdist_Ndim o o' x e : Ndim o' = Ndim o -> sqdist o' x e = sqdist o x e.
Proof. intros E. unfold sqdist, dims. by rewrite E. Qed.

(** *** The sign of a squared distance *)

Lemma binary_round_aux_clear m e l :
  sign_clear (binary_round_aux prec emax false m e l).
Proof.
  unfold binary_round_aux.
  destruct (shr_fexp prec emax m e l) as [mrs' e'].
  destruct (shr_fexp prec emax _ e' loc_Exact) as [mrs'' e''].
  destruct (shr_m mrs''); simpl; [done| |done].
  by destruct (e'' <=? emax - prec).
Qed.

Lemma binary_round_clear m e : sign_clear (binary_round prec emax false m e).
Proof.
  unfold binary_round. destruct (shl_align _ _ _) as [mz ez].
  apply binary_round_aux_clear.
Qed.

Lemma add_clear a b :
  sign_clear (Prim2SF a) -> sign_clear (Prim2SF b) ->
  sign_clear (Prim2SF (a + b)).
Proof.
  rewrite add_spec.
  destruct (Prim2SF a) as [sa|sa| |sa ma ea], (Prim2SF b) as [sb|sb| |sb mb eb];
    simpl; try done; try (intros -> ->; done); try (intros _ ->; done);
    try (intros -> _; done).
  intros -> ->. simpl. apply binary_round_clear.
Qed.

Lemma mul_clear a b :
  sign_clear (Prim2SF a) -> sign_clear (Prim2SF b) ->
  sign_clear (Prim2SF (a * b)).
Proof.
  rewrite mul_spec.
  destruct (Prim2SF a) as [sa|sa| |sa ma ea], (Prim2SF b) as [sb|sb| |sb mb eb];
    simpl; try done; try (by intros -> ->).
  intros -> ->. apply binary_round_aux_clear.
Qed.

Lemma square_clear a : sign_clear (Prim2SF (a * a)).
Proof.
  rewrite mul_spec.
  destruct (Prim2SF a) as [s|s| |s m e]; simpl; try done;
    try (by destruct s).
  replace (xorb s s) with false by (by destruct s).
  apply binary_round_aux_clear.
Qed.

Lemma Ldexp_clear a e :
  sign_clear (Prim2SF a) -> sign_clear (Prim2SF (Ldexp a e)).
Proof.
  unfold Ldexp. rewrite Z_ldexp_spec.
  destruct (Prim2SF a) as [sa|sa| |sa ma ea]; simpl; try done.
  intros ->. apply binary_round_clear.
Qed.

Lemma Prim2SF_one : Prim2SF 1%float = S754_finite false 4503599627370496 (-52).
Proof. reflexivity. Qed.

(** The two turns of the loop of [math.Pow] for the exponent 2. *)
Lemma Pow_loop_2 x1 xe :
  Pow_loop 63 2 1%float 0 x1 xe =
    if decide (xe < - 4096 \/ 4096 < xe) then (1%float, xe) else
    if decide (2 * xe - (if (x1 * x1 <? 0.5)%float then 1 else 0) < - 4096 \/
               4096 < 2 * xe - (if (x1 * x1 <? 0.5)%float then 1 else 0))
    then (1%float, 2 * xe - (if (x1 * x1 <? 0.5)%float then 1 else 0))
    else ((1 * (if (x1 * x1 <? 0.5)%float
                then x1 * x1 + x1 * x1 else x1 * x1))%float,
          2 * xe - (if (x1 * x1 <? 0.5)%float then 1 else 0)).
Proof.
  simpl. case_decide; [by rewrite Z.add_0_l|].
  destruct (x1 * x1 <? 0.5)%float; simpl;
    rewrite ?Z.sub_0_r, ?Z.add_0_l; case_decide; try done;
    by destruct (_ <? _)%float.
Qed.

Lemma Pow_2_clear v : sign_clear (Prim2SF (Pow_2 v)).
Proof.
  unfold Pow_2.
  destruct (v =? 1)%float; [by rewrite Prim2SF_one|].
  destruct (is_NaN v); [done|].
  destruct (v =? 0)%float; [done|].
  destruct (IsInf v); [done|].
  destruct (Frexp v) as [x1 xe]. rewrite Pow_loop_2.
  case_decide; [apply Ldexp_clear; by rewrite Prim2SF_one|].
  case_decide; [apply Ldexp_clear; by rewrite Prim2SF_one|].
  apply Ldexp_clear, mul_clear; [by rewrite Prim2SF_one|].
  destruct (x1 * x1 <? 0.5)%float.
  - apply add_clear; apply square_clear.
  - apply square_clear.
Qed.


Lemma Find_dist_clear x ex ks : forall acc d,
  sign_clear (Prim2SF acc) -> Find_dist x ex ks acc = Ok d ->
  sign_clear (Prim2SF d).
Proof.
  induction ks as [|k ks IH]; intros acc d Ha H; simpl in H.
  - by injection H as <-.
  - inv_bind H. inv_bind H. eapply IH; [|exact H].
    apply add_clear; [done|apply Pow_2_clear].
Qed.

Lemma float_zero d : Prim2SF d = S754_zero false -> d = 0%float.
Proof. intros H. rewrite <- (SF2Prim_Prim2SF d), H. reflexivity. Qed.

(** A value with the sign bit clear that is a number and not above zero is
    zero. *)
Lemma clear_not_above_zero d :
  sign_clear (Prim2SF d) -> is_NaN d = false -> (0 <? d)%float = false ->
  d = 0%float.
Proof.
  intros Hs Hn Hz. apply float_zero. rewrite ltb_spec in Hz.
  unfold is_NaN in Hn. rewrite Prim2SF_zero in Hz.
  destruct (Prim2SF d) as [s|s| |s m e]; simpl in *; subst; try done.
Qed.

(** The squared distance of a point of finite coordinates to itself. *)
Lemma Find_dist_self x ks :
  (forall k, k ∈ ks -> exists xk, x !! k = Some xk /\ finite64 xk = true) ->
  Find_dist x x ks 0 = Ok 0%float.
Proof.
  induction ks as [|k ks IH]; intros H; simpl; [done|].
  destruct (H k) as (xk & Ex & Fx); [by left|].
  rewrite (index_lookup _ _ _ Ex). simpl.
  rewrite (float_zero _ (sub_diag_finite xk Fx)).
  replace (0 + Pow_2 0)%float with 0%float by (vm_compute; reflexivity).
  apply IH. intros k' Hk'. apply H. by right.
Qed.

(** X8.  Insertion followed by a search at the same point, on a grid built
    by [Init] and any calls since: after a successful [Append] of a point
    of finite coordinates, [Find] at that point returns the id of an entry
    of its cell at squared distance zero.  The entry is the one just
    inserted unless the cell already held one at squared distance zero. *)
Theorem Append_then_Find o x id o' :
  reachable o ->
  (forall xk, xk ∈ x -> finite64 xk = true) ->
  Append o x id = Ok (o', None) ->
  exists o'' slot e,
    flat_index o x = Some (Z.of_nat slot) /\
    Find o' x = Ok (o'', Id e) /\
    e ∈ entries_at o' slot /\
    sqdist o' x e = Ok 0%float /\
    ((forall e', e' ∈ entries_at o slot -> sqdist o x e' ≠ Ok 0%float) ->
     e = mkBinEntry id x).
Proof.
  intros Hr Hfin H.
  pose proof (reachable_wf _ Hr) as Hwf.
  pose proof (reach_Append _ _ _ _ _ Hr H) as Hr'.
  pose proof (reachable_wf _ Hr') as Hwf'.
  apply Append_Ok_entries in H as (o1 & idx & HC & Hidx & Hg & Hlen & Hent).
  destruct (CalcIdx_Ok_inv _ _ _ _ Hwf HC) as [[Hbox Hflat]|[_ ?]]; [|lia].
  assert (ED : Ndim o' = Ndim o) by (unfold geometry in Hg; congruence).
  destruct (CalcIdx_in_box o' x Hwf') as (o2 & idx' & HC' & Hflat').
  { by rewrite (in_box_geometry _ _ _ Hg). }
  rewrite (flat_index_geometry _ _ _ Hg), Hflat in Hflat'.
  injection Hflat' as <-.
  pose proof (CalcIdx_frame _ _ _ _ HC') as [E2 _].
  assert (EA : All o2 = All o') by (by rewrite E2).
  assert (ED2 : Ndim o2 = Ndim o') by (by rewrite E2).
  set (slot := Z.to_nat idx) in *.
  set (entry := mkBinEntry id x) in *.
  pose proof (Hent slot) as Hs. rewrite decide_True in Hs by done.
  assert (exists b, All o' !! slot = Some (Some b)) as [b Hb].
  { destruct (All o' !! slot) as [[b|]|] eqn:E; eauto; exfalso;
      unfold entries_at at 1, deref at 1 in Hs; rewrite E in Hs; simpl in Hs;
      symmetry in Hs; by apply app_nil in Hs as [_ [=]]. }
  assert (Eb : Entries b = entries_at o' slot)
    by (unfold entries_at, deref; by rewrite Hb).
  assert (Hlong : forall e, e ∈ Entries b ->
            (Z.to_nat (Ndim o2) <= length (X e))%nat).
  { intros e He. rewrite ED2. apply in_box_length.
    apply (reachable_entries_in_box o' Hr' slot). by rewrite <- Eb. }
  assert (Hx : (Z.to_nat (Ndim o2) <= length x)%nat).
  { rewrite ED2, ED. by apply in_box_length. }
  destruct (Find_scan_returns o2 x (Entries b) Hx Hlong MaxFloat64 (-1)) as [r Er].
  assert (E0 : sqdist o2 x entry = Ok 0%float).
  { unfold sqdist. simpl. apply Find_dist_self. intros k Hk.
    unfold dims in Hk. apply elem_of_seq in Hk.
    destruct (lookup_lt_is_Some_2 x k) as [xk Ex]; [lia|].
    exists xk. split; [done|]. apply Hfin. by eapply list_elem_of_lookup_2. }
  destruct (Find_scan_finds o2 x (Entries b) MaxFloat64 (-1) r entry 0%float)
    as (e & d & He & -> & Ed & C & Cz); auto.
  { rewrite Eb, Hs. apply elem_of_app. right. by left. }
  assert (d = 0%float) as ->.
  { apply clear_not_above_zero; [|by destruct (ltb_not_NaN _ _ C)|done].
    by apply (Find_dist_clear x (X e) (dims o2) 0%float). }
  exists o2, slot, e.
  split; [unfold slot; by rewrite Z2Nat.id by lia|].
  split.
  { unfold Find. rewrite HC'. simpl. rewrite decide_False by lia.
    apply lookup_lt_Some in Hb as Hlt.
    unfold FindBinByIndex. rewrite EA. rewrite decide_False by (fold slot; lia).
    fold slot. rewrite Hb. simpl. unfold deref. rewrite EA, Hb. simpl.
    by rewrite Er. }
  split; [by rewrite <- Eb|].
  split; [by rewrite <- (sqdist_Ndim o' o2)|].
  intros Hnone. rewrite Eb, Hs in He.
  apply elem_of_app in He as [He|He]; [|by apply list_elem_of_singleton in He].
  exfalso. apply (Hnone e He).
  rewrite <- (sqdist_Ndim o o2) by congruence. done.
Qed.

(** ** Coordinates beyond the dimension *)

Lemma index_app_l {A} (x t : list A) k :
  (k < length x)%nat -> index (x ++ t) k = index x k.
Proof. intros H. unfold index. by rewrite lookup_app_l. Qed.

Lemma CalcIdx_cells_app x t ks : forall o,
  (forall k, k ∈ ks -> (k < length x)%nat) ->
  CalcIdx_cells o (x ++ t) ks = CalcIdx_cells o x ks.
Proof.
  induction ks as [|k ks IH]; intros o Hk; simpl; [done|].
  rewrite index_app_l by (apply Hk; by left).
  destruct (index x k) as [xk|]; simpl; [|done].
  destruct (index (Xi o) k) as [xik|]; simpl; [|done].
  destruct (xk <? xik)%float; [done|].
  destruct (index (Xf o) k) as [xfk|]; simpl; [|done].
  destruct (xfk <? xk)%float; [done|].
  destruct (index (S o) k) as [sk|]; simpl; [|done].
  destruct (store (tmp o) k _) as [t'|]; simpl; [|done].
  apply IH. intros k' Hk'. apply Hk. by right.
Qed.

Lemma Find_dist_app x t ex ks : forall d,
  (forall k, k ∈ ks -> (k < length x)%nat) ->
  Find_dist (x ++ t) ex ks d = Find_dist x ex ks d.
Proof.
  induction ks as [|k ks IH]; intros d Hk; simpl; [done|].
  rewrite index_app_l by (apply Hk; by left).
  destruct (index x k) as [xk|]; simpl; [|done].
  destruct (index ex k) as [ek|]; simpl; [|done].
  apply IH. intros k' Hk'. apply Hk. by right.
Qed.

Lemma Find_scan_app o x t es : forall dmin id,
  (Z.to_nat (Ndim o) <= length x)%nat ->
  Find_scan o (x ++ t) es dmin id = Find_scan o x es dmin id.
Proof.
  induction es as [|e es IH]; intros dmin id Hx; simpl; [done|].
  rewrite Find_dist_app.
  2:{ intros k Hk. unfold dims in Hk. apply elem_of_seq in Hk. lia. }
  destruct (Find_dist x (X e) (dims o) 0) as [d|]; simpl; [|done].
  destruct (d <? dmin)%float; by apply IH.
Qed.

(** X13.  [CalcIdx] and [Find] read one coordinate per dimension and no
    more: whatever follows the first [Ndim] coordinates of the point does
    not change the index computed nor the entry found.  (A point with more
    coordinates than the grid has dimensions is accepted as it is.) *)
Theorem extra_coordinates_ignored o x t :
  (Z.to_nat (Ndim o) <= length x)%nat ->
  CalcIdx o (x ++ t) = CalcIdx o x /\ Find o (x ++ t) = Find o x.
Proof.
  intros Hx.
  assert (EC : CalcIdx o (x ++ t) = CalcIdx o x).
  { unfold CalcIdx. rewrite CalcIdx_cells_app; [done|].
    intros k Hk. unfold dims in Hk. apply elem_of_seq in Hk. lia. }
  split; [done|]. unfold Find. rewrite EC.
  destruct (CalcIdx o x) as [[o1 idx]|] eqn:HC; simpl; [|done].
  case_decide; [done|].
  destruct (FindBinByIndex o1 idx) as [o2 bin] eqn:EF.
  destruct (bin ≫= deref o2) as [b|]; [|done].
  rewrite Find_scan_app; [done|].
  apply CalcIdx_frame in HC as [E1 _].
  assert (ED : Ndim o2 = Ndim o).
  { apply FindBinByIndex_cases in EF as
      [(_ & -> & _) | [(b' & _ & -> & _) | (_ & _ & _ & ->)]]; by rewrite E1. }
  by rewrite ED.
Qed.

(** ** [Init] with no division *)

Lemma float64_of_int_zero : float64_of_int 0 = 0%float.
Proof. reflexivity. Qed.

(** A positive finite length divided by zero, and divided by the
    result: one bin. *)
Lemma count_no_division l m e :
  Prim2SF l = S754_finite false m e ->
  int_add (int_of_float64 (l / (l / float64_of_int 0))%float) 1 = 1.
Proof.
  intros Hl. rewrite float64_of_int_zero.
  assert (Hs : Prim2SF (l / 0)%float = S754_infinity false).
  { rewrite div_spec, Hl, Prim2SF_zero. reflexivity. }
  assert (Hq : Prim2SF (l / (l / 0))%float = S754_zero false).
  { rewrite div_spec, Hs, Hl. reflexivity. }
  by rewrite (int_of_float64_zero _ _ Hq).
Qed.

(** X14.  [Init] with [ndiv = 0] does not fail on a box whose lengths are
    positive and finite: the bin sizes are infinite, every dimension gets
    one bin, and the table has one slot. *)
Theorem Init_zero_divisions o0 xi xf :
  length xi = length xf -> (2 <= length xi <= 3)%nat ->
  (forall l, l ∈ box_L xi xf -> exists m e, Prim2SF l = S754_finite false m e) ->
  exists o,
    Init o0 xi xf 0 = Ok (o, None) /\
    N o = replicate (length xi) 1 /\
    All o = [None].
Proof.
  intros Hlen Hdim Hpos.
  assert (EN : box_N (box_L xi xf) (box_S (box_L xi xf) 0) =
               replicate (length xi) 1).
  { apply list_eq. intros k. unfold box_N, box_S.
    rewrite lookup_zip_with, list_lookup_fmap.
    destruct (box_L xi xf !! k) as [l|] eqn:El; simpl.
    - destruct (Hpos l) as (m & e & Hl); [by eapply list_elem_of_lookup_2|].
      rewrite (count_no_division l m e Hl).
      apply lookup_lt_Some in El. rewrite box_L_length in El by done.
      by rewrite lookup_replicate_2.
    - apply lookup_ge_None in El. rewrite box_L_length in El by done.
      symmetry. apply lookup_ge_None. by rewrite length_replicate. }
  assert (Enb : nbins_of (replicate (length xi) 1) = 1).
  { destruct Hdim as [H2 H3].
    destruct (length xi) as [|[|[|[|n]]]]; try lia; reflexivity. }
  rewrite Init_sized by done. rewrite EN, Enb. simpl.
  eexists. split; [done|]. done.
Qed.

(** ** Empty bins and the scratch slice cannot be observed *)

Lemma same_entries_sym o o' : same_entries o o' -> same_entries o' o.
Proof. intros (? & ? & ? & ?). by repeat split. Qed.

Lemma same_entries_trans o1 o2 o3 :
  same_entries o1 o2 -> same_entries o2 o3 -> same_entries o1 o3.
Proof.
  intros (Ga & La & Ta & Ea) (Gb & Lb & Tb & Eb).
  do 3 (split; [congruence|]). intros slot. by rewrite Eb, Ea.
Qed.

Lemma same_entries_wf o o' : wf o -> same_entries o o' -> wf o'.
Proof.
  intros [] (Hg & _ & Ht & _). unfold geometry in Hg. simplify_eq.
  constructor; congruence.
Qed.

Lemma same_but_tmp_entries o o' : same_but_tmp o o' -> same_entries o o'.
Proof.
  intros (Hg & HA & Ht). repeat split; try congruence.
  intros slot. unfold entries_at, deref. by rewrite HA.
Qed.

(** [CalcIdx] computes from the geometry and the point. *)
Lemma CalcIdx_geometry o o' x o1 idx :
  wf o -> wf o' -> geometry o' = geometry o ->
  CalcIdx o x = Ok (o1, idx) ->
  exists o1', CalcIdx o' x = Ok (o1', idx).
Proof.
  intros Hwf Hwf' Hg H.
  destruct (CalcIdx_Ok_inv _ _ _ _ Hwf H) as [[Hb Hf]|[Hb ->]].
  - destruct (CalcIdx_in_box o' x Hwf') as (o1' & idx' & H' & Hf').
    { by rewrite (in_box_geometry _ _ _ Hg). }
    rewrite (flat_index_geometry _ _ _ Hg) in Hf'. simplify_eq. eauto.
  - destruct (CalcIdx_Ok_outside _ _ _ _ Hwf H Hb)
      as (k & xk & xik & xfk & Ex & Ea & Eb & Hout).
    apply (CalcIdx_outside o' x k xk xik xfk); auto.
    + replace (Xi o') with (Xi o); [done|]. unfold geometry in Hg. congruence.
    + replace (Xf o') with (Xf o); [done|]. unfold geometry in Hg. congruence.
Qed.

Lemma CalcIdx_same_entries o x o' idx :
  CalcIdx o x = Ok (o', idx) -> same_entries o o'.
Proof. intros H. apply same_but_tmp_entries. by eapply CalcIdx_same_but_tmp. Qed.

Lemma Find_same_entries o x o' id :
  Find o x = Ok (o', id) -> same_entries o o'.
Proof.
  intros H. pose proof H as H'.
  apply Find_Ok_entries in H as (Hg & HA & He).
  apply Find_Ok_inv in H' as (o1 & idx & HC & H').
  apply CalcIdx_frame in HC as [E1 E2].
  repeat split; auto.
  destruct H' as [(_ & -> & _) | (_ & b & [[_ ->] | (_ & _ & ->)] & _)];
    by rewrite E1.
Qed.

(** X20.  What [Find] returns depends on the entries alone.  Take two
    structures of the same geometry that hold the same entries in the same
    cells (they may differ in the scratch slice and in the empty bins
    already allocated, which is all a previous [Find] or a failed [Append]
    changes): where [Find] returns on one, it returns the same id on the
    other, and the two structures again hold the same entries. *)
Theorem Find_sees_entries_only o o' x o1 id :
  wf o -> same_entries o o' ->
  Find o x = Ok (o1, id) ->
  exists o1', Find o' x = Ok (o1', id) /\ same_entries o1 o1'.
Proof.
  intros Hwf Hs H.
  pose proof (same_entries_wf _ _ Hwf Hs) as Hwf'.
  assert (exists o1', Find o' x = Ok (o1', id)) as [o1' H'].
  2:{ exists o1'. split; [done|].
      apply Find_same_entries in H, H'.
      exact (same_entries_trans _ _ _ (same_entries_sym _ _ H)
               (same_entries_trans _ _ _ Hs H')). }
  destruct Hs as (Hg & HA & Ht & He).
  apply Find_Ok_inv in H as (oa & idx & HC & H).
  destruct (CalcIdx_geometry _ _ _ _ _ Hwf Hwf' Hg HC) as (oa' & HC').
  pose proof (CalcIdx_frame _ _ _ _ HC') as [E1' _].
  assert (EA' : All oa' = All o') by (by rewrite E1').
  assert (ED' : Ndim oa' = Ndim o') by (by rewrite E1').
  assert (ED : Ndim o' = Ndim o) by (unfold geometry in Hg; congruence).
  unfold Find. rewrite HC'. simpl.
  destruct H as [(Hneg & _ & ->) | (Hidx & b & Hb & Hscan)].
  { rewrite decide_True by done. eauto. }
  rewrite decide_False by lia.
  assert (Eb : entries_at o (Z.to_nat idx) = Entries b).
  { unfold entries_at, deref.
    destruct Hb as [[-> _] | (-> & -> & _)]; done. }
  assert (ED1 : Ndim o1 = Ndim o).
  { pose proof (CalcIdx_frame _ _ _ _ HC) as [E1 _].
    destruct Hb as [[_ ->] | (_ & _ & ->)]; by rewrite E1. }
  rewrite (Find_scan_Ndim o o1) in Hscan by done.
  destruct (FindBinByIndex oa' idx) as [o2 bin] eqn:EF.
  apply FindBinByIndex_cases in EF as
    [(-> & -> & Hout) | [(b' & -> & -> & _ & Hb') | (-> & _ & Hb' & ->)]].
  - rewrite EA', HA in Hout. lia.
  - simpl. unfold deref. rewrite Hb'. simpl.
    assert (Entries b' = Entries b) as ->.
    { rewrite <- Eb, <- He. unfold entries_at, deref. rewrite EA' in Hb'.
      by rewrite Hb'. }
    rewrite (Find_scan_Ndim o oa') by congruence. rewrite Hscan. simpl. eauto.
  - simpl. rewrite deref_insert by (rewrite EA', HA; lia). simpl.
    assert (Entries b = []) as Enil.
    { rewrite <- Eb, <- He. unfold entries_at, deref. rewrite EA' in Hb'.
      by rewrite Hb'. }
    rewrite Enil in Hscan. simpl in Hscan. injection Hscan as <-. eauto.
Qed.

(** X21.  What [Append] does depends on the entries alone: on two
    structures of the same geometry that hold the same entries in the same
    cells, [Append] of the same point and id gives the same outcome (the
    same error, or success), and the two structures again hold the same
    entries. *)
Theorem Append_sees_entries_only o o' x id o1 e :
  wf o -> same_entries o o' ->
  Append o x id = Ok (o1, e) ->
  exists o1', Append o' x id = Ok (o1', e) /\ same_entries o1 o1'.
Proof.
  intros Hwf Hs H.
  pose proof (same_entries_wf _ _ Hwf Hs) as Hwf'.
  pose proof Hs as (Hg & HA & Ht & He).
  destruct e as [err|].
  - (* the same error *)
    pose proof (Append_error_inv _ _ _ _ _ H) as Hsame.
    unfold Append in H. inv_bind H. destruct v as [oa idx].
    destruct (CalcIdx_geometry _ _ _ _ _ Hwf Hwf' Hg E) as (oa' & HC').
    pose proof (CalcIdx_frame _ _ _ _ E) as [E1 _].
    pose proof (CalcIdx_frame _ _ _ _ HC') as [E1' _].
    assert (EA : All oa = All o) by (by rewrite E1).
    assert (EA' : All oa' = All o') by (by rewrite E1').
    unfold Append. rewrite HC'. simpl.
    case_decide as Hneg.
    + injection H as <- <-. exists oa'. split; [done|].
      apply CalcIdx_same_entries in E, HC'.
      exact (same_entries_trans _ _ _ (same_entries_sym _ _ E)
               (same_entries_trans _ _ _ Hs HC')).
    + destruct (FindBinByIndex oa idx) as [o2 bin] eqn:EF.
      apply FindBinByIndex_cases in EF as
        [(-> & -> & Hout) | [(b & -> & -> & _ & Hb) | (-> & _ & Hb & ->)]].
      * injection H as <- <-.
        unfold FindBinByIndex. rewrite EA', HA, <- EA.
        rewrite decide_True by done. exists oa'. split; [done|].
        apply CalcIdx_same_entries in E, HC'.
        exact (same_entries_trans _ _ _ (same_entries_sym _ _ E)
                 (same_entries_trans _ _ _ Hs HC')).
      * unfold deref in H. rewrite Hb in H. discriminate.
      * apply lookup_lt_Some in Hb.
        rewrite deref_insert in H by done. discriminate.
  - (* the same insertion *)
    pose proof (Append_Ok_entries _ _ _ _ H) as (oa & idx & HC & Hidx & Hg1 & HA1 & He1).
    destruct (CalcIdx_geometry _ _ _ _ _ Hwf Hwf' Hg HC) as (oa' & HC').
    destruct (Append_in_table o' x id oa' idx HC') as [o1' H']; [lia|].
    exists o1'. split; [done|].
    pose proof (Append_Ok_entries _ _ _ _ H') as (ob & idx' & HCb & _ & Hg2 & HA2 & He2).
    rewrite HC' in HCb. injection HCb as <- <-.
    pose proof (Append_wf _ _ _ _ _ Hwf H) as Hwf1.
    pose proof (Append_wf _ _ _ _ _ Hwf' H') as Hwf1'.
    repeat split.
    + congruence.
    + congruence.
    + destruct Hwf1, Hwf1'. unfold geometry in *. 
      assert (Ndim o1' = Ndim o1) by congruence. lia.
    + intros slot. rewrite He1, He2, He. done.
Qed.

(** ** Repeating a search, and the order of insertions *)

Lemma CalcIdx_cells_below x n : forall i o o' b,
  CalcIdx_cells o x (seq i n) = Ok (o', b) ->
  forall k, (k < i)%nat -> tmp o' !! k = tmp o !! k.
Proof.
  induction n as [|n IH]; intros i o o' b H k Hk; simpl in H.
  - by injection H as <- <-.
  - inv_bind H. inv_bind H.
    destruct (v <? v0)%float; [by injection H as <- <-|].
    inv_bind H. destruct (v1 <? v)%float; [by injection H as <- <-|].
    inv_bind H. inv_bind H. apply store_Ok in E3 as [-> Hl].
    rewrite (IH _ _ _ _ H) by lia. simpl.
    by rewrite list_lookup_insert_ne by lia.
Qed.

Lemma set_tmp_All o a t : set_tmp (set_All o a) t = set_All (set_tmp o t) a.
Proof. done. Qed.

(** A second run of the loop of [CalcIdx] writes what the scratch slice
    holds already. *)
Lemma CalcIdx_cells_again x a n : forall i o o' b,
  CalcIdx_cells o x (seq i n) = Ok (o', b) ->
  CalcIdx_cells (set_All o' a) x (seq i n) = Ok (set_All o' a, b).
Proof.
  induction n as [|n IH]; intros i o o' b H; [by injection H as <- <-|].
  pose proof (CalcIdx_cells_frame _ _ _ _ _ H) as [E1 E2].
  assert (G : Xi o' = Xi o /\ Xf o' = Xf o /\ S o' = S o) by (by rewrite E1).
  destruct G as (G1 & G2 & G3).
  simpl in H |- *. rewrite G1, G2, G3.
  inv_bind H. rewrite E. simpl. inv_bind H. rewrite E0. simpl.
  destruct (v <? v0)%float; [by injection H as <- <-|].
  inv_bind H. rewrite E3. simpl.
  destruct (v1 <? v)%float; [by injection H as <- <-|].
  inv_bind H. rewrite E4. simpl. inv_bind H.
  apply store_Ok in E5 as [-> Hl].
  assert (Hi : tmp o' !! i = Some (int_of_float64 ((v - v0) / v2))).
  { rewrite (CalcIdx_cells_below _ _ _ _ _ _ H) by lia. simpl.
    by rewrite list_lookup_insert_eq. }
  unfold store. rewrite decide_True by (by eapply lookup_lt_Some). simpl.
  rewrite (list_insert_id _ _ _ Hi).
  replace (set_tmp (set_All o' a) (tmp o')) with (set_All o' a)
    by (by destruct o').
  by eapply IH.
Qed.

Lemma CalcIdx_again o x o1 idx a :
  CalcIdx o x = Ok (o1, idx) ->
  CalcIdx (set_All o1 a) x = Ok (set_All o1 a, idx).
Proof.
  unfold CalcIdx, dims. intros H. inv_bind H. destruct v as [o' inside].
  pose proof (CalcIdx_cells_frame _ _ _ _ _ E) as [E1 _].
  assert (ED : Ndim (set_All o1 a) = Ndim o).
  { destruct inside; [|injection H as <- <-; by rewrite E1].
    inv_bind H. inv_bind H. inv_bind H.
    case_decide.
    - inv_bind H. inv_bind H. inv_bind H. injection H as <- <-. by rewrite E1.
    - injection H as <- <-. by rewrite E1. }
  rewrite ED.
  assert (o1 = o') as ->.
  { destruct inside; [|by injection H as <- <-].
    inv_bind H. inv_bind H. inv_bind H.
    case_decide.
    - inv_bind H. inv_bind H. inv_bind H. by injection H as <- <-.
    - by injection H as <- <-. }
  rewrite (CalcIdx_cells_again x a _ _ _ _ _ E). simpl.
  destruct inside; [|by injection H as <-].
  inv_bind H. rewrite E0. simpl. inv_bind H. rewrite E2. simpl.
  inv_bind H. rewrite E3. simpl.
  case_decide.
  - inv_bind H. rewrite E4. simpl. inv_bind H.
    rewrite E3 in E5. injection E5 as <-.
    inv_bind H. rewrite E5. simpl. by injection H as <-.
  - by injection H as <-.
Qed.

Lemma set_All_id o : set_All o (All o) = o.
Proof. by destruct o. Qed.

(** X22.  [Find] is idempotent: a second call at the same point returns
    the same id and leaves the structure exactly as the first call left it
    (the scratch slice holds the same cell coordinates, and the bin of the
    cell is there already). *)
Theorem Find_idempotent o x o' id :
  Find o x = Ok (o', id) -> Find o' x = Ok (o', id).
Proof.
  intros H. apply Find_Ok_inv in H as (o1 & idx & HC & H).
  pose proof (CalcIdx_frame _ _ _ _ HC) as [E1 _].
  assert (EA : All o1 = All o) by (by rewrite E1).
  destruct H as [(Hneg & -> & ->) | (Hidx & b & [[Hb ->] | (Hb & -> & ->)] & Hscan)].
  - unfold Find. rewrite <- (set_All_id o1) at 1.
    rewrite (CalcIdx_again _ _ _ _ _ HC), set_All_id. simpl.
    by rewrite decide_True by done.
  - unfold Find. rewrite <- (set_All_id o1) at 1.
    rewrite (CalcIdx_again _ _ _ _ _ HC), set_All_id. simpl.
    rewrite decide_False by lia.
    unfold FindBinByIndex. rewrite EA. rewrite decide_False by lia.
    rewrite Hb. simpl. unfold deref. rewrite EA, Hb. simpl.
    by rewrite Hscan.
  - unfold Find. rewrite (CalcIdx_again _ _ _ _ _ HC). simpl.
    rewrite decide_False by lia.
    unfold FindBinByIndex. simpl. rewrite length_insert.
    rewrite decide_False by lia.
    rewrite list_lookup_insert_eq by lia. simpl.
    unfold deref. simpl. rewrite list_lookup_insert_eq by lia. simpl.
    simpl in Hscan. by injection Hscan as <-.
Qed.

(** X23.  Insertions into different cells commute: when two points of
    different flat index are inserted one after the other, inserting them
    in the other order succeeds as well and gives the same geometry and the
    same table of bins (only the scratch slice keeps the cell of the point
    inserted last).  In one cell the order of insertion is the order of the
    entries, and it shows. *)
Theorem Append_commute o x1 id1 x2 id2 o1 o12 :
  wf o ->
  Append o x1 id1 = Ok (o1, None) ->
  Append o1 x2 id2 = Ok (o12, None) ->
  flat_index o x1 ≠ flat_index o x2 ->
  exists o2 o21,
    Append o x2 id2 = Ok (o2, None) /\
    Append o2 x1 id1 = Ok (o21, None) /\
    geometry o21 = geometry o12 /\
    All o21 = All o12.
Proof.
  intros Hwf H1 H2 Hne.
  pose proof (Append_wf _ _ _ _ _ Hwf H1) as Hwf1.
  pose proof (Append_Ok_entries _ _ _ _ H1) as (_ & _ & _ & _ & Hg1 & Hl1 & _).
  pose proof (Append_Ok_entries _ _ _ _ H2) as (_ & _ & _ & _ & Hg2 & Hl2 & _).
  apply Append_Ok_inv in H1 as (oa & i1 & b1 & HC1 & Hr1 & Hb1 & ->).
  apply Append_Ok_inv in H2 as (ob & i2 & b2 & HC2 & Hr2 & Hb2 & ->).
  destruct (CalcIdx_Ok_inv _ _ _ _ Hwf HC1) as [[_ Hf1]|[_ ?]]; [|lia].
  destruct (CalcIdx_Ok_inv _ _ _ _ Hwf1 HC2) as [[_ Hf2]|[_ ?]]; [|lia].
  rewrite (flat_index_geometry _ _ _ Hg1) in Hf2.
  assert (Hn : Z.to_nat i1 ≠ Z.to_nat i2).
  { intros E. apply Hne. rewrite Hf1, Hf2. f_equal. lia. }
  simpl in Hr2, Hb2. rewrite length_insert in Hr2.
  rewrite list_lookup_insert_ne in Hb2 by done.
  (* the second point first *)
  destruct (CalcIdx_geometry _ _ _ _ _ Hwf1 Hwf (eq_sym Hg1) HC2) as (oc & HC2').
  destruct (Append_in_table o x2 id2 oc i2 HC2') as [o2 H2']; [lia|].
  pose proof (Append_wf _ _ _ _ _ Hwf H2') as Hwf2.
  pose proof (Append_Ok_entries _ _ _ _ H2') as (_ & _ & _ & _ & Hg2' & Hl2' & _).
  exists o2.
  destruct (CalcIdx_geometry _ _ _ _ _ Hwf Hwf2 Hg2' HC1) as (od & HC1').
  destruct (Append_in_table o2 x1 id1 od i1 HC1') as [o21 H1']; [lia|].
  pose proof (Append_Ok_entries _ _ _ _ H1') as (_ & _ & _ & _ & Hg1' & _).
  exists o21. split; [done|]. split; [done|].
  split; [congruence|].
  apply Append_Ok_inv in H2' as (oc' & i2' & b2' & HCc & _ & Hb2' & ->).
  rewrite HC2' in HCc. injection HCc as <- <-.
  apply Append_Ok_inv in H1' as (od' & i1' & b1' & HCd & _ & Hb1' & ->).
  rewrite HC1' in HCd. injection HCd as <- <-.
  simpl in Hb1' |- *. rewrite list_lookup_insert_ne in Hb1' by done.
  assert (b1' = b1) as ->.
  { destruct Hb1 as [Hb1|[Hb1 ->]], Hb1' as [Hb1'|[Hb1' ->]]; congruence. }
  assert (b2' = b2) as ->.
  { destruct Hb2 as [Hb2|[Hb2 ->]], Hb2' as [Hb2'|[Hb2' ->]]; congruence. }
  by apply list_insert_insert_ne.
Qed.

(** ** [FindAlongSegment] reports stored ids only *)

Section SegmentStored.

Variable D : Point -> Point -> Point -> float -> bool -> float.
Variable I : Point -> list float -> list float -> float -> bool.

Lemma select_bins_sublist o pi pf tol btol nxy bins : forall idx z sbins sbins' z',
  select_bins D o pi pf tol btol nxy idx bins z sbins = Ok (sbins', z') ->
  exists sel, sbins' = sbins ++ sel /\
    concat (Entries <$> sel) `sublist_of`
      concat ((fun b : option Bin => from_option Entries [] b) <$> bins).
Proof.
  induction bins as [|[b|] bins IH]; intros idx z sbins sbins' z' H; simpl in H.
  - injection H as <- <-. exists []. by rewrite app_nil_r.
  - inv_bind H. apply IH in H as (sel & -> & Hs).
    destruct (D v pi pf tol false <=? btol)%float.
    + exists (b :: sel). split; [by rewrite <- app_assoc|].
      simpl. by apply sublist_app.
    + exists sel. split; [done|]. simpl. by apply sublist_inserts_l.
  - apply IH in H as (sel & -> & Hs). exists sel. done.
Qed.

Lemma scan_entries_sublist o pi pf xi xf tol es : forall z ids ids' z',
  scan_entries D I o pi pf xi xf tol es z ids = Ok (ids', z') ->
  exists new, ids' = ids ++ new /\ new `sublist_of` (Id <$> es).
Proof.
  induction es as [|e es IH]; intros z ids ids' z' H; simpl in H.
  - injection H as <- <-. exists []. by rewrite app_nil_r.
  - inv_bind H. apply IH in H as (new & -> & Hs).
    destruct (D v pi pf tol false <=? tol)%float;
      [destruct (I v xi xf tol)|].
    + exists (Id e :: new). split; [by rewrite <- app_assoc|].
      simpl. by apply sublist_skip.
    + exists new. split; [done|]. simpl. by apply sublist_cons.
    + exists new. split; [done|]. simpl. by apply sublist_cons.
Qed.

Lemma scan_bins_sublist o pi pf xi xf tol sbins : forall z ids ids',
  scan_bins D I o pi pf xi xf tol sbins z ids = Ok ids' ->
  exists new, ids' = ids ++ new /\
    new `sublist_of` (Id <$> concat (Entries <$> sbins)).
Proof.
  induction sbins as [|b sbins IH]; intros z ids ids' H; simpl in H.
  - injection H as <-. exists []. by rewrite app_nil_r.
  - inv_bind H. destruct v as [ids1 z1].
    apply scan_entries_sublist in E as (new1 & -> & Hs1).
    apply IH in H as (new2 & -> & Hs2).
    exists (new1 ++ new2). split; [by rewrite app_assoc|].
    simpl. rewrite fmap_app. by apply sublist_app.
Qed.

(** X10.  [FindAlongSegment] never makes up an id and never reports an
    entry twice: the ids it returns are a subsequence of the ids of the
    stored entries, taken slot by slot in the order of the table and, in a
    bin, in the order of insertion. *)
Theorem FindAlongSegment_stored_ids o xi xf tol ids :
  FindAlongSegment D I o xi xf tol = Ok ids ->
  ids `sublist_of` (Id <$> stored_entries o).
Proof.
  unfold FindAlongSegment. intros H.
  inv_bind H. inv_bind H. destruct v0 as [[[pi pf] xi'] xf'].
  inv_bind H. inv_bind H. inv_bind H. destruct v2 as [sbins z].
  apply select_bins_sublist in E3 as (sel & -> & Hsel).
  apply scan_bins_sublist in H as (new & -> & Hnew).
  simpl in *. etrans; [exact Hnew|].
  by apply fmap_sublist.
Qed.

(** X11.  After [Clear] the segment search finds nothing and does not
    panic (where [Find] does): on a structure of the shape [Init] gives and
    for end points with a coordinate per dimension, [FindAlongSegment]
    returns the empty list. *)
Theorem FindAlongSegment_after_Clear o xi xf tol :
  wf o ->
  (Z.to_nat (Ndim o) <= length xi)%nat -> (Z.to_nat (Ndim o) <= length xf)%nat ->
  FindAlongSegment D I (Clear o) xi xf tol = Ok [].
Proof.
  intros Hwf Hxi Hxf.
  destruct (wf_lengths o Hwf) as (Hn & Li & _ & Ls & Ln & _).
  destruct (lookup_lt_is_Some_2 (S o) 0%nat) as [s0 S0]; [lia|].
  destruct (lookup_lt_is_Some_2 (S o) 1%nat) as [s1 S1]; [lia|].
  destruct (lookup_lt_is_Some_2 (N o) 0%nat) as [n0 N0]; [lia|].
  destruct (lookup_lt_is_Some_2 (N o) 1%nat) as [n1 N1]; [lia|].
  destruct (lookup_lt_is_Some_2 xi 0%nat) as [xi0 I0]; [lia|].
  destruct (lookup_lt_is_Some_2 xi 1%nat) as [xi1 I1]; [lia|].
  destruct (lookup_lt_is_Some_2 xf 0%nat) as [xf0 F0]; [lia|].
  destruct (lookup_lt_is_Some_2 xf 1%nat) as [xf1 F1]; [lia|].
  unfold FindAlongSegment, bin_tolerance, segment_ends, Clear. simpl.
  rewrite (index_lookup _ _ _ S0), (index_lookup _ _ _ S1). simpl.
  destruct (decide (Ndim o = 3)) as [H3|H3].
  - destruct (lookup_lt_is_Some_2 (S o) 2%nat) as [s2 S2]; [lia|].
    destruct (lookup_lt_is_Some_2 xi 2%nat) as [xi2 I2]; [lia|].
    destruct (lookup_lt_is_Some_2 xf 2%nat) as [xf2 F2]; [lia|].
    rewrite (index_lookup _ _ _ S2). simpl.
    rewrite (index_lookup _ _ _ I0), (index_lookup _ _ _ F0),
      (index_lookup _ _ _ I1), (index_lookup _ _ _ F1). simpl.
    rewrite (index_lookup _ _ _ I2), (index_lookup _ _ _ F2). simpl.
    by rewrite (index_lookup _ _ _ N0), (index_lookup _ _ _ N1).
  - rewrite (index_lookup _ _ _ I0), (index_lookup _ _ _ F0),
      (index_lookup _ _ _ I1), (index_lookup _ _ _ F1). simpl.
    by rewrite (index_lookup _ _ _ N0), (index_lookup _ _ _ N1).
Qed.

End SegmentStored.

(** ** The result of [FindAlongSegment], in order *)

Section SegmentExact.

Variable D : Point -> Point -> Point -> float -> bool -> float.
Variable I : Point -> list float -> list float -> float -> bool.

Lemma ids_along_cons near pass idx b bins :
  ids_along near pass idx (b :: bins) =
  (if near idx : bool
   then Id <$> List.filter pass (from_option Entries [] b)
   else []) ++ ids_along near pass (Datatypes.S idx) bins.
Proof. reflexivity. Qed.

Lemma select_bins_exact o pi pf xi xf tol btol nxy bins :
  forall idx z sbins sbins' z',
  z_inv o z ->
  select_bins D o pi pf tol btol nxy idx bins z sbins = Ok (sbins', z') ->
  z_inv o z' /\
  exists sel, sbins' = sbins ++ sel /\
    concat ((fun b => Id <$> List.filter (entry_passes D I o pi pf xi xf tol)
                        (Entries b)) <$> sel) =
    ids_along (near_segment D o pi pf tol btol nxy)
      (entry_passes D I o pi pf xi xf tol) idx bins.
Proof.
  induction bins as [|[b|] bins IH]; intros idx z sbins sbins' z' Hz H;
    simpl in H.
  - injection H as <- <-. split; [done|]. exists []. by rewrite app_nil_r.
  - inv_bind H. rename v into p.
    destruct (bin_center_z _ _ _ _ _ Hz E) as [E0 Hz1].
    apply IH in H as (Hz' & sel & -> & Hsel); [|done].
    split; [done|]. rewrite ids_along_cons, <- Hsel.
    unfold near_segment. rewrite E0.
    destruct (D p pi pf tol false <=? btol)%float.
    + exists (b :: sel). split; [by rewrite <- app_assoc|]. reflexivity.
    + exists sel. split; [done|]. reflexivity.
  - apply IH in H as (Hz' & sel & -> & Hsel); [|done].
    split; [done|]. exists sel. split; [done|].
    rewrite ids_along_cons, <- Hsel.
    by destruct (near_segment D o pi pf tol btol nxy idx).
Qed.

Lemma scan_entries_exact o pi pf xi xf tol es : forall z ids ids' z',
  z_inv o z ->
  scan_entries D I o pi pf xi xf tol es z ids = Ok (ids', z') ->
  z_inv o z' /\
  ids' = ids ++ (Id <$> List.filter (entry_passes D I o pi pf xi xf tol) es).
Proof.
  induction es as [|e es IH]; intros z ids ids' z' Hz H; simpl in H.
  - injection H as <- <-. split; [done|]. by rewrite app_nil_r.
  - inv_bind H. rename v into p.
    destruct (entry_point_z _ _ _ _ Hz E) as [E0 Hz1].
    apply IH in H as (Hz' & ->); [|done].
    split; [done|]. simpl List.filter. unfold entry_passes at 2. rewrite E0.
    destruct (D p pi pf tol false <=? tol)%float; simpl; [|done].
    destruct (I p xi xf tol); simpl; [|done].
    by rewrite <- app_assoc.
Qed.

Lemma scan_bins_exact o pi pf xi xf tol sbins : forall z ids ids',
  z_inv o z ->
  scan_bins D I o pi pf xi xf tol sbins z ids = Ok ids' ->
  ids' = ids ++
    concat ((fun b => Id <$> List.filter (entry_passes D I o pi pf xi xf tol)
                        (Entries b)) <$> sbins).
Proof.
  induction sbins as [|b sbins IH]; intros z ids ids' Hz H; simpl in H.
  - injection H as <-. by rewrite app_nil_r.
  - inv_bind H. destruct v as [ids1 z1].
    apply scan_entries_exact in E as (Hz1 & ->); [|done].
    apply IH in H as ->; [|done]. simpl. by rewrite <- app_assoc.
Qed.

(** Reading a result of [FindAlongSegment] back: the ids are those of
    [ids_along] at the tolerance, end points and divisors the call
    computed. *)
Lemma FindAlongSegment_Ok_inv o xi xf tol ids :
  FindAlongSegment D I o xi xf tol = Ok ids ->
  exists btol pi pf xi' xf' n0 n1,
    bin_tolerance o = Ok btol /\
    segment_ends o xi xf = Ok (pi, pf, xi', xf') /\
    N o !! 0%nat = Some n0 /\ N o !! 1%nat = Some n1 /\
    ids = ids_along (near_segment D o pi pf tol btol (int_mul n0 n1))
            (entry_passes D I o pi pf xi' xf' tol) 0 (All o).
Proof.
  unfold FindAlongSegment. intros H.
  inv_bind H. rename v into btol.
  inv_bind H. destruct v as [[[pi pf] xi'] xf'].
  inv_bind H. inv_bind H. inv_bind H. destruct v1 as [sbins z].
  apply index_Ok in E1, E2.
  exists btol, pi, pf, xi', xf', v, v0. do 4 (split; [done|]).
  apply (select_bins_exact o pi pf xi' xf') in E3 as (Hz & sel & -> & Hsel);
    [|by right].
  apply scan_bins_exact in H as ->; [|done].
  simpl. exact Hsel.
Qed.

Lemma reachable_entries_long o slot e :
  reachable o -> e ∈ entries_at o slot -> (2 <= length (X e))%nat.
Proof.
  intros Hr Hin.
  pose proof (reachable_entries_in_box o Hr slot e Hin) as Hbox.
  apply in_box_length in Hbox.
  destruct (wf_lengths o (reachable_wf _ Hr)) as (Hn & _). lia.
Qed.

(** X24.  The result of [FindAlongSegment], exactly and in order.  On a
    grid built by [Init] and any calls since, for end points with a
    coordinate per dimension, the call returns the ids of [ids_along]: the
    table is read slot by slot, and every cell whose bin centre is within
    the bin tolerance of the segment contributes the ids of its entries
    that pass the fine test, in the order of insertion; cells without a
    bin contribute nothing. *)
Theorem FindAlongSegment_exact o xi xf tol :
  reachable o ->
  (Z.to_nat (Ndim o) <= length xi)%nat -> (Z.to_nat (Ndim o) <= length xf)%nat ->
  exists btol pi pf xi' xf' n0 n1,
    bin_tolerance o = Ok btol /\
    segment_ends o xi xf = Ok (pi, pf, xi', xf') /\
    N o !! 0%nat = Some n0 /\ N o !! 1%nat = Some n1 /\
    FindAlongSegment D I o xi xf tol =
      Ok (ids_along (near_segment D o pi pf tol btol (int_mul n0 n1))
            (entry_passes D I o pi pf xi' xf' tol) 0 (All o)).
Proof.
  intros Hr Hxi Hxf.
  destruct (FindAlongSegment_runs D I o xi xf tol) as [ids H];
    auto using reachable_wf, reachable_table_ok.
  { intros slot e. by apply reachable_entries_long. }
  destruct (FindAlongSegment_Ok_inv _ _ _ _ _ H)
    as (btol & pi & pf & xi' & xf' & n0 & n1 & Hb & Hse & N0 & N1 & ->).
  by exists btol, pi, pf, xi', xf', n0, n1.
Qed.

End SegmentExact.

Section SegmentEntriesOnly.

Variable D : Point -> Point -> Point -> float -> bool -> float.
Variable I : Point -> list float -> list float -> float -> bool.

Lemma ids_along_table near pass bins bins' :
  Forall2 (fun b b' : option Bin =>
             from_option Entries [] b' = from_option Entries [] b) bins bins' ->
  forall idx, ids_along near pass idx bins' = ids_along near pass idx bins.
Proof.
  induction 1 as [|b b' bins bins' Hb _ IH]; intros idx; [done|].
  by rewrite !ids_along_cons, Hb, IH.
Qed.

Lemma ids_along_ext near near' pass pass' bins :
  (forall i, near' i = near i) -> (forall e, pass' e = pass e) ->
  forall idx, ids_along near' pass' idx bins = ids_along near pass idx bins.
Proof.
  intros Hn Hp. induction bins as [|b bins IH]; intros idx; [done|].
  rewrite !ids_along_cons, Hn, IH.
  by rewrite (List.filter_ext _ _ Hp).
Qed.

Lemma same_entries_table o o' :
  same_entries o o' ->
  Forall2 (fun b b' : option Bin =>
             from_option Entries [] b' = from_option Entries [] b)
    (All o) (All o').
Proof.
  intros (_ & HA & _ & He).
  apply Forall2_same_length_lookup_2; [done|].
  intros i b b' Hb Hb'. specialize (He i).
  unfold entries_at, deref in He. rewrite Hb, Hb' in He. simpl in He.
  by destruct b, b'.
Qed.

Lemma bin_tolerance_geometry o o' :
  geometry o' = geometry o -> bin_tolerance o' = bin_tolerance o.
Proof.
  intros Hg. destruct o, o'. unfold geometry in Hg. simpl in Hg.
  by simplify_eq.
Qed.

Lemma segment_ends_geometry o o' xi xf :
  geometry o' = geometry o -> segment_ends o' xi xf = segment_ends o xi xf.
Proof.
  intros Hg. destruct o, o'. unfold geometry in Hg. simpl in Hg.
  by simplify_eq.
Qed.

Lemma near_segment_geometry o o' pi pf tol btol nxy slot :
  geometry o' = geometry o ->
  near_segment D o' pi pf tol btol nxy slot =
  near_segment D o pi pf tol btol nxy slot.
Proof.
  intros Hg. destruct o, o'. unfold geometry in Hg. simpl in Hg.
  by simplify_eq.
Qed.

Lemma entry_passes_geometry o o' pi pf xi xf tol e :
  geometry o' = geometry o ->
  entry_passes D I o' pi pf xi xf tol e = entry_passes D I o pi pf xi xf tol e.
Proof.
  intros Hg. destruct o, o'. unfold geometry in Hg. simpl in Hg.
  by simplify_eq.
Qed.

(** X25.  What [FindAlongSegment] returns depends on the entries alone.
    On a grid built by [Init] and any calls since, and on any structure of
    the same geometry that holds the same entries in the same cells (the
    grid after further calls of [Find] or failed calls of [Append], for
    one), the search along a segment returns the same ids in the same
    order. *)
Theorem FindAlongSegment_sees_entries_only o o' xi xf tol :
  reachable o -> same_entries o o' ->
  (Z.to_nat (Ndim o) <= length xi)%nat -> (Z.to_nat (Ndim o) <= length xf)%nat ->
  exists ids,
    FindAlongSegment D I o xi xf tol = Ok ids /\
    FindAlongSegment D I o' xi xf tol = Ok ids.
Proof.
  intros Hr Hs Hxi Hxf.
  pose proof (reachable_wf _ Hr) as Hwf.
  pose proof (reachable_table_ok _ Hr) as [Hint Htab].
  pose proof (same_entries_wf _ _ Hwf Hs) as Hwf'.
  pose proof (same_entries_table _ _ Hs) as Htable.
  pose proof Hs as (Hg & HA & _ & He).
  assert (EN : N o' = N o) by (unfold geometry in Hg; congruence).
  assert (ED : Ndim o' = Ndim o) by (unfold geometry in Hg; congruence).
  assert (Hlong : forall slot e, e ∈ entries_at o slot -> (2 <= length (X e))%nat).
  { intros slot e. by apply reachable_entries_long. }
  destruct (FindAlongSegment_runs D I o xi xf tol) as [ids H]; auto.
  { by split. }
  destruct (FindAlongSegment_runs D I o' xi xf tol) as [ids' H']; auto.
  { split; [by rewrite EN|]. rewrite EN, HA.
    destruct Htab as [E|E]; [|by right].
    left. apply nil_length_inv. by rewrite HA, E. }
  { intros slot e. rewrite He. apply Hlong. }
  { by rewrite ED. }
  { by rewrite ED. }
  exists ids. split; [done|]. rewrite H'. f_equal.
  apply FindAlongSegment_Ok_inv in H
    as (btol & pi & pf & xi1 & xf1 & n0 & n1 & Hb & Hse & N0 & N1 & ->).
  apply FindAlongSegment_Ok_inv in H'
    as (btol' & pi' & pf' & xi1' & xf1' & n0' & n1' & Hb' & Hse' & N0' & N1' & ->).
  rewrite (bin_tolerance_geometry _ _ Hg), Hb in Hb'.
  rewrite (segment_ends_geometry _ _ _ _ Hg), Hse in Hse'.
  rewrite EN, N0 in N0'. rewrite EN, N1 in N1'.
  injection Hb' as <-. injection Hse' as <- <- <- <-.
  injection N0' as <-. injection N1' as <-.
  rewrite (ids_along_table _ _ _ _ Htable).
  apply ids_along_ext.
  - intros i. by apply near_segment_geometry.
  - intros e. by apply entry_passes_geometry.
Qed.

End SegmentEntriesOnly.

(** ** The index of a bin, decoded *)

Lemma decode_rem c q n : 0 <= c < n -> 0 <= q -> Z.rem (c + q * n) n = c.
Proof.
  intros Hc Hq. assert (0 <= q * n) by (apply Z.mul_nonneg_nonneg; lia).
  rewrite Z.rem_mod_nonneg by lia. rewrite Z.mod_add by lia.
  apply Z.mod_small. lia.
Qed.

Lemma decode_quot c q n : 0 <= c < n -> 0 <= q -> Z.quot (c + q * n) n = q.
Proof.
  intros Hc Hq. assert (0 <= q * n) by (apply Z.mul_nonneg_nonneg; lia).
  rewrite Z.quot_div_nonneg by lia. rewrite Z.div_add by lia.
  rewrite Z.div_small by lia. lia.
Qed.

(** The centre [FindAlongSegment] computes for the bin of the cell
    [(c0, c1, c2)]. *)
Lemma bin_center_decode o z n0 n1 c0 c1 c2 a0 a1 s0 s1 :
  N o !! 0%nat = Some n0 -> N o !! 1%nat = Some n1 ->
  Xi o !! 0%nat = Some a0 -> Xi o !! 1%nat = Some a1 ->
  S o !! 0%nat = Some s0 -> S o !! 1%nat = Some s1 ->
  0 <= c0 < n0 -> 0 <= c1 < n1 -> 0 <= c2 ->
  n0 * n1 * (c2 + 1) <= int_max ->
  bin_center o (int_mul n0 n1) (c0 + c1 * n0 + c2 * (n0 * n1)) z =
    let x := (a0 + float64_of_int c0 * s0 + s0 / 2)%float in
    let y := (a1 + float64_of_int c1 * s1 + s1 / 2)%float in
    if decide (Ndim o = 3) then
      a2 ← index (Xi o) 2;
      s2 ← index (S o) 2;
      Ok (mkPoint x y (a2 + float64_of_int c2 * s2 + s2 / 2)%float)
    else Ok (mkPoint x y z).
Proof.
  intros N0 N1 A0 A1 S0 S1 H0 H1 H2 Hmax.
  assert (P0 : 0 <= c1 * n0) by (apply Z.mul_nonneg_nonneg; lia).
  assert (P1 : c1 * n0 <= (n1 - 1) * n0) by (apply Z.mul_le_mono_nonneg_r; lia).
  assert (P2 : 0 < n0 * n1) by (apply Z.mul_pos_pos; lia).
  assert (P3 : 0 <= c2 * (n0 * n1)) by (apply Z.mul_nonneg_nonneg; lia).
  assert (P4 : n0 * n1 * (c2 + 1) = c2 * (n0 * n1) + n0 * n1) by ring.
  assert (P5 : (n1 - 1) * n0 = n0 * n1 - n0) by ring.
  assert (P6 : 1 * n1 <= n0 * n1) by (apply Z.mul_le_mono_nonneg_r; lia).
  assert (Hnxy : int_mul n0 n1 = n0 * n1).
  { unfold int_mul. apply wrap_id. unfold int_min, int_max in *. lia. }
  assert (Ei : Z.rem (c0 + c1 * n0 + c2 * (n0 * n1)) n0 = c0).
  { replace (c0 + c1 * n0 + c2 * (n0 * n1)) with (c0 + (c1 + c2 * n1) * n0) by ring.
    apply decode_rem; [done|].
    assert (0 <= c2 * n1) by (apply Z.mul_nonneg_nonneg; lia). lia. }
  assert (Em : Z.rem (c0 + c1 * n0 + c2 * (n0 * n1)) (n0 * n1) = c0 + c1 * n0).
  { apply decode_rem; lia. }
  assert (Ej : Z.quot (c0 + c1 * n0) n0 = c1) by (apply decode_quot; lia).
  assert (Ek : Z.quot (c0 + c1 * n0 + c2 * (n0 * n1)) (n0 * n1) = c2).
  { apply decode_quot; lia. }
  unfold bin_center, int_rem, int_quo. rewrite Hnxy.
  rewrite (index_lookup _ _ _ N0). simpl.
  rewrite !decide_False by lia. simpl.
  rewrite Ei, Em. rewrite (wrap_id c0) by (unfold int_min, int_max in *; lia).
  rewrite (wrap_id (c0 + c1 * n0)) by (unfold int_min, int_max in *; lia).
  rewrite decide_False by lia. simpl.
  rewrite Ej. rewrite (wrap_id c1) by (unfold int_min, int_max in *; lia).
  rewrite (index_lookup _ _ _ A0), (index_lookup _ _ _ S0). simpl.
  rewrite (index_lookup _ _ _ A1), (index_lookup _ _ _ S1). simpl.
  case_decide; [|done].
  rewrite Ek. rewrite (wrap_id c2).
  2:{ unfold int_min, int_max in *.
      assert (c2 * 1 <= c2 * (n0 * n1)) by (apply Z.mul_le_mono_nonneg_l; lia).
      lia. }
  destruct (index (Xi o) 2) as [a2|]; simpl; [|done].
  by destruct (index (S o) 2) as [s2|].
Qed.

(** X12.  The index [CalcIdx] builds and the decoding in
    [FindAlongSegment] agree.  On a structure of the shape [Init] gives
    whose bin counts multiply up without overflowing [int], take a point
    whose cell coordinate lies in [0, N[k]) in every dimension: the centre
    computed for the bin of its flat index is the centre of its own cell,
    [Xi[k] + float64(c[k])*S[k] + S[k]/2] in every dimension (in two
    dimensions the third coordinate is left as it was). *)
Theorem bin_center_of_cell o x idx z :
  wf o ->
  (forall k c n, cell o x k = Some c -> N o !! k = Some n -> 0 <= c < n) ->
  Zprod (N o) <= int_max ->
  flat_index o x = Some idx ->
  exists n0 n1 p,
    N o !! 0%nat = Some n0 /\ N o !! 1%nat = Some n1 /\
    bin_center o (int_mul n0 n1) idx z = Ok p /\
    cell_center o x 0 = Some (PX p) /\
    cell_center o x 1 = Some (PY p) /\
    if decide (Ndim o = 3) then cell_center o x 2 = Some (PZ p) else PZ p = z.
Proof.
  intros Hwf Hc Hmax Hf.
  destruct (wf_lengths o Hwf) as (_ & _ & _ & _ & Ln & _).
  destruct Hwf as [Hd _ _ _ _ _ _].
  unfold flat_index in Hf.
  destruct (cell o x 0) as [c0|] eqn:C0; [|done].
  destruct (cell o x 1) as [c1|] eqn:C1; [|done]. simpl in Hf.
  assert (Hcell : forall k c, cell o x k = Some c ->
            exists a s, Xi o !! k = Some a /\ S o !! k = Some s /\
              cell_center o x k = Some (a + float64_of_int c * s + s / 2)%float).
  { intros k c Hk. unfold cell_center. rewrite Hk. simpl.
    unfold cell in Hk.
    destruct (x !! k); [|done]. simpl in Hk.
    destruct (Xi o !! k) as [a|]; [|done]. simpl in Hk.
    destruct (S o !! k) as [s|]; [|done]. simpl. eauto. }
  destruct (Hcell 0%nat c0 C0) as (a0 & s0 & A0 & S0 & K0).
  destruct (Hcell 1%nat c1 C1) as (a1 & s1 & A1 & S1 & K1).
  destruct (N o) as [|n0 [|n1 [|n2 [|]]]] eqn:EN; simpl in Ln, Hf;
    try (exfalso; lia).
  - destruct (Hc 0%nat c0 n0) as [? ?]; [done|done|].
    destruct (Hc 1%nat c1 n1) as [? ?]; [done|done|].
    rewrite decide_False in Hf by lia. injection Hf as <-.
    simpl in Hmax. rewrite Z.mul_1_r in Hmax.
    assert (P0 : 0 <= c1 * n0) by (apply Z.mul_nonneg_nonneg; lia).
    assert (P1 : c1 * n0 <= (n1 - 1) * n0) by (apply Z.mul_le_mono_nonneg_r; lia).
    assert (P5 : (n1 - 1) * n0 = n0 * n1 - n0) by ring.
    unfold int_add at 1. unfold int_mul at 2.
    rewrite (wrap_id (c1 * n0)) by (unfold int_min, int_max in *; lia).
    rewrite (wrap_id (c0 + c1 * n0)) by (unfold int_min, int_max in *; lia).
    pose proof (bin_center_decode o z n0 n1 c0 c1 0 a0 a1 s0 s1) as HB.
    rewrite EN in HB. simpl in HB.
    rewrite Z.add_0_r in HB. exists n0, n1. rewrite HB; auto; try lia.
    rewrite decide_False by lia.
    eexists. repeat split; try done.
    by rewrite decide_False by lia.
  - destruct (Hc 0%nat c0 n0) as [? ?]; [done|done|].
    destruct (Hc 1%nat c1 n1) as [? ?]; [done|done|].
    rewrite decide_True in Hf by lia.
    destruct (cell o x 2) as [c2|] eqn:C2; [|done]. simpl in Hf.
    destruct (Hc 2%nat c2 n2) as [? ?]; [done|done|].
    destruct (Hcell 2%nat c2 C2) as (a2 & s2 & A2 & S2 & K2).
    injection Hf as <-.
    simpl in Hmax. rewrite Z.mul_1_r in Hmax.
    assert (P0 : 0 <= c1 * n0) by (apply Z.mul_nonneg_nonneg; lia).
    assert (P1 : c1 * n0 <= (n1 - 1) * n0) by (apply Z.mul_le_mono_nonneg_r; lia).
    assert (P5 : (n1 - 1) * n0 = n0 * n1 - n0) by ring.
    assert (P2 : 0 < n0 * n1) by (apply Z.mul_pos_pos; lia).
    assert (Q0 : 0 <= c2 * n0) by (apply Z.mul_nonneg_nonneg; lia).
    assert (Q1 : 0 <= c2 * (n0 * n1)) by (apply Z.mul_nonneg_nonneg; lia).
    assert (Q2 : c2 * (n0 * n1) <= (n2 - 1) * (n0 * n1))
      by (apply Z.mul_le_mono_nonneg_r; lia).
    assert (Q3 : (n2 - 1) * (n0 * n1) = n0 * (n1 * n2) - n0 * n1) by ring.
    assert (Q4 : c2 * n0 * 1 <= c2 * n0 * n1)
      by (apply Z.mul_le_mono_nonneg_l; lia).
    assert (Q5 : c2 * n0 * n1 = c2 * (n0 * n1)) by ring.
    unfold int_add, int_mul at 2 3 4.
    rewrite (wrap_id (c1 * n0)) by (unfold int_min, int_max in *; lia).
    rewrite (wrap_id (c2 * n0)) by (unfold int_min, int_max in *; lia).
    rewrite (wrap_id (c2 * n0 * n1)) by (unfold int_min, int_max in *; lia).
    rewrite (wrap_id (c0 + c1 * n0)) by (unfold int_min, int_max in *; lia).
    rewrite (wrap_id (c0 + c1 * n0 + c2 * n0 * n1)) by (unfold int_min, int_max in *; lia).
    rewrite Q5.
    pose proof (bin_center_decode o z n0 n1 c0 c1 c2 a0 a1 s0 s1) as HB.
    rewrite EN in HB. simpl in HB.
    exists n0, n1. rewrite HB; auto; try lia.
    rewrite decide_True by lia.
    rewrite (index_lookup _ _ _ A2), (index_lookup _ _ _ S2). simpl.
    eexists. repeat split; try done.
    by rewrite decide_True by lia.
Qed.

(** ** [Bin.String] *)

Section StringProperties.

Variable Sf : string -> list arg -> string.

Lemma Bin_String_entries_returns es : forall i l,
  (forall e, e ∈ es -> (2 <= length (X e))%nat) ->
  exists s, Bin_String_entries Sf es i l = Ok s.
Proof.
  induction es as [|e es IH]; intros i l He; simpl; [eauto|].
  assert (Hl : (2 <= length (X e))%nat) by (apply He; by left).
  destruct (lookup_lt_is_Some_2 (X e) 0%nat) as [x0 E0]; [lia|].
  destruct (lookup_lt_is_Some_2 (X e) 1%nat) as [x1 E1]; [lia|].
  rewrite (index_lookup _ _ _ E0), (index_lookup _ _ _ E1). simpl.
  case_decide as H2.
  - destruct (lookup_lt_is_Some_2 (X e) 2%nat) as [x2 E2]; [lia|].
    rewrite (index_lookup _ _ _ E2). simpl.
    apply IH. intros e' He'. apply He. by right.
  - simpl. apply IH. intros e' He'. apply He. by right.
Qed.

(** X15.  [Bin.String] reads two coordinates of every entry (and panics
    on an entry with fewer).  On a grid built by [Init] and any calls since
    every entry has a coordinate per dimension, so the text of every bin of
    the table is produced. *)
Theorem Bin_String_returns o slot b :
  reachable o -> All o !! slot = Some (Some b) ->
  exists s, Bin_String Sf b = Ok s.
Proof.
  intros Hr Hb. unfold Bin_String.
  destruct (Bin_String_entries_returns (Entries b) 0
              (Sf ("{" +:+ dquote +:+ "idx" +:+ dquote +:+ ":%d, "
                   +:+ dquote +:+ "entries" +:+ dquote +:+ ":[") [AInt (Idx b)]))
    as [s Es].
  { intros e He.
    assert (Hin : e ∈ entries_at o slot)
      by (unfold entries_at, deref; by rewrite Hb).
    pose proof (reachable_entries_in_box o Hr slot e Hin) as Hbox.
    apply in_box_length in Hbox.
    destruct (wf_lengths o (reachable_wf _ Hr)) as (Hn & _). lia. }
  rewrite Es. simpl. eauto.
Qed.

End StringProperties.

(** ** [Draw2d] *)

Section DrawingProperties.

Variable Sf : string -> list arg -> string.

Lemma Draw2d_hlines_closed o x xi1 s1 js : forall y calls,
  Xi o !! 1%nat = Some xi1 -> S o !! 1%nat = Some s1 -> length y = 2%nat ->
  exists y',
    length y' = 2%nat /\
    Draw2d_hlines o x y js calls =
      Ok (y', calls ++
            ((fun j : nat =>
                plt.Plot x
                  [(xi1 + float64_of_int (Z.of_nat j) * s1)%float;
                   (xi1 + float64_of_int (Z.of_nat j) * s1)%float] (Some grid_args)) <$> js)).
Proof.
  induction js as [|j js IH]; intros y calls A1 S1 Hy; simpl.
  - exists y. by rewrite app_nil_r.
  - destruct y as [|a [|b [|]]]; try done.
    rewrite (index_lookup _ _ _ A1), (index_lookup _ _ _ S1). simpl.
    destruct (IH [(xi1 + float64_of_int (Z.of_nat j) * s1)%float;
                  (xi1 + float64_of_int (Z.of_nat j) * s1)%float]
                (calls ++ [plt.Plot x
                   [(xi1 + float64_of_int (Z.of_nat j) * s1)%float;
                    (xi1 + float64_of_int (Z.of_nat j) * s1)%float]
                   (Some grid_args)]) A1 S1 eq_refl) as (y' & Hy' & ->).
    exists y'. split; [done|]. by rewrite <- app_assoc.
Qed.

Lemma Draw2d_vlines_closed o y xi0 s0 ks : forall x calls,
  Xi o !! 0%nat = Some xi0 -> S o !! 0%nat = Some s0 -> length x = 2%nat ->
  exists x',
    length x' = 2%nat /\
    Draw2d_vlines o x y ks calls =
      Ok (x', calls ++
            ((fun i : nat =>
                plt.Plot
                  [(xi0 + float64_of_int (Z.of_nat i) * s0)%float;
                   (xi0 + float64_of_int (Z.of_nat i) * s0)%float]
                  y (Some grid_args)) <$> ks)).
Proof.
  induction ks as [|i ks IH]; intros x calls A0 S0 Hx; simpl.
  - exists x. by rewrite app_nil_r.
  - destruct x as [|a [|b [|]]]; try done.
    rewrite (index_lookup _ _ _ A0), (index_lookup _ _ _ S0). simpl.
    destruct (IH [(xi0 + float64_of_int (Z.of_nat i) * s0)%float;
                  (xi0 + float64_of_int (Z.of_nat i) * s0)%float]
                (calls ++ [plt.Plot
                   [(xi0 + float64_of_int (Z.of_nat i) * s0)%float;
                    (xi0 + float64_of_int (Z.of_nat i) * s0)%float]
                   y (Some grid_args)]) A0 S0 eq_refl) as (x' & Hx' & ->).
    exists x'. split; [done|]. by rewrite <- app_assoc.
Qed.

Lemma Draw2d_selected_returns o nxy n0 sel : forall calls,
  wf o -> N o !! 0%nat = Some n0 -> n0 ≠ 0 -> nxy ≠ 0 ->
  exists calls', Draw2d_selected o nxy sel calls = Ok calls'.
Proof.
  intros calls Hwf N0 Hz0 Hz1. revert calls.
  destruct (wf_lengths o Hwf) as (Hn & Li & _ & Ls & _ & _).
  destruct (lookup_lt_is_Some_2 (Xi o) 0%nat) as [a0 A0]; [lia|].
  destruct (lookup_lt_is_Some_2 (Xi o) 1%nat) as [a1 A1]; [lia|].
  destruct (lookup_lt_is_Some_2 (S o) 0%nat) as [s0 S0]; [lia|].
  destruct (lookup_lt_is_Some_2 (S o) 1%nat) as [s1 S1]; [lia|].
  induction sel as [|idx sel IH]; intros calls; simpl; [eauto|].
  unfold int_rem, int_quo.
  repeat progress
    (rewrite ?decide_False by done;
     rewrite ?(index_lookup _ _ _ N0), ?(index_lookup _ _ _ A0),
       ?(index_lookup _ _ _ S0), ?(index_lookup _ _ _ A1),
       ?(index_lookup _ _ _ S1); simpl).
  apply IH.
Qed.

Lemma Draw2d_entries_closed es : forall calls calls',
  Draw2d_entries es calls = Ok calls' ->
  exists new, calls' = calls ++ new /\ Some <$> new = entry_call <$> es.
Proof.
  induction es as [|e es IH]; intros calls calls' H; simpl in H.
  - injection H as <-. exists []. by rewrite app_nil_r.
  - inv_bind H. inv_bind H. apply index_Ok in E, E0.
    apply IH in H as (new & -> & Hnew).
    exists (plt.PlotOne v v0 (Some entry_args) :: new).
    split; [by rewrite <- app_assoc|].
    rewrite !fmap_cons. rewrite Hnew. f_equal. unfold entry_call. by rewrite E, E0.
Qed.

Lemma Draw2d_entries_returns es : forall calls,
  (forall e, e ∈ es -> (2 <= length (X e))%nat) ->
  exists calls', Draw2d_entries es calls = Ok calls'.
Proof.
  induction es as [|e es IH]; intros calls He; simpl; [eauto|].
  assert (Hl : (2 <= length (X e))%nat) by (apply He; by left).
  destruct (lookup_lt_is_Some_2 (X e) 0%nat) as [x0 E0]; [lia|].
  destruct (lookup_lt_is_Some_2 (X e) 1%nat) as [x1 E1]; [lia|].
  rewrite (index_lookup _ _ _ E0), (index_lookup _ _ _ E1). simpl.
  apply IH. intros e' He'. apply He. by right.
Qed.

Lemma Draw2d_bins_closed bins : forall calls calls',
  Draw2d_bins bins calls = Ok calls' ->
  exists new, calls' = calls ++ new /\
    Some <$> new =
      entry_call <$>
        concat ((fun b : option Bin => from_option Entries [] b) <$> bins).
Proof.
  induction bins as [|[b|] bins IH]; intros calls calls' H; simpl in H.
  - injection H as <-. exists []. by rewrite app_nil_r.
  - inv_bind H. apply Draw2d_entries_closed in E as (new1 & -> & H1).
    apply IH in H as (new2 & -> & H2).
    exists (new1 ++ new2). split; [by rewrite app_assoc|].
    simpl. by rewrite !fmap_app, H1, H2.
  - apply IH in H as (new & -> & Hnew). by exists new.
Qed.

Lemma Draw2d_bins_returns bins : forall calls,
  (forall b e, Some b ∈ bins -> e ∈ Entries b -> (2 <= length (X e))%nat) ->
  exists calls', Draw2d_bins bins calls = Ok calls'.
Proof.
  induction bins as [|[b|] bins IH]; intros calls He; simpl; [eauto| |].
  - destruct (Draw2d_entries_returns (Entries b) calls) as [calls1 ->].
    { intros e Hin. apply (He b); [by left|done]. }
    simpl. apply IH. intros b' e Hb' Hin. apply (He b'); [by right|done].
  - apply IH. intros b' e Hb' Hin. apply (He b'); [by right|done].
Qed.

(** The labels of a row, with the index of each cell written without
    wrap-around. *)
Lemma Draw2d_labels_row_closed o j n0 xi0 s0 xi1 s1 len : forall i0 calls,
  N o !! 0%nat = Some n0 ->
  Xi o !! 0%nat = Some xi0 -> S o !! 0%nat = Some s0 ->
  Xi o !! 1%nat = Some xi1 -> S o !! 1%nat = Some s1 ->
  Z.of_nat (i0 + len) <= n0 -> (Z.of_nat j + 1) * n0 <= int_max ->
  Draw2d_labels_row Sf o j (seq i0 len) calls =
    Ok (calls ++
          ((fun i : nat =>
              plt.Text
                (xi0 + float64_of_int (Z.of_nat i) * s0
                 + 0x1.47ae147ae147bp-6 * s0)%float
                (xi1 + float64_of_int (Z.of_nat j) * s1
                 + 0x1.47ae147ae147bp-6 * s1)%float
                (Sf "%d" [AInt (Z.of_nat i + Z.of_nat j * n0)]) None) <$> seq i0 len)).
Proof.
  induction len as [|len IH]; intros i0 calls N0 A0 S0 A1 S1 Hi Hmax; simpl.
  - by rewrite app_nil_r.
  - rewrite (index_lookup _ _ _ N0). simpl.
    rewrite (index_lookup _ _ _ A0), (index_lookup _ _ _ S0). simpl.
    rewrite (index_lookup _ _ _ A1), (index_lookup _ _ _ S1). simpl.
    rewrite IH by (auto; lia). rewrite <- app_assoc. simpl.
    assert (P0 : 0 <= Z.of_nat j * n0) by (apply Z.mul_nonneg_nonneg; lia).
    assert (P1 : (Z.of_nat j + 1) * n0 = Z.of_nat j * n0 + n0) by ring.
    unfold int_add, int_mul.
    rewrite (wrap_id (Z.of_nat j * n0)) by (unfold int_min, int_max in *; lia).
    rewrite wrap_id by (unfold int_min, int_max in *; lia).
    done.
Qed.

Lemma Draw2d_labels_closed o n0 n1 xi0 s0 xi1 s1 len : forall j0 calls,
  N o !! 0%nat = Some n0 ->
  Xi o !! 0%nat = Some xi0 -> S o !! 0%nat = Some s0 ->
  Xi o !! 1%nat = Some xi1 -> S o !! 1%nat = Some s1 ->
  0 <= n0 -> Z.of_nat (j0 + len) <= n1 -> n0 * n1 <= int_max ->
  Draw2d_labels Sf o (seq j0 len) calls =
    Ok (calls ++
          concat ((fun j : nat =>
             (fun i : nat =>
                plt.Text
                  (xi0 + float64_of_int (Z.of_nat i) * s0
                   + 0x1.47ae147ae147bp-6 * s0)%float
                  (xi1 + float64_of_int (Z.of_nat j) * s1
                   + 0x1.47ae147ae147bp-6 * s1)%float
                  (Sf "%d" [AInt (Z.of_nat i + Z.of_nat j * n0)]) None)
             <$> seq 0 (Z.to_nat n0)) <$> seq j0 len)).
Proof.
  induction len as [|len IH]; intros j0 calls N0 A0 S0 A1 S1 Hn Hj Hmax; simpl.
  - by rewrite app_nil_r.
  - rewrite (index_lookup _ _ _ N0). simpl.
    rewrite (Draw2d_labels_row_closed o j0 n0 xi0 s0 xi1 s1); auto; try lia.
    2:{ assert ((Z.of_nat j0 + 1) * n0 <= n1 * n0)
          by (apply Z.mul_le_mono_nonneg_r; lia). lia. }
    simpl. rewrite IH by (auto; lia). by rewrite <- app_assoc.
Qed.

(** A table filled row by row, read in one go. *)
Lemma rows_flatten {B} (g : nat -> nat -> B) m0 m1 :
  concat ((fun j : nat => (fun i : nat => g i j) <$> seq 0 m0) <$> seq 0 m1) =
  (fun k : nat => g (k mod m0)%nat (k / m0)%nat) <$> seq 0 (m0 * m1).
Proof.
  induction m1 as [|m1 IH].
  - by rewrite Nat.mul_0_r.
  - rewrite seq_S, fmap_app, concat_app, IH. simpl. rewrite app_nil_r.
    replace (m0 * Datatypes.S m1)%nat with (m0 * m1 + m0)%nat by lia.
    rewrite seq_app, fmap_app. f_equal. simpl.
    apply list_eq. intros n. rewrite !list_lookup_fmap.
    destruct (decide (n < m0)%nat) as [Hn|Hn].
    + rewrite !lookup_seq_lt by done. simpl. f_equal.
      replace (m0 * m1 + n)%nat with (n + m1 * m0)%nat by lia.
      rewrite Nat.Div0.mod_add, Nat.div_add by lia.
      rewrite Nat.mod_small, Nat.div_small by done. done.
    + by rewrite !lookup_seq_ge by lia.
Qed.

Lemma Draw2d_labels_row_returns o j ks : forall calls,
  wf o -> exists calls', Draw2d_labels_row Sf o j ks calls = Ok calls'.
Proof.
  intros calls Hwf. revert calls.
  destruct (wf_lengths o Hwf) as (Hn & Li & _ & Ls & Ln & _).
  destruct (lookup_lt_is_Some_2 (N o) 0%nat) as [n0 N0]; [lia|].
  destruct (lookup_lt_is_Some_2 (Xi o) 0%nat) as [a0 A0]; [lia|].
  destruct (lookup_lt_is_Some_2 (Xi o) 1%nat) as [a1 A1]; [lia|].
  destruct (lookup_lt_is_Some_2 (S o) 0%nat) as [s0 S0]; [lia|].
  destruct (lookup_lt_is_Some_2 (S o) 1%nat) as [s1 S1]; [lia|].
  induction ks as [|i ks IH]; intros calls; simpl; [eauto|].
  rewrite (index_lookup _ _ _ N0). simpl.
  rewrite (index_lookup _ _ _ A0), (index_lookup _ _ _ S0). simpl.
  rewrite (index_lookup _ _ _ A1), (index_lookup _ _ _ S1). simpl.
  apply IH.
Qed.

Lemma Draw2d_labels_returns o js : forall calls,
  wf o -> exists calls', Draw2d_labels Sf o js calls = Ok calls'.
Proof.
  intros calls Hwf. revert calls.
  destruct (wf_lengths o Hwf) as (Hn & _ & _ & _ & Ln & _).
  destruct (lookup_lt_is_Some_2 (N o) 0%nat) as [n0 N0]; [lia|].
  induction js as [|j js IH]; intros calls; simpl; [eauto|].
  rewrite (index_lookup _ _ _ N0). simpl.
  destruct (Draw2d_labels_row_returns o j (seq 0 (Z.to_nat n0)) calls Hwf)
    as [calls1 ->].
  simpl. apply IH.
Qed.

(** The lines of the grid, as [Draw2d] draws them when [withgrid] is
    set. *)
Lemma Draw2d_grid_closed o xi0 xi1 l0 l1 s0 s1 n0 n1 :
  Xi o !! 0%nat = Some xi0 -> Xi o !! 1%nat = Some xi1 ->
  L o !! 0%nat = Some l0 -> L o !! 1%nat = Some l1 ->
  S o !! 0%nat = Some s0 -> S o !! 1%nat = Some s1 ->
  N o !! 0%nat = Some n0 -> N o !! 1%nat = Some n1 ->
  Draw2d_grid o =
  Ok (((fun j : nat =>
          plt.Plot [xi0; (xi0 + l0 + s0)%float]
            [(xi1 + float64_of_int (Z.of_nat j) * s1)%float;
             (xi1 + float64_of_int (Z.of_nat j) * s1)%float] (Some grid_args))
         <$> seq 0 (Z.to_nat (int_add n1 1))) ++
      ((fun i : nat =>
          plt.Plot
            [(xi0 + float64_of_int (Z.of_nat i) * s0)%float;
             (xi0 + float64_of_int (Z.of_nat i) * s0)%float]
            [xi1; (xi1 + l1 + s1)%float] (Some grid_args))
         <$> seq 0 (Z.to_nat (int_add n0 1)))).
Proof.
  intros A0 A1 L0 L1 S0 S1 N0 N1. unfold Draw2d_grid.
  rewrite (index_lookup _ _ _ A0). simpl.
  rewrite (index_lookup _ _ _ L0). simpl.
  rewrite (index_lookup _ _ _ S0). simpl.
  rewrite (index_lookup _ _ _ N1). simpl.
  destruct (Draw2d_hlines_closed o [xi0; (xi0 + l0 + s0)%float] xi1 s1
              (seq 0 (Z.to_nat (int_add n1 1))) [0%float; 0%float] [] A1 S1 eq_refl)
    as (y' & Hy' & E).
  change (make 0%float 2) with (Ok [0%float; 0%float]). simpl.
  rewrite E. simpl.
  destruct y' as [|a [|b [|]]]; try done.
  rewrite (index_lookup _ _ _ A1). simpl.
  rewrite (index_lookup _ _ _ L1). simpl.
  rewrite (index_lookup _ _ _ S1). simpl.
  rewrite (index_lookup _ _ _ N0). simpl.
  destruct (Draw2d_vlines_closed o [xi1; (xi1 + l1 + s1)%float] xi0 s0
              (seq 0 (Z.to_nat (int_add n0 1))) [xi0; (xi0 + l0 + s0)%float]
              ((fun j : nat =>
                  plt.Plot [xi0; (xi0 + l0 + s0)%float]
                    [(xi1 + float64_of_int (Z.of_nat j) * s1)%float;
                     (xi1 + float64_of_int (Z.of_nat j) * s1)%float] (Some grid_args))
                 <$> seq 0 (Z.to_nat (int_add n1 1))) A0 S0 eq_refl)
    as (x' & Hx' & E').
  rewrite E'. done.
Qed.

(** X16.  [Draw2d] returns on every grid built by [Init] and any calls
    since, whatever is switched on, as long as no bin is selected or the
    table has a slot (it has none after [Clear], and then decoding a
    selected index may divide by zero). *)
Theorem Draw2d_returns o withtxt withgrid withentries setup selBins :
  reachable o -> (selBins = [] \/ All o ≠ []) ->
  exists calls,
    Draw2d Sf o withtxt withgrid withentries setup selBins = Ok calls.
Proof.
  intros Hr Hsel.
  pose proof (reachable_wf _ Hr) as Hwf.
  pose proof (reachable_table_ok _ Hr) as Ht.
  destruct (wf_lengths o Hwf) as (Hn & Li & Lf & Ls & Ln & _).
  assert (Ll : length (L o) = Z.to_nat (Ndim o)) by (destruct Hwf; lia).
  destruct (lookup_lt_is_Some_2 (Xi o) 0%nat) as [xi0 A0]; [lia|].
  destruct (lookup_lt_is_Some_2 (Xi o) 1%nat) as [xi1 A1]; [lia|].
  destruct (lookup_lt_is_Some_2 (Xf o) 0%nat) as [xf0 F0]; [lia|].
  destruct (lookup_lt_is_Some_2 (Xf o) 1%nat) as [xf1 F1]; [lia|].
  destruct (lookup_lt_is_Some_2 (L o) 0%nat) as [l0 L0]; [lia|].
  destruct (lookup_lt_is_Some_2 (L o) 1%nat) as [l1 L1]; [lia|].
  destruct (lookup_lt_is_Some_2 (S o) 0%nat) as [s0 S0]; [lia|].
  destruct (lookup_lt_is_Some_2 (S o) 1%nat) as [s1 S1]; [lia|].
  destruct (lookup_lt_is_Some_2 (N o) 0%nat) as [n0 N0]; [lia|].
  destruct (lookup_lt_is_Some_2 (N o) 1%nat) as [n1 N1]; [lia|].
  unfold Draw2d.
  assert (exists calls0,
            (if withgrid then Draw2d_grid o else Ok []) = Ok calls0)
    as [calls0 ->].
  { destruct withgrid; [|eauto].
    rewrite (Draw2d_grid_closed o xi0 xi1 l0 l1 s0 s1 n0 n1); eauto. }
  simpl. rewrite (index_lookup _ _ _ N0). simpl.
  rewrite (index_lookup _ _ _ N1). simpl.
  assert (exists calls1,
            Draw2d_selected o (int_mul n0 n1) selBins calls0 = Ok calls1)
    as [calls1 ->].
  { destruct Hsel as [->|Hne]; [simpl; eauto|].
    destruct (divisors_nonzero o Hwf Ht Hne) as (m0 & m1 & M0 & M1 & Hz0 & Hz1).
    simplify_eq. by eapply Draw2d_selected_returns. }
  simpl.
  assert (exists calls2,
            (if withentries then Draw2d_bins (All o) calls1 else Ok calls1) =
              Ok calls2) as [calls2 ->].
  { destruct withentries; [|eauto]. apply Draw2d_bins_returns.
    intros b e Hb He. apply list_elem_of_lookup_1 in Hb as [slot Hslot].
    assert (Hin : e ∈ entries_at o slot)
      by (unfold entries_at, deref; by rewrite Hslot).
    pose proof (reachable_entries_in_box o Hr slot e Hin) as Hbox.
    apply in_box_length in Hbox. lia. }
  simpl.
  assert (exists calls3,
            (if withtxt then Draw2d_labels Sf o (seq 0 (Z.to_nat n1)) calls2
             else Ok calls2) = Ok calls3) as [calls3 ->].
  { destruct withtxt; [|eauto]. by apply Draw2d_labels_returns. }
  simpl. destruct setup; [|eauto].
  rewrite (index_lookup _ _ _ A0), (index_lookup _ _ _ F0),
    (index_lookup _ _ _ S0). simpl.
  rewrite (index_lookup _ _ _ A1), (index_lookup _ _ _ F1),
    (index_lookup _ _ _ S1). simpl.
  eauto.
Qed.

(** X17.  The grid [Draw2d] draws when only [withgrid] is set, on a
    structure of the shape [Init] gives: first a horizontal line for each
    [j] below [N[1]+1], at height [Xi[1] + float64(j)*S[1]] and from
    [Xi[0]] to [Xi[0] + L[0] + S[0]], then a vertical line for each [i]
    below [N[0]+1], at [Xi[0] + float64(i)*S[0]] and from [Xi[1]] to
    [Xi[1] + L[1] + S[1]].  The slices the two loops write in place reach
    plt with these values. *)
Theorem Draw2d_grid_lines o :
  wf o ->
  exists xi0 xi1 l0 l1 s0 s1 n0 n1,
    Xi o !! 0%nat = Some xi0 /\ Xi o !! 1%nat = Some xi1 /\
    L o !! 0%nat = Some l0 /\ L o !! 1%nat = Some l1 /\
    S o !! 0%nat = Some s0 /\ S o !! 1%nat = Some s1 /\
    N o !! 0%nat = Some n0 /\ N o !! 1%nat = Some n1 /\
    Draw2d Sf o false true false false [] =
      Ok (((fun j : nat =>
              plt.Plot [xi0; (xi0 + l0 + s0)%float]
                [(xi1 + float64_of_int (Z.of_nat j) * s1)%float;
                 (xi1 + float64_of_int (Z.of_nat j) * s1)%float] (Some grid_args))
             <$> seq 0 (Z.to_nat (int_add n1 1))) ++
          ((fun i : nat =>
              plt.Plot
                [(xi0 + float64_of_int (Z.of_nat i) * s0)%float;
                 (xi0 + float64_of_int (Z.of_nat i) * s0)%float]
                [xi1; (xi1 + l1 + s1)%float] (Some grid_args))
             <$> seq 0 (Z.to_nat (int_add n0 1)))).
Proof.
  intros Hwf.
  destruct (wf_lengths o Hwf) as (Hn & Li & Lf & Ls & Ln & _).
  assert (Ll : length (L o) = Z.to_nat (Ndim o)) by (destruct Hwf; lia).
  destruct (lookup_lt_is_Some_2 (Xi o) 0%nat) as [xi0 A0]; [lia|].
  destruct (lookup_lt_is_Some_2 (Xi o) 1%nat) as [xi1 A1]; [lia|].
  destruct (lookup_lt_is_Some_2 (L o) 0%nat) as [l0 L0]; [lia|].
  destruct (lookup_lt_is_Some_2 (L o) 1%nat) as [l1 L1]; [lia|].
  destruct (lookup_lt_is_Some_2 (S o) 0%nat) as [s0 S0]; [lia|].
  destruct (lookup_lt_is_Some_2 (S o) 1%nat) as [s1 S1]; [lia|].
  destruct (lookup_lt_is_Some_2 (N o) 0%nat) as [n0 N0]; [lia|].
  destruct (lookup_lt_is_Some_2 (N o) 1%nat) as [n1 N1]; [lia|].
  exists xi0, xi1, l0, l1, s0, s1, n0, n1. do 8 (split; [done|]).
  unfold Draw2d.
  rewrite (Draw2d_grid_closed o xi0 xi1 l0 l1 s0 s1 n0 n1) by done.
  simpl. rewrite (index_lookup _ _ _ N0). simpl.
  by rewrite (index_lookup _ _ _ N1).
Qed.

(** X18.  What [Draw2d] plots when only [withentries] is set: one point
    for each stored entry, at its first two coordinates, slot by slot in
    the order of the table and, in a bin, in the order of insertion. *)
Theorem Draw2d_plots_entries o calls :
  Draw2d Sf o false false true false [] = Ok calls ->
  Some <$> calls = entry_call <$> stored_entries o.
Proof.
  unfold Draw2d. intros H. simpl in H.
  inv_bind H. inv_bind H. simpl in H. inv_bind H. simpl in H.
  injection H as <-.
  apply Draw2d_bins_closed in E1 as (new & -> & Hnew). done.
Qed.

(** X19.  The labels [Draw2d] writes when only [withtxt] is set, on a
    structure of the shape [Init] gives whose first two bin counts are not
    negative and multiply up without overflowing [int]: the cells of the
    first two dimensions are numbered 0, 1, ..., N[0]*N[1] - 1 in the order
    they are drawn, the number [k] standing in the cell of column
    [k mod N[0]] and row [k / N[0]], the cell whose flat index [CalcIdx]
    computes as [k]. *)
Theorem Draw2d_numbers_cells o n0 n1 :
  wf o ->
  N o !! 0%nat = Some n0 -> N o !! 1%nat = Some n1 ->
  0 <= n0 -> 0 <= n1 -> n0 * n1 <= int_max ->
  exists xi0 xi1 s0 s1,
    Xi o !! 0%nat = Some xi0 /\ Xi o !! 1%nat = Some xi1 /\
    S o !! 0%nat = Some s0 /\ S o !! 1%nat = Some s1 /\
    Draw2d Sf o true false false false [] =
      Ok ((fun k : nat =>
             plt.Text
               (xi0 + float64_of_int (Z.of_nat k mod n0) * s0
                + 0x1.47ae147ae147bp-6 * s0)%float
               (xi1 + float64_of_int (Z.of_nat k / n0) * s1
                + 0x1.47ae147ae147bp-6 * s1)%float
               (Sf "%d" [AInt (Z.of_nat k)]) None)
            <$> seq 0 (Z.to_nat (n0 * n1))).
Proof.
  intros Hwf N0 N1 H0 H1 Hmax.
  destruct (wf_lengths o Hwf) as (Hn & Li & _ & Ls & _ & _).
  destruct (lookup_lt_is_Some_2 (Xi o) 0%nat) as [xi0 A0]; [lia|].
  destruct (lookup_lt_is_Some_2 (Xi o) 1%nat) as [xi1 A1]; [lia|].
  destruct (lookup_lt_is_Some_2 (S o) 0%nat) as [s0 S0]; [lia|].
  destruct (lookup_lt_is_Some_2 (S o) 1%nat) as [s1 S1]; [lia|].
  exists xi0, xi1, s0, s1. do 4 (split; [done|]).
  unfold Draw2d. simpl.
  rewrite (index_lookup _ _ _ N0). simpl.
  rewrite (index_lookup _ _ _ N1). simpl.
  rewrite (Draw2d_labels_closed o n0 n1 xi0 s0 xi1 s1); auto; try lia.
  simpl. f_equal.
  rewrite (rows_flatten
    (fun i j : nat =>
       plt.Text
         (xi0 + float64_of_int (Z.of_nat i) * s0
          + 0x1.47ae147ae147bp-6 * s0)%float
         (xi1 + float64_of_int (Z.of_nat j) * s1
          + 0x1.47ae147ae147bp-6 * s1)%float
         (Sf "%d" [AInt (Z.of_nat i + Z.of_nat j * n0)]) None)).
  rewrite <- Z2Nat.inj_mul by done.
  apply list_eq. intros k. rewrite !list_lookup_fmap.
  destruct (seq 0 (Z.to_nat (n0 * n1)) !! k) as [k'|] eqn:Ek; [|done].
  simpl. f_equal.
  apply lookup_seq in Ek as [-> Hk]. simpl.
  assert (Hpos : 0 < n0).
  { destruct (decide (n0 = 0)) as [->|]; [|lia].
    rewrite Z.mul_0_l in Hk. simpl in Hk. lia. }
  rewrite Nat2Z.inj_mod, Nat2Z.inj_div, Z2Nat.id by lia.
  replace (Z.of_nat k `mod` n0 + Z.of_nat k `div` n0 * n0) with (Z.of_nat k);
    [done|].
  pose proof (Z.div_mod (Z.of_nat k) n0). lia.
Qed.

End DrawingProperties.

(** * The operations on concrete grids *)

(** Evaluation of closed statements: conjunctions and existentials are
    opened, then each equation is computed. *)
Ltac evaluate :=
  repeat match goal with
         | |- _ /\ _ => split
         | |- exists _, _ => eexists
         | |- let _ := _ in _ => intro
         end;
  vm_compute; reflexivity.

Lemma box10_Init :
  Init new_Bins [0; 0]%float [10; 10]%float 5 = Ok (box10, None).
Proof. vm_compute. reflexivity. Qed.

Lemma box10_geometry :
  S box10 = [2; 2]%float /\ N box10 = [6; 6] /\ length (All box10) = 36%nat.
Proof. evaluate. Qed.

Lemma box10_two_reachable : reachable box10_two.
Proof.
  apply (reach_Append box10_one [9; 9]%float 2 _ None); [|vm_compute; reflexivity].
  apply (reach_Append box10 [1; 1]%float 1 _ None); [|vm_compute; reflexivity].
  apply (reach_Init new_Bins [0; 0]%float [10; 10]%float 5). apply box10_Init.
Qed.

(** The scenario of the specification. *)
Lemma scenario_find_nearest :
  exists o', Find box10_two [0.5; 0.5]%float = Ok (o', 1).
Proof. evaluate. Qed.

Lemma scenario_find_along_segment :
  FindAlongSegment DistPointLine IsPointIn box10_two
    [0; 0]%float [10; 10]%float 1.5 = Ok [1; 2].
Proof. vm_compute. reflexivity. Qed.

Lemma scenario_out_of_range :
  exists o',
    Append box10_two [-1; -1]%float 3 =
      Ok (o', Some (ErrPointOutOfRange [-1; -1]%float)) /\
    All o' = All box10_two.
Proof. evaluate. Qed.

(** A closer entry in the neighbouring bin is not seen: the query point
    (1.9, 1) is in bin 0 with the entry at (1,1), at squared distance 0.81;
    the entry at (2,1) of bin 1 is at squared distance 0.01. *)
Lemma Find_ignores_neighbouring_bin :
  let o := grid_of (Append box10_one [2; 1]%float 5) in
  entries_at o 0 = [mkBinEntry 1 [1; 1]%float] /\
  entries_at o 1 = [mkBinEntry 5 [2; 1]%float] /\
  exists o', Find o [0x1.e666666666666p+0; 1]%float = Ok (o', 1).
Proof. evaluate. Qed.

(** In three dimensions the point tested for an entry takes its third
    coordinate from [X[0]]. *)
Lemma entry_point_3d o x0 x1 rest id z :
  Ndim o = 3 ->
  entry_point o (mkBinEntry id (x0 :: x1 :: rest)) z = Ok (mkPoint x0 x1 x0).
Proof. intros H. unfold entry_point. simpl. by rewrite decide_True. Qed.

(** * Where the code departs from the specification *)

(** C1 at the scenario: after [Clear] the insertion of (1,1) reports the
    bin-index error. *)
Lemma Clear_then_Append_scenario :
  exists o',
    Append (Clear box10_two) [1; 1]%float 3 = Ok (o', Some (ErrBinIndex 0)).
Proof. evaluate. Qed.

(** C4.  In three dimensions the fine test does not read the third
    coordinate of the entry: whatever the distance and containment
    functions, the pass of the second loop over an entry (id, (x0, x1,
    ...)) tests the point (x0, x1, x0), and appends the id exactly when
    that point is within the tolerance and inside the box. *)
Theorem fine_test_ignores_third_coordinate
    (D : Point -> Point -> Point -> float -> bool -> float)
    (I : Point -> list float -> list float -> float -> bool)
    o pi pf xi xf tol id x0 x1 rest z ids :
  Ndim o = 3 ->
  scan_entries D I o pi pf xi xf tol [mkBinEntry id (x0 :: x1 :: rest)] z ids =
    Ok (if (D (mkPoint x0 x1 x0) pi pf tol false <=? tol)%float
        then if I (mkPoint x0 x1 x0) xi xf tol then ids ++ [id] else ids
        else ids, x0).
Proof. intros H. simpl. rewrite entry_point_3d by done. done. Qed.

(** C4 at a failing input.  The cube (0,0,0)-(10,10,10) cut in 5 holds id
    7 at (1,1,1.75); along the segment (0,1,1)-(10,1,1) with tolerance 0.5
    the entry is at distance 0.75 and outside the box of the end points
    widened by the tolerance, yet its id is returned: the point tested is
    (1,1,1). *)
Lemma third_coordinate_scenario :
  entries_at cube10_one 0 = [mkBinEntry 7 [1; 1; 1.75]%float] /\
  (DistPointLine (mkPoint 1 1 1.75) (mkPoint 0 1 1) (mkPoint 10 1 1) 0.5 false
     <=? 0.5)%float = false /\
  IsPointIn (mkPoint 1 1 1.75) [0; 1; 1]%float [10; 1; 1]%float 0.5 = false /\
  FindAlongSegment DistPointLine IsPointIn cube10_one
    [0; 1; 1]%float [10; 1; 1]%float 0.5 = Ok [7].
Proof. evaluate. Qed.

(** Counterexample to C3: the entry 1 at (1,1) is at distance 4 from the
    segment (0,5)-(10,5), within the tolerance 4.5, and inside the box of
    the end points widened by 4.5; the centre of its bin is at distance 4
    too, above the bin tolerance 1.8: the bin is not selected and the
    result is empty. *)
Lemma coarse_filter_rejects_close_entry :
  entries_at box10_two 0 = [mkBinEntry 1 [1; 1]%float] /\
  (0 <=? 4.5)%float = true /\
  (DistPointLine (mkPoint 1 1 0) (mkPoint 0 5 0) (mkPoint 10 5 0) 4.5 false
     <=? 4.5)%float = true /\
  IsPointIn (mkPoint 1 1 0) [0; 5; -1]%float [10; 5; 1]%float 4.5 = true /\
  FindAlongSegment DistPointLine IsPointIn box10_two
    [0; 5]%float [10; 5]%float 4.5 = Ok [].
Proof. evaluate. Qed.

(** Counterexample to C5: the query point (1.5 * 2^599, 1.5 * 2^599) is
    inside the box and in bin 4, which holds the entry 1; the squared
    distance overflows to +Inf, which is not below [math.MaxFloat64], and
    [Find] returns -1. *)
Lemma Find_misses_entry_at_overflowing_distance :
  let q := [0x1.8p+599; 0x1.8p+599]%float in
  in_box far_box_one q = true /\
  entries_at far_box_one 4 = [mkBinEntry 1 [0; 0]%float] /\
  sqdist far_box_one q (mkBinEntry 1 [0; 0]%float) = Ok infinity /\
  exists o1, CalcIdx far_box_one q = Ok (o1, 4) /\
             Find far_box_one q = Ok (o1, -1).
Proof. evaluate. Qed.

(** [math.Pow(x, 2)] is not the product [x * x] where the square is
    subnormal: the square of the fraction is rounded to 53 bits, here to
    7/8 exactly, and [math.Ldexp] rounds 3.5 × 2^-1074 once more, to the
    even neighbour 4 × 2^-1074; the product rounds the exact square, which
    is below 3.5 × 2^-1074, to 3 × 2^-1074. *)
Lemma Pow_2_rounds_twice :
  Prim2SF (Pow_2 0x1.deeea11683f49p-537) = S754_finite false 4 (-1074) /\
  Prim2SF (0x1.deeea11683f49p-537 * 0x1.deeea11683f49p-537)
    = S754_finite false 3 (-1074).
Proof. evaluate. Qed.

(** The second rounding decides what [Find] returns: from the origin the
    entry 1 is at the squared distance 4 × 2^-1074 and the entry 2 at
    3 × 2^-1074, and [Find] returns 2; with products both would be at
    3 × 2^-1074 and the first inserted would be returned. *)
Lemma Find_subnormal_distances :
  entries_at unit_box_two 0 =
    [mkBinEntry 1 [0x1.deeea11683f49p-537; 0]%float;
     mkBinEntry 2 [0x1.bb67ae8584caap-537; 0]%float] /\
  sqdist unit_box_two [0; 0]%float
    (mkBinEntry 1 [0x1.deeea11683f49p-537; 0]%float) = Ok 0x1p-1072%float /\
  sqdist unit_box_two [0; 0]%float
    (mkBinEntry 2 [0x1.bb67ae8584caap-537; 0]%float) = Ok 0x1.8p-1073%float /\
  exists o', Find unit_box_two [0; 0]%float = Ok (o', 2).
Proof. evaluate. Qed.

(** Counterexample to C6: on the grid as [Init] returns it, into which
    nothing was inserted, [Find] at (0.5,0.5) leaves a bin in cell 0. *)
Lemma Find_allocates_bin :
  deref box10 0 = None /\
  exists o', Find box10 [0.5; 0.5]%float = Ok (o', -1) /\
             deref o' 0 = Some (mkBin 0 []).
Proof. evaluate. Qed.

(** Counterexample to C7: dimension 2, [Xi = (0,0) < Xf = (2^32-1,2^32-1)],
    [ndiv = 2^32-1 >= 1]; [Init] reports no error, there are 2^32 bins
    along each dimension, their product wraps to 0 and [CalcIdx] of the
    upper corner is -1. *)
Lemma upper_corner_index_wraps :
  Init new_Bins [0; 0]%float [4294967295; 4294967295]%float 4294967295
    = Ok (wide_box, None) /\
  (0 <? 4294967295)%float = true /\
  N wide_box = [4294967296; 4294967296] /\
  nbins_of (N wide_box) = 0 /\
  exists o1, CalcIdx wide_box [4294967295; 4294967295]%float = Ok (o1, -1).
Proof. evaluate. Qed.

(** Counterexample to C8: a point with NaN coordinates passes the range
    test (no comparison with NaN holds); on the box cut in 4 its index is
    0 and the entry is stored, although [Xi[0] <= x[0]] does not hold. *)
Lemma NaN_point_is_stored :
  Init new_Bins [0; 0]%float [10; 10]%float 4 = Ok (box10_by4, None) /\
  (0 <=? nan)%float = false /\
  exists o', Append box10_by4 [nan; nan]%float 3 = Ok (o', None) /\
             entries_at o' 0 = [mkBinEntry 3 [nan; nan]%float].
Proof. evaluate. Qed.

(** Counterexample to C9: on the fresh grid of 2^32 by 2^32 bins the
    number of bins wraps to 0 and the table has no slot; the lower corner
    is inside the box, its index is 0, and [Append] reports the bin-index
    error. *)
Lemma fresh_grid_bin_index_error :
  Init new_Bins [0; 0]%float [4294967295; 4294967295]%float 4294967295
    = Ok (wide_box, None) /\
  N wide_box = [4294967296; 4294967296] /\
  inside wide_box [0; 0]%float = true /\
  in_box wide_box [0; 0]%float = true /\
  length (All wide_box) = 0%nat /\
  exists o1 o',
    CalcIdx wide_box [0; 0]%float = Ok (o1, 0) /\
    Append wide_box [0; 0]%float 1 = Ok (o', Some (ErrBinIndex 0)).
Proof. evaluate. Qed.

(** A bin count that is not positive: in the box of the least positive
    length along the first axis, cut in 5, the bin size underflows to
    zero and [N[0]] is [int(+Inf) + 1]; the lower corner is inside the box,
    its cell coordinate is [int(NaN)], the flat index is negative, and
    [Append] reports the point as out of range. *)
Lemma fresh_grid_negative_index :
  Init new_Bins [0; 0]%float [0x1p-1074; 10]%float 5 = Ok (thin_box, None) /\
  S thin_box = [0; 2]%float /\
  N thin_box = [-9223372036854775807; 6] /\
  length (All thin_box) = 6%nat /\
  inside thin_box [0; 0]%float = true /\
  exists o1 o',
    CalcIdx thin_box [0; 0]%float = Ok (o1, -9223372036854775808) /\
    Append thin_box [0; 0]%float 1
      = Ok (o', Some (ErrPointOutOfRange [0; 0]%float)).
Proof. evaluate. Qed.

(** * The theorems at concrete inputs *)

Lemma Clear_then_Find_panics_witness :
  (exists o1, CalcIdx (Clear box10_two) [0.5; 0.5]%float = Ok (o1, 0)) /\
  Find (Clear box10_two) [0.5; 0.5]%float = Panic.
Proof.
  split; [eexists; vm_compute; reflexivity|].
  apply (Clear_then_Find_panics box10_two [0.5; 0.5]%float
           (grid_of (CalcIdx (Clear box10_two) [0.5; 0.5]%float)) 0).
  - vm_compute. reflexivity.
  - lia.
Defined.

Lemma FindAlongSegment_result_witness :
  FindAlongSegment DistPointLine IsPointIn box10_two
    [0; 0]%float [10; 10]%float 1.5 = Ok [1; 2] /\
  exists btol pi pf xi' xf' n0 n1,
    bin_tolerance box10_two = Ok btol /\
    segment_ends box10_two [0; 0]%float [10; 10]%float = Ok (pi, pf, xi', xf') /\
    N box10_two !! 0%nat = Some n0 /\ N box10_two !! 1%nat = Some n1 /\
    forall id, id ∈ [1; 2] <->
      exists slot bin e,
        All box10_two !! slot = Some (Some bin) /\
        near_segment DistPointLine box10_two pi pf 1.5 btol (int_mul n0 n1) slot = true /\
        e ∈ Entries bin /\ Id e = id /\
        entry_passes DistPointLine IsPointIn box10_two pi pf xi' xf' 1.5 e = true.
Proof.
  split; [vm_compute; reflexivity|].
  apply (FindAlongSegment_result DistPointLine IsPointIn box10_two
           [0; 0]%float [10; 10]%float 1.5 [1; 2]).
  vm_compute. reflexivity.
Defined.

Lemma Find_nearest_in_bin_witness :
  let x := [1; 1]%float in
  let b := mkBin 0 [mkBinEntry 1 [0.5; 0.5]%float; mkBinEntry 2 [1.5; 1.5]%float;
                    mkBinEntry 3 [1; 1.25]%float; mkBinEntry 4 [1.25; 1]%float] in
  All box10_four !! 0%nat = Some (Some b) /\
  Find box10_four x = Ok (grid_of (CalcIdx box10_four x), 3) /\
  exists i e d,
    Find box10_four x = Ok (grid_of (CalcIdx box10_four x), Id e) /\
    Entries b !! i = Some e /\
    sqdist box10_four x e = Ok d /\
    forall j e' d', Entries b !! j = Some e' -> sqdist box10_four x e' = Ok d' ->
      (d' <? d)%float = false /\ ((j < i)%nat -> (d <? d')%float = true).
Proof.
  split; [vm_compute; reflexivity|].
  split; [vm_compute; reflexivity|].
  apply (Find_nearest_in_bin box10_four [1; 1]%float
           (grid_of (CalcIdx box10_four [1; 1]%float)) 0
           (mkBin 0 [mkBinEntry 1 [0.5; 0.5]%float; mkBinEntry 2 [1.5; 1.5]%float;
                     mkBinEntry 3 [1; 1.25]%float; mkBinEntry 4 [1.25; 1]%float])).
  - vm_compute. reflexivity.
  - lia.
  - vm_compute. reflexivity.
  - discriminate.
  - intros e He. simpl in He.
    repeat (apply elem_of_cons in He as [->|He];
            [eexists; split; vm_compute; reflexivity|]).
    by apply elem_of_nil in He.
Defined.

Lemma Find_bins_witness :
  Find box10 [0.5; 0.5]%float = Ok (grid_of (Find box10 [0.5; 0.5]%float), -1) /\
  exists o1 idx,
    CalcIdx box10 [0.5; 0.5]%float = Ok (o1, idx) /\
    geometry (grid_of (Find box10 [0.5; 0.5]%float)) = geometry box10 /\
    length (All (grid_of (Find box10 [0.5; 0.5]%float))) = length (All box10) /\
    (forall slot,
       entries_at (grid_of (Find box10 [0.5; 0.5]%float)) slot =
       entries_at box10 slot) /\
    (forall slot,
       is_Some (deref (grid_of (Find box10 [0.5; 0.5]%float)) slot) <->
       is_Some (deref box10 slot) \/
       0 <= idx < Z.of_nat (length (All box10)) /\ slot = Z.to_nat idx).
Proof.
  split; [vm_compute; reflexivity|].
  apply (Find_bins box10 [0.5; 0.5]%float _ (-1)).
  vm_compute. reflexivity.
Defined.

Lemma corner_indices_witness :
  (exists o1, CalcIdx box10 [0; 0]%float = Ok (o1, 0)) /\
  (exists o2, CalcIdx box10 [10; 10]%float = Ok (o2, Zprod (N box10) - 1)) /\
  Z.of_nat (length (All box10)) = Zprod (N box10).
Proof.
  apply (corner_indices new_Bins [0; 0]%float [10; 10]%float 5 box10).
  - vm_compute. reflexivity.
  - intros [|[|k]] a b Ha Hb; simpl in Ha, Hb; simplify_eq; vm_compute; reflexivity.
  - intros k n Hn.
    destruct k as [|[|k]]; vm_compute in Hn; simplify_eq; lia.
  - vm_compute. discriminate.
Defined.

Lemma Append_out_of_range_witness :
  outside (-1) 0 10 = true /\
  exists o',
    Append box10_two [-1; -1]%float 3 =
      Ok (o', Some (ErrPointOutOfRange [-1; -1]%float)) /\
    geometry o' = geometry box10_two /\ All o' = All box10_two.
Proof.
  split; [vm_compute; reflexivity|].
  destruct (Append_out_of_range box10_two [-1; -1]%float 3 0%nat
              (-1)%float 0%float 10%float) as (o' & H1 & H2 & H3 & _).
  - exact box10_two_reachable.
  - reflexivity.
  - vm_compute. reflexivity.
  - vm_compute. reflexivity.
  - vm_compute. reflexivity.
  - exists o'. auto.
Defined.

Lemma fresh_grid_index_in_table_witness :
  inside box10 [9; 9]%float = true /\
  exists o1 idx,
    CalcIdx box10 [9; 9]%float = Ok (o1, idx) /\
    0 <= idx < Z.of_nat (length (All box10)) /\
    forall id, exists o', Append box10 [9; 9]%float id = Ok (o', None).
Proof.
  split; [vm_compute; reflexivity|].
  apply (fresh_grid_index_in_table box10 [9; 9]%float).
  - apply (init_Init new_Bins [0; 0]%float [10; 10]%float 5). apply box10_Init.
  - vm_compute. reflexivity.
  - intros n Hn. change (N box10) with [6; 6] in Hn.
    repeat (apply elem_of_cons in Hn as [->|Hn]; [lia|]).
    by apply elem_of_nil in Hn.
  - vm_compute. discriminate.
Defined.

Lemma Append_frame_witness :
  Append box10_one [9; 9]%float 2 = Ok (box10_two, None) /\
  exists o1 idx,
    CalcIdx box10_one [9; 9]%float = Ok (o1, idx) /\
    0 <= idx < Z.of_nat (length (All box10_one)) /\
    geometry box10_two = geometry box10_one /\
    length (All box10_two) = length (All box10_one) /\
    entries_at box10_two (Z.to_nat idx) =
      entries_at box10_one (Z.to_nat idx) ++ [mkBinEntry 2 [9; 9]%float] /\
    (forall j, j ≠ Z.to_nat idx -> All box10_two !! j = All box10_one !! j).
Proof.
  split; [vm_compute; reflexivity|].
  apply (Append_frame box10_one [9; 9]%float 2 box10_two).
  vm_compute. reflexivity.
Defined.

Lemma fine_test_ignores_third_coordinate_witness :
  Ndim cube10_one = 3 /\
  scan_entries DistPointLine IsPointIn cube10_one
    (mkPoint 0 1 1) (mkPoint 10 1 1) [0; 1; 1]%float [10; 1; 1]%float 0.5
    [mkBinEntry 7 [1; 1; 1.75]%float] 0 [] =
  Ok (if (DistPointLine (mkPoint 1 1 1) (mkPoint 0 1 1) (mkPoint 10 1 1) 0.5 false
            <=? 0.5)%float
      then if IsPointIn (mkPoint 1 1 1) [0; 1; 1]%float [10; 1; 1]%float 0.5
           then [] ++ [7] else []
      else [], 1%float).
Proof.
  split; [reflexivity|].
  apply (fine_test_ignores_third_coordinate DistPointLine IsPointIn cube10_one).
  reflexivity.
Defined.

(** * The further properties on concrete grids *)

Lemma box10_one_reachable : reachable box10_one.
Proof.
  apply (reach_Append box10 [1; 1]%float 1 _ None); [|vm_compute; reflexivity].
  apply (reach_Init new_Bins [0; 0]%float [10; 10]%float 5). apply box10_Init.
Qed.

Lemma FindBinByIndex_effect_witness :
  let o' := (FindBinByIndex box10 0).1 in
  FindBinByIndex box10 0 = (o', Some 0%nat) /\
  deref o' 0 = Some (mkBin 0 []) /\
  FindBinByIndex o' 0 = (o', Some 0%nat).
Proof.
  intros o'. split; [vm_compute; reflexivity|].
  destruct (FindBinByIndex_effect box10 0 o' (Some 0%nat))
    as (_ & _ & _ & _ & _ & _ & Hp & Hagain); [vm_compute; reflexivity|].
  split; [vm_compute; reflexivity|exact Hagain].
Defined.

Lemma reachable_bin_index_witness :
  All box10_two !! 0%nat = Some (Some (mkBin 0 [mkBinEntry 1 [1; 1]%float])) /\
  Idx (mkBin 0 [mkBinEntry 1 [1; 1]%float]) = Z.of_nat 0.
Proof.
  split; [vm_compute; reflexivity|].
  apply (reachable_bin_index box10_two box10_two_reachable 0%nat).
  vm_compute. reflexivity.
Defined.

Lemma reachable_entries_placed_witness :
  entries_at box10_two 28 = [mkBinEntry 2 [9; 9]%float] /\
  in_box box10_two [9; 9]%float = true /\
  flat_index box10_two [9; 9]%float = Some 28.
Proof.
  split; [vm_compute; reflexivity|].
  apply (reachable_entries_placed box10_two box10_two_reachable 28%nat
           (mkBinEntry 2 [9; 9]%float)).
  vm_compute. by left.
Defined.

Lemma Append_outcome_witness :
  exists o1 idx,
    CalcIdx box10 [1; 1]%float = Ok (o1, idx) /\
    if decide (idx < 0) then
      Append box10 [1; 1]%float 1 = Ok (o1, Some (ErrPointOutOfRange [1; 1]%float))
    else if decide (idx < Z.of_nat (length (All box10))) then
      exists o', Append box10 [1; 1]%float 1 = Ok (o', None)
    else Append box10 [1; 1]%float 1 = Ok (o1, Some (ErrBinIndex idx)).
Proof.
  apply (Append_outcome box10 [1; 1]%float 1).
  - apply reachable_wf.
    apply (reach_Init new_Bins [0; 0]%float [10; 10]%float 5). apply box10_Init.
  - vm_compute. lia.
Defined.

Lemma Find_outcome_witness :
  exists o1 idx,
    CalcIdx (Clear box10_two) [1; 1]%float = Ok (o1, idx) /\
    if decide (idx < 0) then Find (Clear box10_two) [1; 1]%float = Ok (o1, -1)
    else if decide (idx < Z.of_nat (length (All (Clear box10_two)))) then
      exists o' id, Find (Clear box10_two) [1; 1]%float = Ok (o', id)
    else Find (Clear box10_two) [1; 1]%float = Panic.
Proof.
  apply (Find_outcome (Clear box10_two) [1; 1]%float).
  - apply reach_Clear, box10_two_reachable.
  - vm_compute. lia.
Defined.

Lemma Find_returns_stored_id_witness :
  Find box10_two [0.5; 0.5]%float =
    Ok (grid_of (Find box10_two [0.5; 0.5]%float), 1) /\
  (1 = -1 \/
   exists o1 idx e d,
     CalcIdx box10_two [0.5; 0.5]%float = Ok (o1, idx) /\ 0 <= idx /\
     e ∈ entries_at box10_two (Z.to_nat idx) /\ Id e = 1 /\
     sqdist box10_two [0.5; 0.5]%float e = Ok d /\
     (d <? MaxFloat64)%float = true).
Proof.
  split; [vm_compute; reflexivity|].
  apply (Find_returns_stored_id box10_two [0.5; 0.5]%float
           (grid_of (Find box10_two [0.5; 0.5]%float)) 1).
  vm_compute. reflexivity.
Defined.

Lemma Append_then_Find_witness :
  Append box10_one [9; 9]%float 2 = Ok (box10_two, None) /\
  exists o'' slot e,
    flat_index box10_one [9; 9]%float = Some (Z.of_nat slot) /\
    Find box10_two [9; 9]%float = Ok (o'', Id e) /\
    e ∈ entries_at box10_two slot /\
    sqdist box10_two [9; 9]%float e = Ok 0%float /\
    ((forall e', e' ∈ entries_at box10_one slot ->
        sqdist box10_one [9; 9]%float e' ≠ Ok 0%float) ->
     e = mkBinEntry 2 [9; 9]%float).
Proof.
  split; [vm_compute; reflexivity|].
  apply (Append_then_Find box10_one [9; 9]%float 2 box10_two).
  - exact box10_one_reachable.
  - intros xk Hx.
    repeat (apply elem_of_cons in Hx as [->|Hx]; [vm_compute; reflexivity|]).
    by apply elem_of_nil in Hx.
  - vm_compute. reflexivity.
Defined.

Lemma FindAlongSegment_returns_witness :
  exists ids,
    FindAlongSegment DistPointLine IsPointIn box10_two
      [0; 0]%float [10; 10]%float 1.5 = Ok ids.
Proof.
  apply (FindAlongSegment_returns DistPointLine IsPointIn box10_two).
  - exact box10_two_reachable.
  - vm_compute. lia.
  - vm_compute. lia.
Defined.

Lemma FindAlongSegment_stored_ids_witness :
  FindAlongSegment DistPointLine IsPointIn box10_two
    [0; 0]%float [10; 0]%float 1.5 = Ok [1] /\
  [1] `sublist_of` (Id <$> stored_entries box10_two).
Proof.
  split; [vm_compute; reflexivity|].
  apply (FindAlongSegment_stored_ids DistPointLine IsPointIn box10_two
           [0; 0]%float [10; 0]%float 1.5).
  vm_compute. reflexivity.
Defined.

Lemma FindAlongSegment_after_Clear_witness :
  FindAlongSegment DistPointLine IsPointIn (Clear box10_two)
    [0; 0]%float [10; 10]%float 1.5 = Ok [].
Proof.
  apply (FindAlongSegment_after_Clear DistPointLine IsPointIn box10_two).
  - apply reachable_wf, box10_two_reachable.
  - vm_compute. lia.
  - vm_compute. lia.
Defined.

Lemma bin_center_of_cell_witness :
  flat_index box10 [9; 9]%float = Some 28 /\
  exists n0 n1 p,
    N box10 !! 0%nat = Some n0 /\ N box10 !! 1%nat = Some n1 /\
    bin_center box10 (int_mul n0 n1) 28 0 = Ok p /\
    cell_center box10 [9; 9]%float 0 = Some (PX p) /\
    cell_center box10 [9; 9]%float 1 = Some (PY p) /\
    if decide (Ndim box10 = 3) then cell_center box10 [9; 9]%float 2 = Some (PZ p)
    else PZ p = 0%float.
Proof.
  split; [vm_compute; reflexivity|].
  apply (bin_center_of_cell box10 [9; 9]%float 28 0).
  - apply reachable_wf.
    apply (reach_Init new_Bins [0; 0]%float [10; 10]%float 5). apply box10_Init.
  - intros k c n Hc Hn.
    destruct k as [|[|k]]; vm_compute in Hn; vm_compute in Hc;
      simplify_eq; lia.
  - vm_compute. discriminate.
  - vm_compute. reflexivity.
Defined.

Lemma extra_coordinates_ignored_witness :
  CalcIdx box10_two ([9; 9] ++ [5])%float = CalcIdx box10_two [9; 9]%float /\
  Find box10_two ([9; 9] ++ [5])%float = Find box10_two [9; 9]%float.
Proof.
  apply (extra_coordinates_ignored box10_two [9; 9]%float [5]%float).
  vm_compute. lia.
Defined.

Lemma Init_zero_divisions_witness :
  exists o,
    Init new_Bins [0; 0]%float [10; 10]%float 0 = Ok (o, None) /\
    N o = replicate (length [0; 0]%float) 1 /\
    All o = [None].
Proof.
  apply (Init_zero_divisions new_Bins [0; 0]%float [10; 10]%float).
  - reflexivity.
  - simpl. lia.
  - intros l Hl. vm_compute in Hl.
    repeat (apply elem_of_cons in Hl as [->|Hl];
            [eexists _, _; vm_compute; reflexivity|]).
    by apply elem_of_nil in Hl.
Defined.

Lemma Bin_String_returns_witness :
  All box10_two !! 0%nat = Some (Some (mkBin 0 [mkBinEntry 1 [1; 1]%float])) /\
  exists s, Bin_String Sf_decimal (mkBin 0 [mkBinEntry 1 [1; 1]%float]) = Ok s.
Proof.
  split; [vm_compute; reflexivity|].
  apply (Bin_String_returns Sf_decimal box10_two 0%nat).
  - exact box10_two_reachable.
  - vm_compute. reflexivity.
Defined.

Lemma Draw2d_returns_witness :
  exists calls,
    Draw2d Sf_decimal box10_two true true true true [0; 28] = Ok calls.
Proof.
  apply (Draw2d_returns Sf_decimal box10_two true true true true [0; 28]).
  - exact box10_two_reachable.
  - right. vm_compute. discriminate.
Defined.

Lemma Draw2d_grid_lines_witness :
  exists xi0 xi1 l0 l1 s0 s1 n0 n1,
    Xi box10 !! 0%nat = Some xi0 /\ Xi box10 !! 1%nat = Some xi1 /\
    L box10 !! 0%nat = Some l0 /\ L box10 !! 1%nat = Some l1 /\
    S box10 !! 0%nat = Some s0 /\ S box10 !! 1%nat = Some s1 /\
    N box10 !! 0%nat = Some n0 /\ N box10 !! 1%nat = Some n1 /\
    Draw2d Sf_decimal box10 false true false false [] =
      Ok (((fun j : nat =>
              plt.Plot [xi0; (xi0 + l0 + s0)%float]
                [(xi1 + float64_of_int (Z.of_nat j) * s1)%float;
                 (xi1 + float64_of_int (Z.of_nat j) * s1)%float] (Some grid_args))
             <$> seq 0 (Z.to_nat (int_add n1 1))) ++
          ((fun i : nat =>
              plt.Plot
                [(xi0 + float64_of_int (Z.of_nat i) * s0)%float;
                 (xi0 + float64_of_int (Z.of_nat i) * s0)%float]
                [xi1; (xi1 + l1 + s1)%float] (Some grid_args))
             <$> seq 0 (Z.to_nat (int_add n0 1)))).
Proof.
  apply (Draw2d_grid_lines Sf_decimal box10).
  apply reachable_wf.
  apply (reach_Init new_Bins [0; 0]%float [10; 10]%float 5). apply box10_Init.
Defined.

Lemma Draw2d_plots_entries_witness :
  Draw2d Sf_decimal box10_two false false true false [] =
    Ok [plt.PlotOne 1 1 (Some entry_args); plt.PlotOne 9 9 (Some entry_args)] /\
  Some <$> [plt.PlotOne 1 1 (Some entry_args); plt.PlotOne 9 9 (Some entry_args)] =
    entry_call <$> stored_entries box10_two.
Proof.
  split; [vm_compute; reflexivity|].
  apply (Draw2d_plots_entries Sf_decimal box10_two).
  vm_compute. reflexivity.
Defined.

Lemma Draw2d_numbers_cells_witness :
  exists xi0 xi1 s0 s1,
    Xi box10 !! 0%nat = Some xi0 /\ Xi box10 !! 1%nat = Some xi1 /\
    S box10 !! 0%nat = Some s0 /\ S box10 !! 1%nat = Some s1 /\
    Draw2d Sf_decimal box10 true false false false [] =
      Ok ((fun k : nat =>
             plt.Text
               (xi0 + float64_of_int (Z.of_nat k mod 6) * s0
                + 0x1.47ae147ae147bp-6 * s0)%float
               (xi1 + float64_of_int (Z.of_nat k / 6) * s1
                + 0x1.47ae147ae147bp-6 * s1)%float
               (Sf_decimal "%d" [AInt (Z.of_nat k)]) None)
            <$> seq 0 (Z.to_nat (6 * 6))).
Proof.
  apply (Draw2d_numbers_cells Sf_decimal box10 6 6).
  - apply reachable_wf.
    apply (reach_Init new_Bins [0; 0]%float [10; 10]%float 5). apply box10_Init.
  - vm_compute. reflexivity.
  - vm_compute. reflexivity.
  - lia.
  - lia.
  - vm_compute. discriminate.
Defined.

(** The grid of the scenario after a search in its empty middle cell: the
    same entries, one more bin. *)
Lemma box10_two_searched :
  same_entries box10_two (grid_of (Find box10_two [5; 5]%float)).
Proof. apply (Find_same_entries box10_two [5; 5]%float _ (-1)). vm_compute. reflexivity. Qed.

Lemma Find_sees_entries_only_witness :
  exists o1',
    Find (grid_of (Find box10_two [5; 5]%float)) [1.5; 1.5]%float = Ok (o1', 1) /\
    same_entries (grid_of (Find box10_two [1.5; 1.5]%float)) o1'.
Proof.
  apply (Find_sees_entries_only box10_two _ [1.5; 1.5]%float _ 1).
  - exact (reachable_wf _ box10_two_reachable).
  - exact box10_two_searched.
  - vm_compute. reflexivity.
Defined.

Lemma Append_sees_entries_only_witness :
  exists o1',
    Append (grid_of (Find box10_two [5; 5]%float)) [5; 5]%float 3 = Ok (o1', None) /\
    same_entries (grid_of (Append box10_two [5; 5]%float 3)) o1'.
Proof.
  apply (Append_sees_entries_only box10_two _ [5; 5]%float 3 _ None).
  - exact (reachable_wf _ box10_two_reachable).
  - exact box10_two_searched.
  - vm_compute. reflexivity.
Defined.

Lemma Find_idempotent_witness :
  Find (grid_of (Find box10_two [5; 5]%float)) [5; 5]%float =
    Ok (grid_of (Find box10_two [5; 5]%float), -1).
Proof.
  apply (Find_idempotent box10_two [5; 5]%float).
  vm_compute. reflexivity.
Defined.

Lemma Append_commute_witness :
  exists o2 o21,
    Append box10 [9; 9]%float 2 = Ok (o2, None) /\
    Append o2 [1; 1]%float 1 = Ok (o21, None) /\
    geometry o21 = geometry box10_two /\
    All o21 = All box10_two.
Proof.
  apply (Append_commute box10 [1; 1]%float 1 [9; 9]%float 2 box10_one box10_two).
  - apply reachable_wf.
    apply (reach_Init new_Bins [0; 0]%float [10; 10]%float 5). apply box10_Init.
  - vm_compute. reflexivity.
  - vm_compute. reflexivity.
  - vm_compute. discriminate.
Defined.

Lemma FindAlongSegment_exact_witness :
  exists btol pi pf xi' xf' n0 n1,
    bin_tolerance box10_two = Ok btol /\
    segment_ends box10_two [0; 0]%float [10; 10]%float = Ok (pi, pf, xi', xf') /\
    N box10_two !! 0%nat = Some n0 /\ N box10_two !! 1%nat = Some n1 /\
    FindAlongSegment DistPointLine IsPointIn box10_two [0; 0]%float [10; 10]%float 1.5 =
      Ok (ids_along
            (near_segment DistPointLine box10_two pi pf 1.5 btol (int_mul n0 n1))
            (entry_passes DistPointLine IsPointIn box10_two pi pf xi' xf' 1.5)
            0 (All box10_two)).
Proof.
  apply (FindAlongSegment_exact DistPointLine IsPointIn box10_two).
  - exact box10_two_reachable.
  - vm_compute. lia.
  - vm_compute. lia.
Defined.

Lemma FindAlongSegment_sees_entries_only_witness :
  exists ids,
    FindAlongSegment DistPointLine IsPointIn box10_two
      [0; 0]%float [10; 10]%float 1.5 = Ok ids /\
    FindAlongSegment DistPointLine IsPointIn (grid_of (Find box10_two [5; 5]%float))
      [0; 0]%float [10; 10]%float 1.5 = Ok ids.
Proof.
  apply (FindAlongSegment_sees_entries_only DistPointLine IsPointIn box10_two).
  - exact box10_two_reachable.
  - exact box10_two_searched.
  - vm_compute. lia.
  - vm_compute. lia.
Defined.
